(** * BadgerDB B+Tree index (btree.h / btree.cpp): a shallow embedding

    The index object, the pages of its file and the buffer manager's pin
    bookkeeping are explicit state; every member function of [BTreeIndex] is
    a computation in a state-and-exception monad.  Keys are C [int]s: the code
    only copies and compares them, so they are modelled as [Z].  Page numbers,
    slot numbers and array indices are [nat]. *)

From Stdlib Require Import ZArith Lia String.
From stdpp Require Import base numbers option list strings pretty gmap sorting.

Set Default Proof Using "Type".
Open Scope Z_scope.
Open Scope nat_scope.

(** ** Types of btree.h *)

(** [typedef std::uint32_t PageId]. *)
Abbreviation PageId := nat (only parsing).

Record RecordId := mkRid { page_number : PageId; slot_number : nat }.

Inductive Datatype := INTEGER | DOUBLE | STRING.

Inductive Operator := LT | LTE | GTE | GT.

#[global] Instance RecordId_eq_dec : EqDecision RecordId.
Proof. solve_decision. Defined.
#[global] Instance Datatype_eq_dec : EqDecision Datatype.
Proof. solve_decision. Defined.
#[global] Instance Operator_eq_dec : EqDecision Operator.
Proof. solve_decision. Defined.

(** [INTARRAYLEAFSIZE] and [INTARRAYNONLEAFSIZE] are computed in btree.h from
    [Page::SIZE] and [sizeof], which belong to headers outside this
    repository's index code; they are parameters of the development. *)
Class Layout := {
  INTARRAYLEAFSIZE : nat;
  INTARRAYNONLEAFSIZE : nat
}.

Record IndexMetaInfo := mkMeta {
  relationName : string;
  attrByteOffset : Z;
  attrType : Datatype;
  rootPageNo : PageId
}.

(** [struct NonLeafNodeInt]. *)
Record NonLeafNodeInt := mkNonLeaf {
  level : Z;
  keyArray : list Z;
  pageNoArray : list PageId
}.

(** [struct LeafNodeInt]; its [level] and [keyArray] members are spelled
    [leafLevel] and [leafKeyArray] here because record fields share one name
    space. *)
Record LeafNodeInt := mkLeaf {
  leafLevel : Z;
  leafKeyArray : list Z;
  ridArray : list RecordId;
  rightSibPageNo : PageId
}.

(** A page of the index file.  The code casts a raw page to one of the three
    structs; every page it touches was initialised by the constructor, by
    [allocLeaf] or by [allocNonLeaf], so a page is modelled by the struct it
    was initialised as.  [BlankPage] is a page fresh from [allocPage]. *)
Inductive Page :=
| BlankPage
| MetaPage (m : IndexMetaInfo)
| LeafPage (n : LeafNodeInt)
| NonLeafPage (n : NonLeafNodeInt).

(** ** Array access

    A read at an index outside the declared array is undefined in C++; the
    model reads 0 there and a write there is dropped.  The two loops whose
    reads can leave the array ([findNonLeafIndex], [insertToLeaf]) also
    return the list of indices they read. *)

Definition zeroRid : RecordId := mkRid 0 0.

Definition getKey (a : list Z) (i : nat) : Z := default 0%Z (a !! i).
Definition getPid (a : list PageId) (i : nat) : PageId := default 0 (a !! i).
Definition getRid (a : list RecordId) (i : nat) : RecordId := default zeroRid (a !! i).

(** [a[i].page_number = 0]. *)
Definition clearRid (a : list RecordId) (i : nat) : list RecordId :=
  <[i := mkRid 0 (slot_number (getRid a i))]> a.

(** ** Exceptions and the monad *)

Inductive Exception :=
| BadIndexInfoException
| BadOpcodesException
| BadScanrangeException
| NoSuchKeyFoundException
| ScanNotInitializedException
| IndexScanCompletedException
| FileNotFoundException
| EndOfFileException
| InvalidPageException
| PageNotPinnedException
| PagePinnedException.

#[global] Instance Exception_eq_dec : EqDecision Exception.
Proof. solve_decision. Defined.

(** How a call ends: it returns, it throws, it runs into undefined behaviour
    that the model does not follow (a null pointer, a page used as a struct it
    was not initialised as), or the recursion budget of the model ran out. *)
Inductive Outcome (A : Type) :=
| Ret (a : A)
| Throw (e : Exception)
| Undefined
| OutOfFuel.
Arguments Ret {A} a.
Arguments Throw {A} e.
Arguments Undefined {A}.
Arguments OutOfFuel {A}.

(** State is kept when an exception leaves a function: C++ does not roll
    back the writes done before a [throw]. *)
Definition Op (St A : Type) : Type := St -> Outcome A * St.

#[global] Instance Op_ret {St} : MRet (Op St) := fun A a s => (Ret a, s).

#[global] Instance Op_bind {St} : MBind (Op St) := fun A B f m s =>
  match m s with
  | (Ret a, s') => f a s'
  | (Throw e, s') => (Throw e, s')
  | (Undefined, s') => (Undefined, s')
  | (OutOfFuel, s') => (OutOfFuel, s')
  end.

Definition throw {St A} (e : Exception) : Op St A := fun s => (Throw e, s).
Definition undefined {St A} : Op St A := fun s => (Undefined, s).
Definition outOfFuel {St A} : Op St A := fun s => (OutOfFuel, s).
Definition get {St} : Op St St := fun s => (Ret s, s).
Definition modify {St} (f : St -> St) : Op St unit := fun s => (Ret tt, f s).

(** [try { m } catch (e) { h }]. *)
Definition tryCatch {St A} (m : Op St A) (e : Exception) (h : Op St A) : Op St A :=
  fun s => match m s with
           | (Throw e', s') => if decide (e' = e) then h s' else (Throw e', s')
           | r => r
           end.

(** ** The buffer manager and the index file *)

(** Modelled from the spec: the buffer manager and the paged file are outside
    the index code.  Section 5 of the specification gives the contract:
    [readPage] and [allocPage] return with the page pinned, [unPinPage]
    releases one pin and may mark the page dirty, [flushFile] writes the file
    back.  The pool is shown as far as the index file is concerned: [pages]
    is the content of the file as seen through the pool, page number
    [p >= 1] at position [p - 1]; [pinned] has one entry per outstanding pin;
    [dirty] lists the pages unpinned with [dirty = true]. *)
Record BufMgr := mkBuf {
  pages : list Page;
  pinned : list PageId;
  dirty : list PageId
}.

Definition lookupPage (b : BufMgr) (pid : PageId) : option Page :=
  match pid with
  | 0 => None
  | S i => pages b !! i
  end.

(** Modelled from the spec: [readPage] pins the page; a page number that is
    not in the file is refused. *)
Definition readPage (pid : PageId) : Op BufMgr unit := fun b =>
  match lookupPage b pid with
  | Some _ => (Ret tt, mkBuf (pages b) (pid :: pinned b) (dirty b))
  | None => (Throw InvalidPageException, b)
  end.

(** Modelled from the spec: [allocPage] appends a page to the file and
    returns its number, pinned. *)
Definition allocPage : Op BufMgr PageId := fun b =>
  let pid := S (length (pages b)) in
  (Ret pid, mkBuf (pages b ++ [BlankPage]) (pid :: pinned b) (dirty b)).

(** Remove one occurrence. *)
Fixpoint removeOne (pid : PageId) (l : list PageId) : list PageId :=
  match l with
  | [] => []
  | x :: l' => if decide (x = pid) then l' else x :: removeOne pid l'
  end.

(** Modelled from the spec: [unPinPage] releases one pin and records the
    dirty flag; unpinning a page that holds no pin is refused. *)
Definition unPinPage (pid : PageId) (dirtyFlag : bool) : Op BufMgr unit := fun b =>
  if decide (pid ∈ pinned b)
  then (Ret tt, mkBuf (pages b) (removeOne pid (pinned b))
                      (if dirtyFlag then pid :: dirty b else dirty b))
  else (Throw PageNotPinnedException, b).

(** The content of a pinned page, through the pointer [readPage] or
    [allocPage] handed out. *)
Definition load (pid : PageId) : Op BufMgr Page := fun b =>
  match lookupPage b pid with
  | Some p => (Ret p, b)
  | None => (Undefined, b)
  end.

Definition store (pid : PageId) (p : Page) : Op BufMgr unit := fun b =>
  match pid with
  | 0 => (Undefined, b)
  | S i => if decide (i < length (pages b))
           then (Ret tt, mkBuf (<[i := p]> (pages b)) (pinned b) (dirty b))
           else (Undefined, b)
  end.

(** [(LeafNodeInt * )page] and [(NonLeafNodeInt * )page]. *)
Definition loadLeaf (pid : PageId) : Op BufMgr LeafNodeInt :=
  p ← load pid;
  match p with
  | LeafPage n => mret n
  | _ => undefined
  end.

Definition loadNonLeaf (pid : PageId) : Op BufMgr NonLeafNodeInt :=
  p ← load pid;
  match p with
  | NonLeafPage n => mret n
  | _ => undefined
  end.

(** [((NonLeafNodeInt * )page)->level]: both node structs start with
    [level]. *)
Definition pageLevel (p : Page) : option Z :=
  match p with
  | LeafPage n => Some (leafLevel n)
  | NonLeafPage n => Some (level n)
  | _ => None
  end.

Definition loadLevel (pid : PageId) : Op BufMgr Z :=
  p ← load pid;
  match pageLevel p with
  | Some l => mret l
  | None => undefined
  end.

Section Index.
Context `{Layout}.

(** ** Node allocation *)

(** [memset(node, 0, Page::SIZE)] seen as each of the two structs. *)
Definition zeroNonLeaf : NonLeafNodeInt :=
  mkNonLeaf 0 (replicate INTARRAYNONLEAFSIZE 0%Z) (replicate (S INTARRAYNONLEAFSIZE) 0).

Definition zeroLeaf : LeafNodeInt :=
  mkLeaf 0 (replicate INTARRAYLEAFSIZE 0%Z) (replicate INTARRAYLEAFSIZE zeroRid) 0.

(** Returns the new page number (the reference parameter [pageId]); the node
    is reached by [loadNonLeaf] on it. *)
Definition allocNonLeaf : Op BufMgr PageId :=
  pageId ← allocPage;
  store pageId (NonLeafPage zeroNonLeaf);;
  mret pageId.

Definition allocLeaf : Op BufMgr PageId :=
  pageId ← allocPage;
  store pageId (LeafPage (mkLeaf (-1) (leafKeyArray zeroLeaf) (ridArray zeroLeaf) 0));;
  mret pageId.

(** ** findNonLeafIndex

    [while (pageNoArray[idx+1] != 0 && key > keyArray[idx] && idx < SIZE) idx++].
    The second component lists the indices at which [pageNoArray] was read, in
    order.  [idx] grows by one per round and a round needs [idx < SIZE], so
    [SIZE + 1] evaluations of the condition always suffice. *)
Fixpoint findNonLeafIndex_loop (n : nat) (node : NonLeafNodeInt) (key : Z) (idx : nat)
  : nat * list nat :=
  match n with
  | 0 => (idx, [])
  | S n' =>
      if negb (getPid (pageNoArray node) (idx + 1) =? 0)
         && (getKey (keyArray node) idx <? key)%Z
         && (idx <? INTARRAYNONLEAFSIZE)
      then let '(r, reads) := findNonLeafIndex_loop n' node key (S idx) in
           (r, (idx + 1) :: reads)
      else (idx, [idx + 1])
  end.

Definition findNonLeafIndex (node : NonLeafNodeInt) (key : Z) : nat :=
  fst (findNonLeafIndex_loop (S INTARRAYNONLEAFSIZE) node key 0).

Definition findNonLeafIndex_reads (node : NonLeafNodeInt) (key : Z) : list nat :=
  snd (findNonLeafIndex_loop (S INTARRAYNONLEAFSIZE) node key 0).

(** ** insertToLeaf *)

(** [while (ridArray[next].page_number != 0 && next < SIZE) next++], with the
    indices at which [ridArray] was read. *)
Fixpoint leafFull_loop (n : nat) (node : LeafNodeInt) (next : nat) : nat * list nat :=
  match n with
  | 0 => (next, [])
  | S n' =>
      if negb (page_number (getRid (ridArray node) next) =? 0)
         && (next <? INTARRAYLEAFSIZE)
      then let '(r, reads) := leafFull_loop n' node (S next) in (r, next :: reads)
      else (next, [next])
  end.

Definition leafFull_next (node : LeafNodeInt) : nat :=
  fst (leafFull_loop (S INTARRAYLEAFSIZE) node 0).

Definition leafFull_reads (node : LeafNodeInt) : list nat :=
  snd (leafFull_loop (S INTARRAYLEAFSIZE) node 0).

(** [j = i + n; while (j > i) { a[j] = a[j-1]; j--; }]. *)
Fixpoint moveBackwardKeys (n i : nat) (a : list Z) : list Z :=
  match n with
  | 0 => a
  | S n' => moveBackwardKeys n' i (<[i + n := getKey a (i + n - 1)]> a)
  end.

Fixpoint moveBackwardRids (n i : nat) (a : list RecordId) : list RecordId :=
  match n with
  | 0 => a
  | S n' => moveBackwardRids n' i (<[i + n := getRid a (i + n - 1)]> a)
  end.

Fixpoint moveBackwardPids (n i : nat) (a : list PageId) : list PageId :=
  match n with
  | 0 => a
  | S n' => moveBackwardPids n' i (<[i + n := getPid a (i + n - 1)]> a)
  end.

(** The [while (i < SIZE)] loop of the not-full branch: [n] rounds are left,
    [i = SIZE - n]. *)
Fixpoint leafPlace_loop (n : nat) (key : Z) (rid : RecordId) (node : LeafNodeInt) (i : nat)
  : LeafNodeInt :=
  match n with
  | 0 => node
  | S n' =>
      if (page_number (getRid (ridArray node) i) =? 0)
         || (key <? getKey (leafKeyArray node) i)%Z
      then
        let ks := moveBackwardKeys (INTARRAYLEAFSIZE - 1 - i) i (leafKeyArray node) in
        let rs := moveBackwardRids (INTARRAYLEAFSIZE - 1 - i) i (ridArray node) in
        mkLeaf (leafLevel node) (<[i := key]> ks) (<[i := rid]> rs) (rightSibPageNo node)
      else leafPlace_loop n' key rid node (S i)
  end.

(** ** splitLeafNode *)

(** The loop that fills [tempKey] and [tempRid]; [n] bounds the rounds ([j]
    grows by one per round and the loop leaves at [j = SIZE]).  The arrays
    are uninitialised locals in the source and start at 0 here; on a full
    leaf every cell is written. *)
Fixpoint leafTemp_loop (n : nat) (node : LeafNodeInt) (key : Z) (rid : RecordId)
    (i j : nat) (tempKey : list Z) (tempRid : list RecordId) : list Z * list RecordId :=
  match n with
  | 0 => (tempKey, tempRid)
  | S n' =>
      if negb (i <=? INTARRAYLEAFSIZE) then (tempKey, tempRid)
      else if (j =? INTARRAYLEAFSIZE) || (page_number (getRid (ridArray node) j) =? 0)
      then (<[j := key]> tempKey, <[j := rid]> tempRid)
      else
        let '(i, tempKey, tempRid) :=
          if (j =? i) && (key <? getKey (leafKeyArray node) i)%Z
          then (S i, <[i := key]> tempKey, <[i := rid]> tempRid)
          else (i, tempKey, tempRid) in
        leafTemp_loop n' node key rid (S i) (S j)
          (<[i := getKey (leafKeyArray node) j]> tempKey)
          (<[i := getRid (ridArray node) j]> tempRid)
  end.

Definition leafTemp (node : LeafNodeInt) (key : Z) (rid : RecordId)
  : list Z * list RecordId :=
  leafTemp_loop (S INTARRAYLEAFSIZE) node key rid 0 0
    (replicate (S INTARRAYLEAFSIZE) 0%Z) (replicate (S INTARRAYLEAFSIZE) zeroRid).

(** One round of [for (i = SIZE/2; i <= SIZE; i++)]. *)
Definition leafSplit_step (tempKey : list Z) (tempRid : list RecordId)
    (st : LeafNodeInt * LeafNodeInt) (i : nat) : LeafNodeInt * LeafNodeInt :=
  let '(node, newNode) := st in
  let node :=
    if i <? INTARRAYLEAFSIZE
    then mkLeaf (leafLevel node) (leafKeyArray node) (clearRid (ridArray node) i)
                (rightSibPageNo node)
    else node in
  let k := i - INTARRAYLEAFSIZE / 2 in
  (node,
   mkLeaf (leafLevel newNode)
          (<[k := getKey tempKey i]> (leafKeyArray newNode))
          (<[k := getRid tempRid i]> (ridArray newNode))
          (rightSibPageNo newNode)).

Definition leafSplit (tempKey : list Z) (tempRid : list RecordId)
    (node newNode : LeafNodeInt) : LeafNodeInt * LeafNodeInt :=
  foldl (leafSplit_step tempKey tempRid) (node, newNode)
        (seq (INTARRAYLEAFSIZE / 2) (S INTARRAYLEAFSIZE - INTARRAYLEAFSIZE / 2)).

(** Returns the mid key and the reference parameter [newPid]. *)
Definition splitLeafNode (key : Z) (rid : RecordId) (pid : PageId)
  : Op BufMgr (Z * PageId) :=
  readPage pid;;
  node ← loadLeaf pid;
  let '(tempKey, tempRid) := leafTemp node key rid in
  newPid ← allocLeaf;
  newNode ← loadLeaf newPid;
  let '(node, newNode) := leafSplit tempKey tempRid node newNode in
  let newNode := mkLeaf (leafLevel newNode) (leafKeyArray newNode) (ridArray newNode)
                        (rightSibPageNo node) in
  let node := mkLeaf (leafLevel node) (leafKeyArray node) (ridArray node) newPid in
  store pid (LeafPage node);;
  store newPid (LeafPage newNode);;
  unPinPage pid true;;
  unPinPage newPid true;;
  mret (getKey tempKey (INTARRAYLEAFSIZE / 2), newPid).

(** Returns [split] and the reference parameters [midKey] and [newPid], which
    keep the values passed in when the leaf is not split. *)
Definition insertToLeaf (key : Z) (rid : RecordId) (pid : PageId)
    (midKey : Z) (newPid : PageId) : Op BufMgr (bool * Z * PageId) :=
  readPage pid;;
  node ← loadLeaf pid;
  let next := leafFull_next node in
  if next =? INTARRAYLEAFSIZE
  then
    unPinPage pid true;;
    '(midKey, newPid) ← splitLeafNode key rid pid;
    mret (true, midKey, newPid)
  else if page_number (getRid (ridArray node) 0) =? 0
  then
    store pid (LeafPage (mkLeaf (leafLevel node) (<[0 := key]> (leafKeyArray node))
                                (<[0 := rid]> (ridArray node)) (rightSibPageNo node)));;
    unPinPage pid true;;
    mret (false, midKey, newPid)
  else
    store pid (LeafPage (leafPlace_loop INTARRAYLEAFSIZE key rid node 0));;
    unPinPage pid true;;
    mret (false, midKey, newPid).

(** ** splitNonLeafNode *)

(** The loop that fills [tempKey] and [tempPid].  The source declares
    [tempPid] with [SIZE + 1] cells and uses indices up to [SIZE + 1]; the
    model gives it the [SIZE + 2] cells the loop and the split use. *)
Fixpoint nonLeafTemp_loop (n : nat) (node : NonLeafNodeInt) (key : Z)
    (sonPid pid : PageId) (i j : nat) (tempKey : list Z) (tempPid : list PageId)
  : list Z * list PageId :=
  match n with
  | 0 => (tempKey, tempPid)
  | S n' =>
      if negb (i <=? INTARRAYNONLEAFSIZE) then (tempKey, tempPid)
      else if (j =? INTARRAYNONLEAFSIZE) || (getPid (pageNoArray node) (j + 1) =? 0)
      then (<[j := key]> tempKey, <[j + 1 := pid]> tempPid)
      else
        let '(i, tempKey, tempPid) :=
          if (j =? i) && (key <? getKey (keyArray node) i)%Z
          then (S i, <[i := key]> tempKey, <[i + 1 := sonPid]> tempPid)
          else (i, tempKey, tempPid) in
        nonLeafTemp_loop n' node key sonPid pid (S i) (S j)
          (<[i := getKey (keyArray node) j]> tempKey)
          (<[i + 1 := getPid (pageNoArray node) (j + 1)]> tempPid)
  end.

Definition nonLeafTemp (node : NonLeafNodeInt) (key : Z) (sonPid pid : PageId)
  : list Z * list PageId :=
  nonLeafTemp_loop (S INTARRAYNONLEAFSIZE) node key sonPid pid 0 0
    (replicate (S INTARRAYNONLEAFSIZE) 0%Z)
    (<[0 := getPid (pageNoArray node) 0]> (replicate (S (S INTARRAYNONLEAFSIZE)) 0)).

(** One round of [for (i = SIZE/2 + 1; i <= SIZE + 1; i++)]. *)
Definition nonLeafSplit_step (tempKey : list Z) (tempPid : list PageId)
    (st : NonLeafNodeInt * NonLeafNodeInt) (i : nat) : NonLeafNodeInt * NonLeafNodeInt :=
  let '(node, newNode) := st in
  let k := i - INTARRAYNONLEAFSIZE / 2 - 1 in
  (mkNonLeaf (level node) (keyArray node) (<[i := 0]> (pageNoArray node)),
   mkNonLeaf (level newNode)
             (if negb (i =? INTARRAYNONLEAFSIZE + 1)
              then <[k := getKey tempKey i]> (keyArray newNode)
              else keyArray newNode)
             (<[k := getPid tempPid i]> (pageNoArray newNode))).

Definition nonLeafSplit (tempKey : list Z) (tempPid : list PageId)
    (node newNode : NonLeafNodeInt) : NonLeafNodeInt * NonLeafNodeInt :=
  foldl (nonLeafSplit_step tempKey tempPid) (node, newNode)
        (seq (INTARRAYNONLEAFSIZE / 2 + 1)
             (S INTARRAYNONLEAFSIZE - INTARRAYNONLEAFSIZE / 2)).

(** Returns the mid key and the reference parameter [newPid]. *)
Definition splitNonLeafNode (key : Z) (sonPid pid : PageId) : Op BufMgr (Z * PageId) :=
  readPage pid;;
  node ← loadNonLeaf pid;
  let '(tempKey, tempPid) := nonLeafTemp node key sonPid pid in
  let midKey := getKey tempKey (INTARRAYNONLEAFSIZE / 2) in
  newPid ← allocNonLeaf;
  newNode ← loadNonLeaf newPid;
  let newNode := mkNonLeaf (level node) (keyArray newNode) (pageNoArray newNode) in
  let '(node, newNode) := nonLeafSplit tempKey tempPid node newNode in
  store pid (NonLeafPage node);;
  store newPid (NonLeafPage newNode);;
  unPinPage newPid true;;
  unPinPage pid true;;
  mret (midKey, newPid).

(** ** insertToNonLeafNode *)

(** [while (i < SIZE && pageNoArray[i+1] != 0 && keyArray[i] <= key) i++]. *)
Fixpoint nonLeafPlace_loop (n : nat) (node : NonLeafNodeInt) (key : Z) (i : nat) : nat :=
  match n with
  | 0 => i
  | S n' =>
      if (i <? INTARRAYNONLEAFSIZE)
         && negb (getPid (pageNoArray node) (i + 1) =? 0)
         && (getKey (keyArray node) i <=? key)%Z
      then nonLeafPlace_loop n' node key (S i)
      else i
  end.

(** Returns [split], [midKey] and [newPid]. *)
Definition insertToNonLeafNode (key : Z) (sonPid pid : PageId)
    (midKey : Z) (newPid : PageId) : Op BufMgr (bool * Z * PageId) :=
  readPage pid;;
  node ← loadNonLeaf pid;
  if negb (getPid (pageNoArray node) INTARRAYNONLEAFSIZE =? 0)
  then
    unPinPage pid true;;
    '(midKey, newPid) ← splitNonLeafNode key sonPid pid;
    mret (true, midKey, newPid)
  else
    let i := nonLeafPlace_loop (S INTARRAYNONLEAFSIZE) node key 0 in
    let ks := moveBackwardKeys (INTARRAYNONLEAFSIZE - 1 - i) i (keyArray node) in
    let ps := moveBackwardPids (INTARRAYNONLEAFSIZE - 1 - i) (i + 1) (pageNoArray node) in
    store pid (NonLeafPage (mkNonLeaf (level node) (<[i := key]> ks) (<[i + 1 := sonPid]> ps)));;
    unPinPage pid true;;
    mret (false, midKey, newPid).

(** ** insertNode

    The recursion follows child pointers read from pages, so the model takes
    a budget [fuel] for its depth. *)
Fixpoint insertNode (fuel : nat) (key : Z) (rid : RecordId) (midKey : Z) (pid : PageId)
    (newSonPageId : PageId) : Op BufMgr (bool * Z * PageId) :=
  match fuel with
  | 0 => outOfFuel
  | S fuel' =>
      readPage pid;;
      lvl ← loadLevel pid;
      if (lvl =? -1)%Z
      then
        unPinPage pid false;;
        insertToLeaf key rid pid midKey newSonPageId
      else
        nonLeaf ← loadNonLeaf pid;
        let idx := findNonLeafIndex nonLeaf key in
        let sonPid := getPid (pageNoArray nonLeaf) idx in
        unPinPage pid true;;
        '(split, midKey, newSonPageId) ← insertNode fuel' key rid midKey sonPid newSonPageId;
        if (split : bool)
        then
          let sonMidKey := midKey in
          let sonPageId := newSonPageId in
          insertToNonLeafNode sonMidKey sonPageId pid midKey newSonPageId
        else mret (false, midKey, newSonPageId)
  end.

(** ** The index object

    [file] and [bufMgr] are pointers: [None] is [nullptr].  [bufMgr] carries
    the state of the buffer manager it points to.  [currentPageData] points
    into the frame of a page and is modelled by that page's number.  The
    members [attributeType], [attrByteOffset], [leafOccupancy] and
    [nodeOccupancy] are never read or written by btree.cpp and are left
    out. *)
Record BTreeIndex := mkIndex {
  file : option string;
  bufMgr : option BufMgr;
  headerPageNum : PageId;
  rootPageNum : PageId;
  scanExecuting : bool;
  nextEntry : Z;
  currentPageNum : PageId;
  currentPageData : option PageId;
  lowValInt : Z;
  highValInt : Z;
  lowOp : Operator;
  highOp : Operator
}.

Definition setBufMgr (b : option BufMgr) (s : BTreeIndex) : BTreeIndex :=
  mkIndex (file s) b (headerPageNum s) (rootPageNum s) (scanExecuting s) (nextEntry s)
    (currentPageNum s) (currentPageData s) (lowValInt s) (highValInt s) (lowOp s) (highOp s).

Definition setRootPageNum (r : PageId) (s : BTreeIndex) : BTreeIndex :=
  mkIndex (file s) (bufMgr s) (headerPageNum s) r (scanExecuting s) (nextEntry s)
    (currentPageNum s) (currentPageData s) (lowValInt s) (highValInt s) (lowOp s) (highOp s).

Definition setScanExecuting (e : bool) (s : BTreeIndex) : BTreeIndex :=
  mkIndex (file s) (bufMgr s) (headerPageNum s) (rootPageNum s) e (nextEntry s)
    (currentPageNum s) (currentPageData s) (lowValInt s) (highValInt s) (lowOp s) (highOp s).

Definition setNextEntry (n : Z) (s : BTreeIndex) : BTreeIndex :=
  mkIndex (file s) (bufMgr s) (headerPageNum s) (rootPageNum s) (scanExecuting s) n
    (currentPageNum s) (currentPageData s) (lowValInt s) (highValInt s) (lowOp s) (highOp s).

Definition setCurrentPageNum (p : PageId) (s : BTreeIndex) : BTreeIndex :=
  mkIndex (file s) (bufMgr s) (headerPageNum s) (rootPageNum s) (scanExecuting s)
    (nextEntry s) p (currentPageData s) (lowValInt s) (highValInt s) (lowOp s) (highOp s).

Definition setCurrentPageData (d : option PageId) (s : BTreeIndex) : BTreeIndex :=
  mkIndex (file s) (bufMgr s) (headerPageNum s) (rootPageNum s) (scanExecuting s)
    (nextEntry s) (currentPageNum s) d (lowValInt s) (highValInt s) (lowOp s) (highOp s).

Definition setScanRange (lo : Z) (lop : Operator) (hi : Z) (hop : Operator)
    (s : BTreeIndex) : BTreeIndex :=
  mkIndex (file s) (bufMgr s) (headerPageNum s) (rootPageNum s) (scanExecuting s)
    (nextEntry s) (currentPageNum s) (currentPageData s) lo hi lop hop.

(** [bufMgr->...]: run a buffer-manager computation through the pointer. *)
Definition withBuf {A} (m : Op BufMgr A) : Op BTreeIndex A := fun s =>
  match bufMgr s with
  | None => (Undefined, s)
  | Some b => let '(o, b') := m b in (o, setBufMgr (Some b') s)
  end.

(** ** insertEntry *)

Definition updateRootPageNo : Op BTreeIndex unit :=
  s ← get;
  withBuf (
    readPage (headerPageNum s);;
    p ← load (headerPageNum s);
    match p with
    | MetaPage header =>
        store (headerPageNum s)
          (MetaPage (mkMeta (relationName header) (attrByteOffset header) (attrType header)
                            (rootPageNum s)));;
        unPinPage (headerPageNum s) true
    | _ => undefined
    end).

(** The block run when the root was split: a new root over the old root
    [pid] and the new node [newPid]. *)
Definition growRoot (newLevel : Z) (midKey : Z) (pid newPid : PageId) : Op BTreeIndex unit :=
  newRootPid ← withBuf allocNonLeaf;
  modify (setRootPageNum newRootPid);;
  withBuf (
    newRoot ← loadNonLeaf newRootPid;
    store newRootPid
      (NonLeafPage (mkNonLeaf newLevel (<[0 := midKey]> (keyArray newRoot))
                              (<[1 := newPid]> (<[0 := pid]> (pageNoArray newRoot)))));;
    unPinPage newRootPid true);;
  updateRootPageNo.

(** [midKey] and [newPid] are uninitialised locals in the source; they are
    only read after a split has assigned them, the model starts them at 0. *)
Definition insertEntry (fuel : nat) (key : Z) (rid : RecordId) : Op BTreeIndex unit :=
  s ← get;
  let pid := rootPageNum s in
  withBuf (readPage pid);;
  lvl ← withBuf (loadLevel pid);
  if (lvl =? -1)%Z
  then
    withBuf (unPinPage pid true);;
    '(split, midKey, newPid) ← withBuf (insertToLeaf key rid pid 0%Z 0);
    if (split : bool) then growRoot 1 midKey pid newPid else mret tt
  else
    withBuf (unPinPage pid true);;
    '(split, midKey, newPid) ← withBuf (insertNode fuel key rid 0%Z (rootPageNum s) 0);
    if (split : bool) then growRoot 0 midKey pid newPid else mret tt.

(** ** Scan *)

Definition isLeaf (p : Page) : option bool :=
  match pageLevel p with
  | Some l => Some (l =? -1)%Z
  | None => None
  end.

(** [readPage(file, currentPageNum, currentPageData)]. *)
Definition readCurrentPage : Op BTreeIndex unit :=
  s ← get;
  withBuf (readPage (currentPageNum s));;
  modify (setCurrentPageData (Some (currentPageNum s))).

(** [*currentPageData]. *)
Definition currentPage : Op BTreeIndex Page :=
  s ← get;
  match currentPageData s with
  | None => undefined
  | Some pid => withBuf (load pid)
  end.

Fixpoint recursiveScanPageId (fuel : nat) : Op BTreeIndex unit :=
  match fuel with
  | 0 => outOfFuel
  | S fuel' =>
      readCurrentPage;;
      p ← currentPage;
      s ← get;
      match isLeaf p with
      | None => undefined
      | Some true => withBuf (unPinPage (currentPageNum s) false)
      | Some false =>
          match p with
          | NonLeafPage internal =>
              let idx := findNonLeafIndex internal (lowValInt s) in
              let nextPage := getPid (pageNoArray internal) idx in
              withBuf (unPinPage (currentPageNum s) false);;
              modify (setCurrentPageNum nextPage);;
              recursiveScanPageId fuel'
          | _ => undefined
          end
      end
  end.

Definition endScan : Op BTreeIndex unit :=
  s ← get;
  if negb (scanExecuting s) then throw ScanNotInitializedException
  else
    modify (setScanExecuting false);;
    modify (setNextEntry (-1));;
    modify (setCurrentPageData None);;
    modify (setCurrentPageNum 0).

(** How the [for] loop of [startScan] over the slots of the leaf ends. *)
Inductive ScanStart :=
| Found (i : nat)
| NotFound
| PastHigh.

(** [n] rounds are left, [i = SIZE - n]. *)
Fixpoint startScan_loop (n : nat) (leaf : LeafNodeInt) (lo : Z) (lop : Operator)
    (hi : Z) (hop : Operator) (i : nat) : ScanStart :=
  match n with
  | 0 => NotFound
  | S n' =>
      let key := getKey (leafKeyArray leaf) i in
      if page_number (getRid (ridArray leaf) i) =? 0 then NotFound
      else if bool_decide (lop = GT) && (lo <? key)%Z then Found i
      else if bool_decide (lop = GTE) && (lo <=? key)%Z then Found i
      else if bool_decide (hop = LT) && (hi <? key)%Z then PastHigh
      else if bool_decide (hop = LTE) && (hi <=? key)%Z then PastHigh
      else startScan_loop n' leaf lo lop hi hop (S i)
  end.

Definition startScan (fuel : nat) (lowValParm : Z) (lowOpParm : Operator)
    (highValParm : Z) (highOpParm : Operator) : Op BTreeIndex unit :=
  modify (setScanRange lowValParm lowOpParm highValParm highOpParm);;
  s ← get;
  if bool_decide (lowOp s ≠ GT) && bool_decide (lowOp s ≠ GTE)
  then throw BadOpcodesException
  else if bool_decide (highOp s ≠ LT) && bool_decide (highOp s ≠ LTE)
  then throw BadOpcodesException
  else if (highValInt s <? lowValInt s)%Z
  then throw BadScanrangeException
  else
    (if scanExecuting s then endScan else mret tt);;
    modify (setCurrentPageNum (rootPageNum s));;
    recursiveScanPageId fuel;;
    readCurrentPage;;
    p ← currentPage;
    s ← get;
    match p with
    | LeafPage leaf =>
        match startScan_loop INTARRAYLEAFSIZE leaf (lowValInt s) (lowOp s)
                (highValInt s) (highOp s) 0 with
        | Found i =>
            modify (setNextEntry (Z.of_nat i));;
            modify (setScanExecuting true)
        | PastHigh =>
            withBuf (unPinPage (currentPageNum s) false);;
            throw NoSuchKeyFoundException
        | NotFound =>
            if rightSibPageNo leaf =? 0
            then
              withBuf (unPinPage (currentPageNum s) false);;
              throw NoSuchKeyFoundException
            else
              let nextPage := rightSibPageNo leaf in
              withBuf (unPinPage (currentPageNum s) false);;
              modify (setCurrentPageNum nextPage);;
              readCurrentPage;;
              modify (setNextEntry 0);;
              modify (setScanExecuting true)
        end
    | _ => undefined
    end.

(** [a[z]] for a C [int] index. *)
Definition getKeyZ (a : list Z) (z : Z) : Z :=
  if (z <? 0)%Z then 0%Z else getKey a (Z.to_nat z).
Definition getRidZ (a : list RecordId) (z : Z) : RecordId :=
  if (z <? 0)%Z then zeroRid else getRid a (Z.to_nat z).

(** Run an index computation next to the caller's variable that is bound to
    the reference parameter [outRid]. *)
Definition onIndex {A} (m : Op BTreeIndex A) : Op (RecordId * BTreeIndex) A :=
  fun st => let '(o, s') := m (snd st) in (o, (fst st, s')).

Definition setOutRid (r : RecordId) : Op (RecordId * BTreeIndex) unit :=
  fun st => (Ret tt, (r, snd st)).

(** The state is the pair of the caller's [outRid] and the index. *)
Definition scanNext : Op (RecordId * BTreeIndex) unit :=
  s ← onIndex get;
  if negb (scanExecuting s) then throw ScanNotInitializedException
  else
    p ← onIndex currentPage;
    match p with
    | LeafPage currentNode =>
        setOutRid (getRidZ (ridArray currentNode) (nextEntry s));;
        let val := getKeyZ (leafKeyArray currentNode) (nextEntry s) in
        if (highValInt s <? val)%Z || ((val =? highValInt s)%Z && bool_decide (highOp s = LT))
        then
          onIndex (withBuf (unPinPage (currentPageNum s) false));;
          throw IndexScanCompletedException
        else
          let next := (nextEntry s + 1)%Z in
          onIndex (modify (setNextEntry next));;
          if (next =? Z.of_nat INTARRAYLEAFSIZE)%Z
             || (page_number (getRidZ (ridArray currentNode) next) =? 0)
          then
            if rightSibPageNo currentNode =? 0
            then
              onIndex (withBuf (unPinPage (currentPageNum s) false));;
              throw IndexScanCompletedException
            else
              let nextPageNum := rightSibPageNo currentNode in
              onIndex (withBuf (unPinPage (currentPageNum s) false));;
              onIndex (modify (setCurrentPageNum nextPageNum));;
              onIndex readCurrentPage;;
              onIndex (modify (setNextEntry 0))
          else mret tt
    | _ => undefined
    end.

(** A client of the scan interface: a list of calls, each run whether the
    one before returned or threw. *)
Inductive ScanCall :=
| CallStartScan (lowVal : Z) (lowOpParm : Operator) (highVal : Z) (highOpParm : Operator)
| CallScanNext
| CallEndScan.

Definition runScanCall (fuel : nat) (c : ScanCall) : Op (RecordId * BTreeIndex) unit :=
  match c with
  | CallStartScan lo lop hi hop => onIndex (startScan fuel lo lop hi hop)
  | CallScanNext => scanNext
  | CallEndScan => onIndex endScan
  end.

Fixpoint runScanCalls (fuel : nat) (cs : list ScanCall) (st : RecordId * BTreeIndex)
  : RecordId * BTreeIndex :=
  match cs with
  | [] => st
  | c :: cs' => runScanCalls fuel cs' (snd (runScanCall fuel c st))
  end.

(** ** Constructor and destructor *)

(** [flushFile] of the buffer manager: the index code only calls it; what it
    does, and when it refuses, is the buffer manager's business. *)
Variable flushFile : Op BufMgr unit.

(** The members before the constructor body runs (indeterminate in C++,
    zero here). *)
Definition rawIndex : BTreeIndex :=
  mkIndex None None 0 0 false 0 0 None 0 0 LT LT.

(** [new BlobFile(name, false)]: open an existing file of [disk]. *)
Definition openBlobFile (disk : gmap string (list Page)) (name : string) : Op BTreeIndex unit :=
  fun s =>
    match disk !! name with
    | Some pgs =>
        (Ret tt, mkIndex (Some name) (Some (mkBuf pgs [] [])) (headerPageNum s) (rootPageNum s)
                   (scanExecuting s) (nextEntry s) (currentPageNum s) (currentPageData s)
                   (lowValInt s) (highValInt s) (lowOp s) (highOp s))
    | None => (Throw FileNotFoundException, s)
    end.

(** [new BlobFile(name, true)]: a new file without pages. *)
Definition createBlobFile (name : string) : Op BTreeIndex unit :=
  fun s =>
    (Ret tt, mkIndex (Some name) (Some (mkBuf [] [] [])) (headerPageNum s) (rootPageNum s)
               (scanExecuting s) (nextEntry s) (currentPageNum s) (currentPageData s)
               (lowValInt s) (highValInt s) (lowOp s) (highOp s)).

Definition setHeaderPageNum (h : PageId) (s : BTreeIndex) : BTreeIndex :=
  mkIndex (file s) (bufMgr s) h (rootPageNum s) (scanExecuting s) (nextEntry s)
    (currentPageNum s) (currentPageData s) (lowValInt s) (highValInt s) (lowOp s) (highOp s).

(** [file->getFirstPageNo()]. *)
Definition getFirstPageNo (b : BufMgr) : PageId :=
  match pages b with
  | [] => 0
  | _ :: _ => 1
  end.

(** [strncpy(meta->relationName, name, 20); meta->relationName[19] = 0]. *)
Definition copyRelationName (name : string) : string := String.substring 0 19 name.

(** The [while (1)] loop over the relation: [fileScan] lists, in scan order,
    the record ids and the [int] found at [attrByteOffset] in each record;
    after the last one [FileScan::scanNext] throws [EndOfFileException] and
    the handler flushes the file. *)
Fixpoint bulkLoad (fuel : nat) (fileScan : list (RecordId * Z)) : Op BTreeIndex unit :=
  match fileScan with
  | [] => withBuf flushFile
  | (outRid, key) :: rest => insertEntry fuel key outRid;; bulkLoad fuel rest
  end.

Definition indexName (relName : string) (offset : Z) : string :=
  relName +:+ "." +:+ pretty offset.

Definition constructorBody (disk : gmap string (list Page)) (relName : string)
    (offset : Z) (ty : Datatype) (fileScan : list (RecordId * Z)) (fuel : nat)
  : Op BTreeIndex unit :=
  let outIndexName := indexName relName offset in
  modify (setScanExecuting false);;
  tryCatch
    (openBlobFile disk outIndexName;;
     s ← get;
     let hdr := match bufMgr s with Some b => getFirstPageNo b | None => 0 end in
     modify (setHeaderPageNum hdr);;
     withBuf (readPage hdr);;
     p ← withBuf (load hdr);
     match p with
     | MetaPage meta =>
         withBuf (store hdr (MetaPage (mkMeta (copyRelationName relName) offset ty
                                              (rootPageNo meta))));;
         modify (setRootPageNum (rootPageNo meta));;
         withBuf (unPinPage hdr false)
     | _ => undefined
     end)
    FileNotFoundException
    (createBlobFile outIndexName;;
     hdr ← withBuf allocPage;
     modify (setHeaderPageNum hdr);;
     root ← withBuf allocLeaf;
     modify (setRootPageNum root);;
     withBuf (store hdr (MetaPage (mkMeta (copyRelationName relName) offset ty root)));;
     withBuf (unPinPage hdr true);;
     withBuf (unPinPage root true);;
     bulkLoad fuel fileScan).

(** [BTreeIndex::BTreeIndex]: the index name handed back, how the body ended
    and the object. *)
Definition constructor (disk : gmap string (list Page)) (relName : string)
    (offset : Z) (ty : Datatype) (fileScan : list (RecordId * Z)) (fuel : nat)
  : string * (Outcome unit * BTreeIndex) :=
  (indexName relName offset, constructorBody disk relName offset ty fileScan fuel rawIndex).

(** [BTreeIndex::~BTreeIndex]. *)
Definition destructor : Op BTreeIndex unit :=
  modify (setScanExecuting false);;
  withBuf flushFile;;
  modify (fun s => mkIndex None None 0 0 (scanExecuting s) (-1) 0 None
                      (lowValInt s) (highValInt s) (lowOp s) (highOp s)).

End Index.

(** What is stored: the content of every page of the file and the set of
    pages marked dirty. *)
Definition storedTree (s : BTreeIndex) : option (list Page * list PageId) :=
  match bufMgr s with
  | Some b => Some (pages b, dirty b)
  | None => None
  end.

(** The same for the buffer manager alone. *)
Definition bufContent (b : BufMgr) : list Page * list PageId := (pages b, dirty b).

(** [m] leaves the observation [obs] of the state as it was, however it
    ends. *)
Definition preserves {St X A} (obs : St -> X) (m : Op St A) : Prop :=
  forall s o s', m s = (o, s') -> obs s' = obs s.

(** A buffer manager that refuses to flush a file while one of its pages is
    pinned, and otherwise writes the dirty pages back. *)
Definition flushFilePinned : Op BufMgr unit := fun b =>
  match pinned b with
  | [] => (Ret tt, mkBuf (pages b) [] [])
  | _ :: _ => (Throw PagePinnedException, b)
  end.

(** [m] started in [s] returns [a] and leaves [s']. *)
Definition returns {St A} (m : Op St A) (s : St) (a : A) (s' : St) : Prop :=
  m s = (Ret a, s').

(** ** Small instances

    A layout with two slots per leaf and two keys per internal node, one
    with four of each, and the one of the real page size; [builtIndex] is
    the index the constructor builds for a relation that holds the given
    keys, the record of key [k] having record id [(k, k)]. *)
Definition smallLayout : Layout :=
  {| INTARRAYLEAFSIZE := 2; INTARRAYNONLEAFSIZE := 2 |}.

Definition fourLayout : Layout :=
  {| INTARRAYLEAFSIZE := 4; INTARRAYNONLEAFSIZE := 4 |}.

(** The sizes that the formulas of btree.h give for a page of 8192 bytes,
    4-byte [int] and [PageId] and an 8-byte [RecordId]. *)
Definition realLayout : Layout :=
  {| INTARRAYLEAFSIZE := 682; INTARRAYNONLEAFSIZE := 1023 |}.

Definition ridOf (k : Z) : RecordId := mkRid (Z.to_nat k) (Z.to_nat k).

(** The keys 1, ..., n. *)
Definition keysTo (n : nat) : list Z := map Z.of_nat (seq 1 n).

Definition builtIndex (lay : Layout) (keys : list Z) : BTreeIndex :=
  snd (snd (@constructor lay flushFilePinned ∅ "rel" 0%Z INTEGER
              (map (fun k => (ridOf k, k)) keys) 8)).

(** The buffer manager state behind an index, a file without pages if the
    pointer is null. *)
Definition bufOf (s : BTreeIndex) : BufMgr :=
  default (mkBuf [] [] []) (bufMgr s).

(** A client that calls [scanNext] up to [n] times and collects what the
    calls that return left in [outRid]; it stops at the first call that does
    not return and reports how that call ended. *)
Fixpoint scanAll {lay : Layout} (n : nat) (st : RecordId * BTreeIndex)
  : list RecordId * Outcome unit :=
  match n with
  | 0 => ([], Ret tt)
  | S n' =>
      match @scanNext lay st with
      | (Ret _, st') => let '(l, o) := scanAll n' st' in (fst st' :: l, o)
      | (o, _) => ([], o)
      end
  end.

(** The entries of a leaf: the (key, record id) pairs of its slots up to the
    first slot whose record id has page number 0. *)
Fixpoint occupiedSlots (ks : list Z) (rs : list RecordId) : list (Z * RecordId) :=
  match ks, rs with
  | k :: ks', r :: rs' =>
      if page_number r =? 0 then [] else (k, r) :: occupiedSlots ks' rs'
  | _, _ => []
  end.

Definition occupied (n : LeafNodeInt) : list (Z * RecordId) :=
  occupiedSlots (leafKeyArray n) (ridArray n).

(** [lo lop k hop hi]: the key [k] satisfies both bounds of a scan. *)
Definition inRange (lo : Z) (lop : Operator) (hi : Z) (hop : Operator) (k : Z) : bool :=
  (if bool_decide (lop = GT) then (lo <? k)%Z else (lo <=? k)%Z)
  && (if bool_decide (hop = LT) then (k <? hi)%Z else (k <=? hi)%Z).

(** ** printNode

    The debug helper prints one line per entry; the model appends the three
    arguments of each [printf] (page, index, key) to the caller's standard
    output, which is the first component of the state. *)

Section Debug.
Context `{Layout}.

(** [for (i = 0; i < SIZE; i++)] over a leaf: [n] rounds are left. *)
Fixpoint printLeaf_loop (n : nat) (pid : PageId) (leaf : LeafNodeInt) (i : nat)
  : list (PageId * nat * Z) :=
  match n with
  | 0 => []
  | S n' =>
      if negb (page_number (getRid (ridArray leaf) i) =? 0)
      then (pid, i, getKey (leafKeyArray leaf) i) :: printLeaf_loop n' pid leaf (S i)
      else []
  end.

(** The same loop over an internal node. *)
Fixpoint printNonLeaf_loop (n : nat) (pid : PageId) (nonLeaf : NonLeafNodeInt) (i : nat)
  : list (PageId * nat * Z) :=
  match n with
  | 0 => []
  | S n' =>
      if negb (getPid (pageNoArray nonLeaf) (i + 1) =? 0)
      then (pid, i, getKey (keyArray nonLeaf) i) :: printNonLeaf_loop n' pid nonLeaf (S i)
      else []
  end.

Definition onIndexOut {A} (m : Op BTreeIndex A)
  : Op (list (PageId * nat * Z) * BTreeIndex) A :=
  fun st => let '(o, s') := m (snd st) in (o, (fst st, s')).

Definition printLines (l : list (PageId * nat * Z))
  : Op (list (PageId * nat * Z) * BTreeIndex) unit :=
  fun st => (Ret tt, (fst st ++ l, snd st)).

Definition printNode (pid : PageId) : Op (list (PageId * nat * Z) * BTreeIndex) unit :=
  onIndexOut (withBuf (readPage pid));;
  page ← onIndexOut (withBuf (load pid));
  match isLeaf page with
  | None => undefined
  | Some true =>
      match page with
      | LeafPage leaf =>
          printLines (printLeaf_loop INTARRAYLEAFSIZE pid leaf 0);;
          onIndexOut (withBuf (unPinPage pid false))
      | _ => undefined
      end
  | Some false =>
      match page with
      | NonLeafPage nonLeaf =>
          printLines (printNonLeaf_loop INTARRAYNONLEAFSIZE pid nonLeaf 0);;
          onIndexOut (withBuf (unPinPage pid false))
      | _ => undefined
      end
  end.

End Debug.

(** ** Vocabulary of the further properties *)

(** A triple for the monad: from a state that satisfies [P], a call that
    returns [a] leaves a state in [Q a], and one that throws [e] leaves a
    state in [E e].  Nothing is said about the two ways in which the model
    itself gives up. *)
Definition hoare {St A} (P : St -> Prop) (m : Op St A)
    (Q : A -> St -> Prop) (E : Exception -> St -> Prop) : Prop :=
  forall s o s', P s -> m s = (o, s') ->
    match o with
    | Ret a => Q a s'
    | Throw e => E e s'
    | Undefined | OutOfFuel => True
    end.

(** Sorted placement of an entry: before the first entry with a larger key,
    after the entries with an equal key. *)
Fixpoint placeEntry {V} (key : Z) (v : V) (l : list (Z * V)) : list (Z * V) :=
  match l with
  | [] => [(key, v)]
  | (k, x) :: t => if (key <? k)%Z then (key, v) :: l else (k, x) :: placeEntry key v t
  end.

(** The same on two parallel arrays. *)
Fixpoint mergeEntry {V} (key : Z) (v : V) (ks : list Z) (vs : list V) : list Z * list V :=
  match ks, vs with
  | k :: ks', x :: vs' =>
      if (key <? k)%Z then (key :: ks, v :: vs)
      else let '(a, b) := mergeEntry key v ks' vs' in (k :: a, x :: b)
  | _, _ => ([key], [v])
  end.

(** The entries of an internal node: the (key, right child) pairs up to the
    first child slot that holds 0. *)
Fixpoint occupiedChildren (ks : list Z) (ps : list PageId) : list (Z * PageId) :=
  match ks, ps with
  | k :: ks', p :: ps' => if p =? 0 then [] else (k, p) :: occupiedChildren ks' ps'
  | _, _ => []
  end.

Definition children (n : NonLeafNodeInt) : list (Z * PageId) :=
  occupiedChildren (keyArray n) (tail (pageNoArray n)).

(** The members of the index object that belong to the scan, with the file
    handle and the header page number. *)
Definition scanMembers (s : BTreeIndex)
  : option string * PageId * bool * Z * PageId * option PageId * Z * Z * Operator * Operator :=
  (file s, headerPageNum s, scanExecuting s, nextEntry s, currentPageNum s,
   currentPageData s, lowValInt s, highValInt s, lowOp s, highOp s).

(** The occupied prefix of two parallel arrays, for any test of emptiness;
    [occupiedSlots] and [occupiedChildren] are its two instances. *)
Fixpoint occupiedBy {V} (isEmpty : V -> bool) (ks : list Z) (vs : list V) : list (Z * V) :=
  match ks, vs with
  | k :: ks', x :: vs' => if isEmpty x then [] else (k, x) :: occupiedBy isEmpty ks' vs'
  | _, _ => []
  end.

(** [a[i].page_number = 0] on a record id. *)
Definition clearedRid (r : RecordId) : RecordId := mkRid 0 (slot_number r).



(** * Properties *)

(** ** The seed scenarios of the specification

    On the real layout the model behaves as the specification's scenarios 1,
    2 and 5 say: an empty index has no key to scan; after inserting 1..10 the
    scan [3 <= k <= 7] yields the records of 3, 4, 5, 6, 7 and then
    [IndexScanCompletedException]; after inserting 1..20 the two boundary
    scans yield 6..9 and 5..10. *)
Lemma seed_scenarios :
  fst (@startScan realLayout 8 0 GTE 100 LTE (builtIndex realLayout []))
  = Throw NoSuchKeyFoundException
  /\ @scanAll realLayout 10
       (zeroRid, snd (@startScan realLayout 8 3 GTE 7 LTE (builtIndex realLayout (keysTo 10))))
     = (map ridOf [3; 4; 5; 6; 7]%Z, Throw IndexScanCompletedException)
  /\ @scanAll realLayout 10
       (zeroRid, snd (@startScan realLayout 8 5 GT 10 LT (builtIndex realLayout (keysTo 20))))
     = (map ridOf [6; 7; 8; 9]%Z, Throw IndexScanCompletedException)
  /\ @scanAll realLayout 10
       (zeroRid, snd (@startScan realLayout 8 5 GTE 10 LTE (builtIndex realLayout (keysTo 20))))
     = (map ridOf [5; 6; 7; 8; 9; 10]%Z, Throw IndexScanCompletedException).
Proof. vm_compute. repeat split. Qed.

(** ** The loop budgets are enough

    Each bounded loop of the model takes a number of rounds; the results do
    not change when more rounds are allowed than the bound the definitions
    use, so no loop of the source is cut short. *)

Section Budgets.
Context `{Layout}.

Lemma findNonLeafIndex_loop_budget (node : NonLeafNodeInt) (key : Z) (n n' idx : nat) :
  INTARRAYNONLEAFSIZE - idx < n -> INTARRAYNONLEAFSIZE - idx < n' ->
  findNonLeafIndex_loop n node key idx = findNonLeafIndex_loop n' node key idx.
Proof.
  revert n' idx. induction n as [|n IH]; intros [|n'] idx Hn Hn'; try lia.
  simpl. destruct (idx <? INTARRAYNONLEAFSIZE) eqn:E.
  - apply Nat.ltb_lt in E. rewrite (IH n' (S idx)) by lia. reflexivity.
  - rewrite andb_false_r. reflexivity.
Qed.

Lemma leafFull_loop_budget (node : LeafNodeInt) (n n' next : nat) :
  INTARRAYLEAFSIZE - next < n -> INTARRAYLEAFSIZE - next < n' ->
  leafFull_loop n node next = leafFull_loop n' node next.
Proof.
  revert n' next. induction n as [|n IH]; intros [|n'] next Hn Hn'; try lia.
  simpl. destruct (next <? INTARRAYLEAFSIZE) eqn:E.
  - apply Nat.ltb_lt in E. rewrite (IH n' (S next)) by lia. reflexivity.
  - rewrite andb_false_r. reflexivity.
Qed.

Lemma nonLeafPlace_loop_budget (node : NonLeafNodeInt) (key : Z) (n n' i : nat) :
  INTARRAYNONLEAFSIZE - i < n -> INTARRAYNONLEAFSIZE - i < n' ->
  nonLeafPlace_loop n node key i = nonLeafPlace_loop n' node key i.
Proof.
  revert n' i. induction n as [|n IH]; intros [|n'] i Hn Hn'; try lia.
  simpl. destruct (i <? INTARRAYNONLEAFSIZE) eqn:E.
  - apply Nat.ltb_lt in E. rewrite (IH n' (S i)) by lia. reflexivity.
  - reflexivity.
Qed.

Lemma leafTemp_loop_budget (node : LeafNodeInt) (key : Z) (rid : RecordId)
    (n n' i j : nat) (tempKey : list Z) (tempRid : list RecordId) :
  j <= INTARRAYLEAFSIZE ->
  INTARRAYLEAFSIZE - j < n -> INTARRAYLEAFSIZE - j < n' ->
  leafTemp_loop n node key rid i j tempKey tempRid
  = leafTemp_loop n' node key rid i j tempKey tempRid.
Proof.
  revert n' i j tempKey tempRid.
  induction n as [|n IH]; intros [|n'] i j tk tr Hj Hn Hn'; try lia.
  simpl. destruct (i <=? INTARRAYLEAFSIZE); [|reflexivity]. simpl.
  destruct (j =? INTARRAYLEAFSIZE) eqn:E; [reflexivity|].
  apply Nat.eqb_neq in E. simpl.
  destruct (page_number (getRid (ridArray node) j) =? 0); [reflexivity|].
  destruct ((j =? i) && (key <? getKey (leafKeyArray node) i)%Z);
    apply IH; lia.
Qed.

Lemma nonLeafTemp_loop_budget (node : NonLeafNodeInt) (key : Z) (sonPid pid : PageId)
    (n n' i j : nat) (tempKey : list Z) (tempPid : list PageId) :
  j <= INTARRAYNONLEAFSIZE ->
  INTARRAYNONLEAFSIZE - j < n -> INTARRAYNONLEAFSIZE - j < n' ->
  nonLeafTemp_loop n node key sonPid pid i j tempKey tempPid
  = nonLeafTemp_loop n' node key sonPid pid i j tempKey tempPid.
Proof.
  revert n' i j tempKey tempPid.
  induction n as [|n IH]; intros [|n'] i j tk tp Hj Hn Hn'; try lia.
  simpl. destruct (i <=? INTARRAYNONLEAFSIZE); [|reflexivity]. simpl.
  destruct (j =? INTARRAYNONLEAFSIZE) eqn:E; [reflexivity|].
  apply Nat.eqb_neq in E. simpl.
  destruct (getPid (pageNoArray node) (j + 1) =? 0); [reflexivity|].
  destruct ((j =? i) && (key <? getKey (keyArray node) i)%Z);
    apply IH; lia.
Qed.

End Budgets.

(** ** Preservation through the monad *)

Section Preserves.
Context {St X : Type} (obs : St -> X).

Lemma preserves_ret {A} (a : A) : preserves obs (mret a : Op St A).
Proof. intros s o s' [= <- <-]. reflexivity. Qed.

Lemma preserves_throw {A} e : preserves obs (throw e : Op St A).
Proof. intros s o s' [= <- <-]. reflexivity. Qed.

Lemma preserves_undefined {A} : preserves obs (undefined : Op St A).
Proof. intros s o s' [= <- <-]. reflexivity. Qed.

Lemma preserves_outOfFuel {A} : preserves obs (outOfFuel : Op St A).
Proof. intros s o s' [= <- <-]. reflexivity. Qed.

Lemma preserves_get : preserves obs (get : Op St St).
Proof. intros s o s' [= <- <-]. reflexivity. Qed.

Lemma preserves_modify (f : St -> St) :
  (forall s, obs (f s) = obs s) -> preserves obs (modify f).
Proof. intros Hf s o s' [= <- <-]. apply Hf. Qed.

Lemma preserves_bind {A B} (m : Op St A) (f : A -> Op St B) :
  preserves obs m -> (forall a, preserves obs (f a)) -> preserves obs (m ≫= f).
Proof.
  intros Hm Hf s o s'. unfold mbind, Op_bind.
  destruct (m s) as [[a | e | |] s1] eqn:E; intros Hr.
  - apply Hf in Hr. rewrite Hr. exact (Hm _ _ _ E).
  - injection Hr as <- <-. exact (Hm _ _ _ E).
  - injection Hr as <- <-. exact (Hm _ _ _ E).
  - injection Hr as <- <-. exact (Hm _ _ _ E).
Qed.

End Preserves.

(** ** Scans leave the stored tree alone *)

Lemma readPage_content pid : preserves bufContent (readPage pid).
Proof.
  intros b o b'. unfold readPage.
  destruct (lookupPage b pid); intros [= <- <-]; reflexivity.
Qed.

Lemma unPinPage_clean_content pid : preserves bufContent (unPinPage pid false).
Proof.
  intros b o b'. unfold unPinPage.
  destruct (decide (pid ∈ pinned b)); intros [= <- <-]; reflexivity.
Qed.

Lemma load_content pid : preserves bufContent (load pid).
Proof.
  intros b o b'. unfold load.
  destruct (lookupPage b pid); intros [= <- <-]; reflexivity.
Qed.

Lemma withBuf_storedTree {A} (m : Op BufMgr A) :
  preserves bufContent m -> preserves storedTree (withBuf m).
Proof.
  intros Hm s o s'. unfold withBuf, storedTree.
  destruct (bufMgr s) as [b|] eqn:Eb.
  - destruct (m b) as [o1 b1] eqn:E. intros [= <- <-]. simpl.
    apply Hm in E. unfold bufContent in E. congruence.
  - intros [= <- <-]. rewrite Eb. reflexivity.
Qed.

Lemma onIndex_storedTree {A} (m : Op BTreeIndex A) :
  preserves storedTree m -> preserves (fun st => storedTree (snd st)) (onIndex m).
Proof.
  intros Hm [r s] o [r' s']. unfold onIndex. simpl.
  destruct (m s) as [o1 s1] eqn:E. intros [= <- <- <-]. exact (Hm _ _ _ E).
Qed.

Lemma setOutRid_storedTree r : preserves (fun st => storedTree (snd st)) (setOutRid r).
Proof. intros [r0 s] o st'. unfold setOutRid. intros [= <- <-]. reflexivity. Qed.

(** One step of a proof that a computation preserves an observation: split
    binds, close the leaves, branch on whatever the code branches on. *)
Ltac preserves_step :=
  first
    [ apply preserves_bind; [ | intros ? ]
    | apply preserves_ret
    | apply preserves_throw
    | apply preserves_undefined
    | apply preserves_outOfFuel
    | apply preserves_get
    | apply preserves_modify; intros ?; reflexivity
    | apply withBuf_storedTree
    | apply onIndex_storedTree
    | apply setOutRid_storedTree
    | apply readPage_content
    | apply unPinPage_clean_content
    | apply load_content
    | match goal with
      | |- preserves _ (match ?x with _ => _ end) => destruct x
      end ].

Section ScanFrame.
Context `{Layout}.

Lemma endScan_storedTree : preserves storedTree endScan.
Proof. unfold endScan. repeat preserves_step. Qed.

Lemma readCurrentPage_storedTree : preserves storedTree readCurrentPage.
Proof. unfold readCurrentPage. repeat preserves_step. Qed.

Lemma currentPage_storedTree : preserves storedTree currentPage.
Proof. unfold currentPage. repeat preserves_step. Qed.

Lemma recursiveScanPageId_storedTree fuel : preserves storedTree (recursiveScanPageId fuel).
Proof.
  induction fuel as [|fuel IH]; simpl.
  - apply preserves_outOfFuel.
  - repeat first [ apply readCurrentPage_storedTree | apply currentPage_storedTree
                 | exact IH | preserves_step ].
Qed.

Lemma startScan_storedTree fuel lo lop hi hop :
  preserves storedTree (startScan fuel lo lop hi hop).
Proof.
  unfold startScan.
  repeat first [ apply readCurrentPage_storedTree | apply currentPage_storedTree
               | apply endScan_storedTree | apply recursiveScanPageId_storedTree
               | preserves_step ].
Qed.

Lemma scanNext_storedTree : preserves (fun st => storedTree (snd st)) scanNext.
Proof.
  unfold scanNext.
  repeat first [ apply readCurrentPage_storedTree | apply currentPage_storedTree
               | preserves_step ].
Qed.

Lemma runScanCall_storedTree fuel c :
  preserves (fun st => storedTree (snd st)) (runScanCall fuel c).
Proof.
  destruct c; simpl.
  - apply onIndex_storedTree, startScan_storedTree.
  - apply scanNext_storedTree.
  - apply onIndex_storedTree, endScan_storedTree.
Qed.

(** C10. The scan functions never modify the index: [recursiveScanPageId],
    [startScan], [scanNext] and [endScan] leave the content of every page and
    the dirty marks as they were, whether they return, throw or stop
    otherwise, and so does every sequence of scan calls. *)
Theorem scans_never_modify_index :
  (forall fuel s, storedTree (snd (recursiveScanPageId fuel s)) = storedTree s)
  /\ (forall fuel lo lop hi hop s,
        storedTree (snd (startScan fuel lo lop hi hop s)) = storedTree s)
  /\ (forall outRid s, storedTree (snd (snd (scanNext (outRid, s)))) = storedTree s)
  /\ (forall s, storedTree (snd (endScan s)) = storedTree s)
  /\ (forall fuel cs st,
        storedTree (snd (runScanCalls fuel cs st)) = storedTree (snd st)).
Proof.
  repeat split.
  - intros fuel s. destruct (recursiveScanPageId fuel s) as [o s'] eqn:E.
    exact (recursiveScanPageId_storedTree fuel _ _ _ E).
  - intros fuel lo lop hi hop s. destruct (startScan fuel lo lop hi hop s) as [o s'] eqn:E.
    exact (startScan_storedTree _ _ _ _ _ _ _ _ E).
  - intros r s. destruct (scanNext (r, s)) as [o st'] eqn:E.
    exact (scanNext_storedTree _ _ _ E).
  - intros s. destruct (endScan s) as [o s'] eqn:E. exact (endScan_storedTree _ _ _ E).
  - intros fuel cs. induction cs as [|c cs IH]; intros st; simpl.
    + reflexivity.
    + rewrite IH. destruct (runScanCall fuel c st) as [o st'] eqn:E.
      exact (runScanCall_storedTree fuel c _ _ _ E).
Qed.

End ScanFrame.

(** ** Running a computation forward *)

Lemma returns_bind {St A B} (m : Op St A) (f : A -> Op St B) s a s1 b s2 :
  returns m s a s1 -> returns (f a) s1 b s2 -> returns (m ≫= f) s b s2.
Proof. unfold returns, mbind, Op_bind. intros -> E. exact E. Qed.

Lemma returns_ret {St A} (a : A) (s : St) : returns (mret a) s a s.
Proof. reflexivity. Qed.

Lemma bind_run {St A B} (m : Op St A) (f : A -> Op St B) s a s1 :
  m s = (Ret a, s1) -> (m ≫= f) s = f a s1.
Proof. intros E. unfold mbind, Op_bind. rewrite E. reflexivity. Qed.

Lemma returns_get {St} (s : St) : returns get s s s.
Proof. reflexivity. Qed.

Lemma returns_modify {St} (f : St -> St) (s : St) : returns (modify f) s tt (f s).
Proof. reflexivity. Qed.

Lemma returns_withBuf {A} (m : Op BufMgr A) s b a b' :
  bufMgr s = Some b -> returns m b a b' -> returns (withBuf m) s a (setBufMgr (Some b') s).
Proof. unfold returns, withBuf. intros -> ->. reflexivity. Qed.

Lemma returns_readPage b pid p :
  lookupPage b pid = Some p ->
  returns (readPage pid) b tt (mkBuf (pages b) (pid :: pinned b) (dirty b)).
Proof. unfold returns, readPage. intros ->. reflexivity. Qed.

Lemma returns_load b pid p : lookupPage b pid = Some p -> returns (load pid) b p b.
Proof. unfold returns, load. intros ->. reflexivity. Qed.

Lemma returns_store b i p :
  i < length (pages b) ->
  returns (store (S i) p) b tt (mkBuf (<[i := p]> (pages b)) (pinned b) (dirty b)).
Proof. unfold returns, store. intros Hi. rewrite decide_True by exact Hi. reflexivity. Qed.

Lemma returns_unPinPage b pid d :
  pid ∈ pinned b ->
  returns (unPinPage pid d) b tt
    (mkBuf (pages b) (removeOne pid (pinned b)) (if d then pid :: dirty b else dirty b)).
Proof. unfold returns, unPinPage. intros Hi. rewrite decide_True by exact Hi. reflexivity. Qed.


Section RootSplit.
Context `{Layout}.

Lemma returns_allocNonLeaf b :
  returns allocNonLeaf b (S (length (pages b)))
    (mkBuf (pages b ++ [NonLeafPage zeroNonLeaf]) (S (length (pages b)) :: pinned b) (dirty b)).
Proof.
  unfold returns, allocNonLeaf, allocPage, store, mbind, Op_bind. simpl.
  rewrite decide_True by (rewrite length_app; simpl; lia).
  simpl. f_equal. f_equal.
  rewrite insert_app_r_alt by lia. rewrite Nat.sub_diag. reflexivity.
Qed.

Lemma growRoot_run newLevel midKey pid newPid s b meta :
  bufMgr s = Some b ->
  lookupPage b (headerPageNum s) = Some (MetaPage meta) ->
  exists s' b',
    returns (growRoot newLevel midKey pid newPid) s tt s'
    /\ bufMgr s' = Some b'
    /\ rootPageNum s' = S (length (pages b))
    /\ headerPageNum s' = headerPageNum s
    /\ lookupPage b' (rootPageNum s') =
         Some (NonLeafPage (mkNonLeaf newLevel
                 (<[0 := midKey]> (keyArray zeroNonLeaf))
                 (<[1 := newPid]> (<[0 := pid]> (pageNoArray zeroNonLeaf)))))
    /\ lookupPage b' (headerPageNum s') =
         Some (MetaPage (mkMeta (relationName meta) (attrByteOffset meta) (attrType meta)
                                (rootPageNum s'))).
Proof.
  intros Eb Eh.
  destruct (headerPageNum s) as [|h] eqn:Ehp; [discriminate|].
  pose proof Eh as Eh'. simpl in Eh'.
  pose proof (lookup_lt_Some _ _ _ Eh') as Hlt.
  eexists _, _. split; [|split; [|split; [|split; [|split]]]].
  - unfold growRoot, updateRootPageNo.
    eapply returns_bind.
    { eapply returns_withBuf; [exact Eb | apply returns_allocNonLeaf]. }
    eapply returns_bind; [apply returns_modify|].
    eapply returns_bind.
    { eapply returns_withBuf; [reflexivity|].
      eapply returns_bind.
      { unfold loadNonLeaf. eapply returns_bind.
        - eapply returns_load. simpl. apply list_lookup_middle. reflexivity.
        - apply returns_ret. }
      eapply returns_bind.
      { apply returns_store. simpl. rewrite length_app. simpl. lia. }
      apply returns_unPinPage. simpl. left. }
    eapply returns_bind; [apply returns_get|].
    eapply returns_withBuf; [reflexivity|].
    simpl. rewrite Ehp.
    eapply returns_bind.
    { eapply returns_readPage. simpl.
      rewrite list_lookup_insert_ne by lia.
      rewrite lookup_app_l by lia. exact Eh'. }
    eapply returns_bind.
    { eapply returns_load. simpl.
      rewrite list_lookup_insert_ne by lia.
      rewrite lookup_app_l by lia. exact Eh'. }
    eapply returns_bind.
    { apply returns_store. simpl. rewrite length_insert, length_app. simpl. lia. }
    apply returns_unPinPage. simpl. left.
  - reflexivity.
  - reflexivity.
  - simpl. exact Ehp.
  - simpl. rewrite list_lookup_insert_ne by lia.
    apply list_lookup_insert_eq.
    rewrite length_app. simpl. lia.
  - simpl. rewrite Ehp.
    apply list_lookup_insert_eq.
    rewrite length_insert, length_app. simpl. lia.
Qed.


Lemma returns_loadLevel b pid p l :
  lookupPage b pid = Some p -> pageLevel p = Some l -> returns (loadLevel pid) b l b.
Proof.
  intros Ep El. unfold loadLevel. eapply returns_bind.
  - eapply returns_load. exact Ep.
  - rewrite El. apply returns_ret.
Qed.

(** C7, as amended. When [insertEntry] splits the root, the new root is a
    freshly allocated internal node whose level is 1 if the old root was a
    leaf and 0 otherwise, whose first key is the promoted key, whose first two
    children are the old root and the new sibling, and the metadata page
    records the new root's page number. *)
Theorem insertEntry_root_split fuel key rid s b oldRoot (leaf : bool) midKey newPid b2 meta :
  0 < INTARRAYNONLEAFSIZE ->
  bufMgr s = Some b ->
  lookupPage b (rootPageNum s) = Some oldRoot ->
  isLeaf oldRoot = Some leaf ->
  (if leaf
   then insertToLeaf key rid (rootPageNum s) 0%Z 0
   else insertNode fuel key rid 0%Z (rootPageNum s) 0)
    (mkBuf (pages b) (pinned b) (rootPageNum s :: dirty b))
  = (Ret (true, midKey, newPid), b2) ->
  lookupPage b2 (headerPageNum s) = Some (MetaPage meta) ->
  exists s' b' R' meta',
    insertEntry fuel key rid s = (Ret tt, s')
    /\ bufMgr s' = Some b'
    /\ rootPageNum s' = S (length (pages b2))
    /\ lookupPage b' (rootPageNum s') = Some (NonLeafPage R')
    /\ level R' = (if leaf then 1 else 0)%Z
    /\ keyArray R' !! 0 = Some midKey
    /\ pageNoArray R' !! 0 = Some (rootPageNum s)
    /\ pageNoArray R' !! 1 = Some newPid
    /\ lookupPage b' (headerPageNum s') = Some (MetaPage meta')
    /\ rootPageNo meta' = rootPageNum s'.
Proof.
  intros HM Eb Eroot Eleaf Edesc Ehdr.
  unfold isLeaf in Eleaf.
  destruct (pageLevel oldRoot) as [l|] eqn:El; [|discriminate].
  injection Eleaf as Eleaf.
  set (s2 := setBufMgr (Some b2) s).
  destruct (growRoot_run (if leaf then 1 else 0)%Z midKey (rootPageNum s) newPid s2 b2 meta
              eq_refl Ehdr) as (s' & b' & Hrun & Hb' & Hroot & Hhdr & Hnew & Hmeta).
  exists s', b'. eexists _, _.
  split; [|split; [exact Hb'|split; [exact Hroot|split; [exact Hnew|]]]].
  - change (returns (insertEntry fuel key rid) s tt s').
    unfold insertEntry.
    eapply returns_bind; [apply returns_get|].
    eapply returns_bind.
    { eapply returns_withBuf; [exact Eb|]. eapply returns_readPage. exact Eroot. }
    eapply returns_bind.
    { eapply returns_withBuf; [reflexivity|].
      eapply returns_loadLevel; [|exact El]. exact Eroot. }
    rewrite Eleaf. destruct leaf.
    + eapply returns_bind.
      { eapply returns_withBuf; [reflexivity|]. apply returns_unPinPage. simpl. left. }
      simpl. rewrite decide_True by reflexivity.
      eapply returns_bind.
      { eapply returns_withBuf; [reflexivity|]. exact Edesc. }
      exact Hrun.
    + eapply returns_bind.
      { eapply returns_withBuf; [reflexivity|]. apply returns_unPinPage. simpl. left. }
      simpl. rewrite decide_True by reflexivity.
      eapply returns_bind.
      { eapply returns_withBuf; [reflexivity|]. exact Edesc. }
      exact Hrun.
  - simpl. split; [reflexivity|].
    split. { apply list_lookup_insert_eq. rewrite length_replicate. exact HM. }
    split; [reflexivity|].
    split. { simpl. apply list_lookup_insert_eq. rewrite length_replicate. exact HM. }
    split. { rewrite Hhdr in Hmeta. rewrite Hhdr. exact Hmeta. }
    reflexivity.
Qed.
End RootSplit.

(** ** Root split on a small tree *)

(** Witness: with two keys per node, the tree built from 1, 2, 3, 4 has an
    internal root (page 4); inserting 5 splits it. *)
Lemma insertEntry_root_split_witness :
  let s := builtIndex smallLayout [1; 2; 3; 4]%Z in
  exists s' b' R' meta',
    @insertEntry smallLayout 8 5%Z (ridOf 5) s = (Ret tt, s')
    /\ bufMgr s' = Some b'
    /\ rootPageNum s' = 8
    /\ lookupPage b' (rootPageNum s') = Some (NonLeafPage R')
    /\ level R' = 0%Z
    /\ keyArray R' !! 0 = Some 3%Z
    /\ pageNoArray R' !! 0 = Some 4
    /\ pageNoArray R' !! 1 = Some 7
    /\ lookupPage b' (headerPageNum s') = Some (MetaPage meta')
    /\ rootPageNo meta' = rootPageNum s'.
Proof.
  intros s.
  pose (b := bufOf s).
  pose (b2 := snd (@insertNode smallLayout 8 5%Z (ridOf 5) 0%Z 4 0
                     (mkBuf (pages b) (pinned b) (4 :: dirty b)))).
  apply (@insertEntry_root_split smallLayout 8 5%Z (ridOf 5) s b
           (NonLeafPage (mkNonLeaf 1 [2; 3]%Z [2; 3; 5])) false 3%Z 7 b2
           (mkMeta "rel" 0 INTEGER 4)).
  - vm_compute. lia.
  - vm_compute. reflexivity.
  - vm_compute. reflexivity.
  - vm_compute. reflexivity.
  - vm_compute. reflexivity.
  - vm_compute. reflexivity.
Defined.

(** C7, counterexample. In the same tree the old root is an internal node of
    level 1; after the split the new root has level 0, not the old root's
    level. *)
Lemma root_level_counterexample :
  let s := builtIndex smallLayout [1; 2; 3; 4]%Z in
  let s' := snd (@insertEntry smallLayout 8 5%Z (ridOf 5) s) in
  exists oldRoot R',
    lookupPage (bufOf s) (rootPageNum s) = Some (NonLeafPage oldRoot)
    /\ rootPageNum s' <> rootPageNum s
    /\ lookupPage (bufOf s') (rootPageNum s') = Some (NonLeafPage R')
    /\ level oldRoot = 1%Z
    /\ level R' <> level oldRoot.
Proof.
  vm_compute. eexists _, _.
  split; [reflexivity|]. split; [discriminate|]. split; [reflexivity|].
  split; [reflexivity|]. discriminate.
Qed.

(** ** Scans on a two-key index *)

Lemma onIndex_outRid {A} (m : Op BTreeIndex A) :
  preserves (fst : RecordId * BTreeIndex -> RecordId) (onIndex m).
Proof.
  intros [r s] o [r' s']. unfold onIndex. simpl.
  destruct (m s) as [o1 s1]. intros [= <- <- <-]. reflexivity.
Qed.

Section ScanNextWrites.
Context `{Layout}.

(** On an active scan positioned on a leaf, [scanNext] always leaves in
    [outRid] the record id of slot [nextEntry], whatever its key and however
    the call ends. *)
Lemma scanNext_writes_outRid_first (outRid : RecordId) (s : BTreeIndex) (b : BufMgr)
    (pid : PageId) (leaf : LeafNodeInt) :
  scanExecuting s = true ->
  currentPageData s = Some pid ->
  bufMgr s = Some b ->
  lookupPage b pid = Some (LeafPage leaf) ->
  fst (snd (scanNext (outRid, s))) = getRidZ (ridArray leaf) (nextEntry s).
Proof.
  intros Hs Hd Hb Hp. unfold scanNext.
  erewrite bind_run by reflexivity. cbn [snd]. rewrite Hs. cbn [negb].
  erewrite bind_run; cycle 1.
  { unfold onIndex, currentPage. cbn [snd fst].
    erewrite bind_run by reflexivity. rewrite Hd.
    unfold withBuf, load. rewrite Hb, Hp. reflexivity. }
  cbv beta iota. erewrite bind_run by reflexivity.
  match goal with |- fst (snd (?rest ?st)) = _ =>
    assert (Hrest : preserves (fst : RecordId * BTreeIndex -> RecordId) rest);
    [|destruct (rest st) as [o st'] eqn:E; apply Hrest in E; exact E]
  end.
  repeat first
    [ apply preserves_bind; [ | intros ? ]
    | apply preserves_ret
    | apply preserves_throw
    | apply onIndex_outRid
    | match goal with
      | |- preserves _ (if ?c then _ else _) => destruct c
      end ].
Qed.

End ScanNextWrites.

(** C1. Real page layout.  The index holds keys 1 and 10 in one leaf and the
    scan asks for [1 <= k <= 5].  The first [scanNext] returns the record of
    key 1.  The second writes the record id of key 10, which is above the
    upper bound, into [outRid] before it throws
    [IndexScanCompletedException].  With keys 1 and 2 and the range
    [1 <= k <= 2], the call that delivers the last record in range (key 2)
    throws too, so the records obtained from calls that return are not all
    the records in range. *)
Theorem scanNext_out_of_range_rid :
  let s1 := snd (@startScan realLayout 8 1 GTE 5 LTE (builtIndex realLayout [1; 10]%Z)) in
  let r2 := @scanNext realLayout (zeroRid, s1) in
  let r3 := @scanNext realLayout (snd r2) in
  let t1 := snd (@startScan realLayout 8 1 GTE 2 LTE (builtIndex realLayout [1; 2]%Z)) in
  let u2 := @scanNext realLayout (zeroRid, t1) in
  let u3 := @scanNext realLayout (snd u2) in
  (fst r2 = Ret tt /\ fst (snd r2) = ridOf 1
   /\ fst r3 = Throw IndexScanCompletedException /\ fst (snd r3) = ridOf 10
   /\ inRange 1 GTE 5 LTE 10 = false)
  /\ (fst u2 = Ret tt /\ fst (snd u2) = ridOf 1
      /\ fst u3 = Throw IndexScanCompletedException /\ fst (snd u3) = ridOf 2
      /\ inRange 1 GTE 2 LTE 2 = true).
Proof. vm_compute. repeat split. Qed.

Lemma returns_readCurrentPage (s : BTreeIndex) (b : BufMgr) (p : Page) :
  bufMgr s = Some b ->
  lookupPage b (currentPageNum s) = Some p ->
  returns readCurrentPage s tt
    (setCurrentPageData (Some (currentPageNum s))
       (setBufMgr (Some (mkBuf (pages b) (currentPageNum s :: pinned b) (dirty b))) s)).
Proof.
  intros Hb Hp. unfold readCurrentPage.
  eapply returns_bind; [apply returns_get|].
  eapply returns_bind.
  { eapply returns_withBuf; [exact Hb|]. eapply returns_readPage. exact Hp. }
  apply returns_modify.
Qed.

Lemma returns_currentPage (s : BTreeIndex) (b : BufMgr) (pid : PageId) (p : Page) :
  currentPageData s = Some pid ->
  bufMgr s = Some b ->
  lookupPage b pid = Some p ->
  returns currentPage s p (setBufMgr (Some b) s).
Proof.
  intros Hd Hb Hp. unfold currentPage.
  eapply returns_bind; [apply returns_get|].
  rewrite Hd. eapply returns_withBuf; [exact Hb|]. eapply returns_load. exact Hp.
Qed.

Section StartScanHigh.
Context `{Layout}.

(** [startScan] does not compare the key it stops at with the upper bound.
    If the root is a leaf whose first slot is occupied by a key that
    satisfies the lower bound, [startScan] returns with the scan positioned
    on that slot, whatever the upper bound and its operator. *)
Lemma startScan_ignores_upper_bound (fuel : nat) (lo hi : Z) (lop hop : Operator)
    (s : BTreeIndex) (b : BufMgr) (leaf : LeafNodeInt) :
  (lop = GT /\ (lo < getKey (leafKeyArray leaf) 0)%Z
   \/ lop = GTE /\ (lo <= getKey (leafKeyArray leaf) 0)%Z) ->
  hop = LT \/ hop = LTE ->
  (lo <= hi)%Z ->
  scanExecuting s = false ->
  bufMgr s = Some b ->
  lookupPage b (rootPageNum s) = Some (LeafPage leaf) ->
  leafLevel leaf = (-1)%Z ->
  0 < INTARRAYLEAFSIZE ->
  page_number (getRid (ridArray leaf) 0) <> 0 ->
  exists s', startScan (S fuel) lo lop hi hop s = (Ret tt, s')
             /\ scanExecuting s' = true
             /\ nextEntry s' = 0%Z
             /\ currentPageNum s' = rootPageNum s.
Proof.
  intros Hlow Hhop Hle Hs Hb Hp Hlvl HL Hocc.
  assert (Hloop : startScan_loop INTARRAYLEAFSIZE leaf lo lop hi hop 0 = Found 0).
  { destruct INTARRAYLEAFSIZE as [|n]; [lia|]. simpl.
    apply Nat.eqb_neq in Hocc. rewrite Hocc.
    destruct Hlow as [[-> Hk]|[-> Hk]].
    - apply Z.ltb_lt in Hk. rewrite Hk. reflexivity.
    - apply Z.leb_le in Hk. rewrite Hk. reflexivity. }
  assert (Hops : bool_decide (lop ≠ GT) && bool_decide (lop ≠ GTE) = false)
    by (destruct Hlow as [[-> _]|[-> _]]; reflexivity).
  assert (Hops' : bool_decide (hop ≠ LT) && bool_decide (hop ≠ LTE) = false)
    by (destruct Hhop as [->| ->]; reflexivity).
  apply Z.ltb_ge in Hle.
  eexists. split.
  { match goal with |- _ = (Ret tt, ?s') =>
      change (returns (startScan (S fuel) lo lop hi hop) s tt s') end.
    unfold startScan.
    eapply returns_bind; [apply returns_modify|].
    eapply returns_bind; [apply returns_get|].
    cbn [lowOp highOp lowValInt highValInt scanExecuting setScanRange rootPageNum].
    rewrite Hops, Hops', Hle, Hs.
    eapply returns_bind; [apply returns_ret|].
    eapply returns_bind; [apply returns_modify|].
    eapply returns_bind.
    { cbn [recursiveScanPageId].
      eapply returns_bind; [eapply returns_readCurrentPage; [exact Hb|exact Hp]|].
      eapply returns_bind; [eapply returns_currentPage; [reflexivity|reflexivity|exact Hp]|].
      eapply returns_bind; [apply returns_get|].
      unfold isLeaf. cbn [pageLevel]. rewrite Hlvl. cbn [Z.eqb Pos.eqb].
      eapply returns_withBuf; [reflexivity|].
      apply returns_unPinPage. left. }
    eapply returns_bind.
    { eapply returns_readCurrentPage; [reflexivity|exact Hp]. }
    eapply returns_bind; [eapply returns_currentPage; [reflexivity|reflexivity|exact Hp]|].
    eapply returns_bind; [apply returns_get|].
    cbn [lowOp highOp lowValInt highValInt setScanRange setBufMgr setCurrentPageData
         setCurrentPageNum].
    rewrite Hloop.
    eapply returns_bind; [apply returns_modify|].
    apply returns_modify. }
  split; [|split]; reflexivity.
Qed.

End StartScanHigh.

(** C5. Real page layout.  The index holds exactly the keys 1 and 10, so no
    stored key satisfies [3 <= k <= 7]; [startScan] returns without throwing
    and leaves the scan active. *)
Theorem startScan_no_key_in_range :
  let s := builtIndex realLayout [1; 10]%Z in
  let r := @startScan realLayout 8 3 GTE 7 LTE s in
  (exists leaf, lookupPage (bufOf s) (rootPageNum s) = Some (LeafPage leaf)
                /\ rightSibPageNo leaf = 0
                /\ occupied leaf = [(1%Z, ridOf 1); (10%Z, ridOf 10)])
  /\ inRange 3 GTE 7 LTE 1 = false
  /\ inRange 3 GTE 7 LTE 10 = false
  /\ fst r = Ret tt
  /\ scanExecuting (snd r) = true.
Proof.
  vm_compute. split; [|repeat split].
  eexists. split; [reflexivity|]. split; reflexivity.
Qed.

(** ** Pins *)

Section Pins.
Context `{Layout}.

(** C6. [endScan] on an active scan returns after clearing the scan state and
    does not touch the buffer manager: the leaf the scan had pinned stays
    pinned. *)
Theorem endScan_keeps_pin (s : BTreeIndex) :
  scanExecuting s = true ->
  exists s', endScan s = (Ret tt, s')
             /\ scanExecuting s' = false
             /\ bufMgr s' = bufMgr s.
Proof.
  intros Hs. eexists. unfold endScan, get, modify, mbind, Op_bind. rewrite Hs. simpl.
  split; [reflexivity|]. split; reflexivity.
Qed.

End Pins.

(** Witness: after [startScan] on the two-key index the root leaf (page 2)
    holds one pin; after [endScan] no scan is active and page 2 is still
    pinned. *)
Lemma endScan_keeps_pin_witness :
  let s := snd (@startScan realLayout 8 3 GTE 7 LTE (builtIndex realLayout [1; 10]%Z)) in
  scanExecuting s = true
  /\ pinned (bufOf s) = [2]
  /\ exists s', endScan s = (Ret tt, s')
                /\ scanExecuting s' = false
                /\ bufMgr s' = bufMgr s.
Proof.
  intros s. split; [vm_compute; reflexivity|]. split; [vm_compute; reflexivity|].
  apply (endScan_keeps_pin s). vm_compute. reflexivity.
Defined.

(** ** Lifecycle *)

Section Lifecycle.
Context `{Layout}.
Variable flushFile : Op BufMgr unit.

(** C8. Whatever [flushFile] throws leaves the destructor: the scan flag has
    been cleared, the file handle and the other members are as they were. *)
Theorem destructor_propagates (s : BTreeIndex) (b b' : BufMgr) (e : Exception) :
  bufMgr s = Some b ->
  flushFile b = (Throw e, b') ->
  destructor flushFile s = (Throw e, setBufMgr (Some b') (setScanExecuting false s)).
Proof.
  intros Eb Ef. unfold destructor, modify, withBuf, mbind, Op_bind. simpl.
  rewrite Eb, Ef. reflexivity.
Qed.

(** C4. Opening an index file that exists and starts with a metadata page
    returns normally for every relation name, offset and type: nothing is
    compared, and the three fields of the metadata page are overwritten with
    the caller's values. *)
Theorem constructor_open_existing (disk : gmap string (list Page)) (relName : string)
    (offset : Z) (ty : Datatype) (fileScan : list (RecordId * Z)) (fuel : nat)
    (meta : IndexMetaInfo) (rest : list Page) :
  disk !! indexName relName offset = Some (MetaPage meta :: rest) ->
  constructor flushFile disk relName offset ty fileScan fuel =
    (indexName relName offset,
     (Ret tt,
      mkIndex (Some (indexName relName offset))
        (Some (mkBuf (MetaPage (mkMeta (copyRelationName relName) offset ty (rootPageNo meta))
                      :: rest) [] []))
        1 (rootPageNo meta) false 0 0 None 0 0 LT LT)).
Proof.
  intros E. unfold constructor, constructorBody, tryCatch, openBlobFile, modify, get,
    withBuf, mbind, Op_bind. simpl.
  rewrite E. simpl. reflexivity.
Qed.

End Lifecycle.

(** Witness: a scan is active on the two-key index, its leaf pinned, and the
    buffer manager refuses to flush a file with a pinned page. *)
Lemma destructor_propagates_witness :
  let s := snd (@startScan realLayout 8 3 GTE 7 LTE (builtIndex realLayout [1; 10]%Z)) in
  scanExecuting s = true
  /\ pinned (bufOf s) = [2]
  /\ destructor flushFilePinned s
     = (Throw PagePinnedException, setBufMgr (Some (bufOf s)) (setScanExecuting false s)).
Proof.
  intros s. split; [vm_compute; reflexivity|]. split; [vm_compute; reflexivity|].
  apply (destructor_propagates flushFilePinned s (bufOf s) (bufOf s) PagePinnedException);
    vm_compute; reflexivity.
Defined.

(** Witness: the file [rel.0] was written for attribute type [INTEGER]; it is
    opened with type [DOUBLE]. *)
Lemma constructor_open_existing_witness :
  let pgs := pages (bufOf (builtIndex realLayout [1; 10]%Z)) in
  let disk : gmap string (list Page) := {[ "rel.0" := pgs ]} in
  head pgs = Some (MetaPage (mkMeta "rel" 0 INTEGER 2))
  /\ fst (snd (@constructor realLayout flushFilePinned disk "rel" 0%Z DOUBLE [] 8)) = Ret tt
  /\ head (pages (bufOf (snd (snd (@constructor realLayout flushFilePinned disk "rel" 0%Z
                                     DOUBLE [] 8)))))
     = Some (MetaPage (mkMeta "rel" 0 DOUBLE 2)).
Proof.
  intros pgs disk. split; [vm_compute; reflexivity|].
  rewrite (@constructor_open_existing realLayout flushFilePinned disk "rel" 0%Z DOUBLE [] 8
             (mkMeta "rel" 0 INTEGER 2) (tail pgs)) by (vm_compute; reflexivity).
  split; vm_compute; reflexivity.
Defined.

(** ** Array indices read by the two search loops *)

Section Reads.
Context `{Layout}.

Lemma leafFull_loop_full (node : LeafNodeInt) (n next : nat) :
  (forall i, next <= i -> i < INTARRAYLEAFSIZE ->
             page_number (getRid (ridArray node) i) <> 0) ->
  next <= INTARRAYLEAFSIZE ->
  INTARRAYLEAFSIZE - next < n ->
  leafFull_loop n node next
  = (INTARRAYLEAFSIZE, seq next (S INTARRAYLEAFSIZE - next)).
Proof.
  revert next. induction n as [|n IH]; intros next Hfull Hle Hn; [lia|].
  simpl. destruct (decide (next = INTARRAYLEAFSIZE)) as [->|Hne].
  - rewrite Nat.ltb_irrefl, andb_false_r.
    replace (S INTARRAYLEAFSIZE - INTARRAYLEAFSIZE) with 1 by lia. reflexivity.
  - assert (Hlt : next < INTARRAYLEAFSIZE) by lia.
    pose proof (Hfull next (le_n _) Hlt) as Hpn.
    apply Nat.eqb_neq in Hpn. rewrite Hpn.
    apply Nat.ltb_lt in Hlt. rewrite Hlt. simpl.
    apply Nat.ltb_lt in Hlt.
    rewrite IH by (try lia; intros i Hi Hi'; apply Hfull; lia).
    replace (S INTARRAYLEAFSIZE - next) with (S (S INTARRAYLEAFSIZE - S next)) by lia.
    reflexivity.
Qed.

Lemma findNonLeafIndex_loop_full (node : NonLeafNodeInt) (key : Z) (n idx : nat) :
  (forall i, idx <= i -> i < INTARRAYNONLEAFSIZE ->
             getPid (pageNoArray node) (i + 1) <> 0
             /\ (getKey (keyArray node) i < key)%Z) ->
  idx <= INTARRAYNONLEAFSIZE ->
  INTARRAYNONLEAFSIZE - idx < n ->
  findNonLeafIndex_loop n node key idx
  = (INTARRAYNONLEAFSIZE, seq (idx + 1) (S INTARRAYNONLEAFSIZE - idx)).
Proof.
  revert idx. induction n as [|n IH]; intros idx Hfull Hle Hn; [lia|].
  simpl. destruct (decide (idx = INTARRAYNONLEAFSIZE)) as [->|Hne].
  - rewrite Nat.ltb_irrefl, andb_false_r.
    replace (S INTARRAYNONLEAFSIZE - INTARRAYNONLEAFSIZE) with 1 by lia. reflexivity.
  - assert (Hlt : idx < INTARRAYNONLEAFSIZE) by lia.
    destruct (Hfull idx (le_n _) Hlt) as [Hp Hk].
    apply Nat.eqb_neq in Hp. rewrite Hp.
    apply Z.ltb_lt in Hk. rewrite Hk.
    apply Nat.ltb_lt in Hlt. rewrite Hlt. simpl.
    apply Nat.ltb_lt in Hlt.
    rewrite IH by (try lia; intros i Hi Hi'; apply Hfull; lia).
    replace (S INTARRAYNONLEAFSIZE - idx) with (S (S INTARRAYNONLEAFSIZE - S idx)) by lia.
    simpl. replace (idx + 1) with (S idx) by lia. reflexivity.
Qed.

Lemma getRid_Forall (P : RecordId -> Prop) (a : list RecordId) (i : nat) :
  Forall P a -> i < length a -> P (getRid a i).
Proof.
  intros Ha Hi. unfold getRid.
  destruct (lookup_lt_is_Some_2 a i Hi) as [x Hx]. rewrite Hx. simpl.
  eapply Forall_lookup_1; eauto.
Qed.

Lemma getPid_Forall (P : PageId -> Prop) (a : list PageId) (i : nat) :
  Forall P a -> i < length a -> P (getPid a i).
Proof.
  intros Ha Hi. unfold getPid.
  destruct (lookup_lt_is_Some_2 a i Hi) as [x Hx]. rewrite Hx. simpl.
  eapply Forall_lookup_1; eauto.
Qed.

Lemma getKey_Forall (P : Z -> Prop) (a : list Z) (i : nat) :
  Forall P a -> i < length a -> P (getKey a i).
Proof.
  intros Ha Hi. unfold getKey.
  destruct (lookup_lt_is_Some_2 a i Hi) as [x Hx]. rewrite Hx. simpl.
  eapply Forall_lookup_1; eauto.
Qed.

(** C9. On a full leaf the loop of [insertToLeaf] reads [ridArray] at index
    [INTARRAYLEAFSIZE], one past its last slot; on a full internal node and a
    key above all its keys [findNonLeafIndex] reads [pageNoArray] at index
    [INTARRAYNONLEAFSIZE + 1], one past its last slot.  Both loops still end
    with the index at the size of the array. *)
Theorem full_node_read_past_end (leaf : LeafNodeInt) (node : NonLeafNodeInt) (key : Z) :
  length (ridArray leaf) = INTARRAYLEAFSIZE ->
  Forall (fun r => page_number r <> 0) (ridArray leaf) ->
  length (keyArray node) = INTARRAYNONLEAFSIZE ->
  length (pageNoArray node) = S INTARRAYNONLEAFSIZE ->
  Forall (fun p => p <> 0) (pageNoArray node) ->
  Forall (fun k => (k < key)%Z) (keyArray node) ->
  (leafFull_next leaf = INTARRAYLEAFSIZE
   /\ INTARRAYLEAFSIZE ∈ leafFull_reads leaf
   /\ ridArray leaf !! INTARRAYLEAFSIZE = None)
  /\ (findNonLeafIndex node key = INTARRAYNONLEAFSIZE
      /\ INTARRAYNONLEAFSIZE + 1 ∈ findNonLeafIndex_reads node key
      /\ pageNoArray node !! (INTARRAYNONLEAFSIZE + 1) = None).
Proof.
  intros Hlr Hr Hlk Hlp Hp Hk. split.
  - unfold leafFull_next, leafFull_reads.
    rewrite leafFull_loop_full; try lia.
    + cbn [fst snd]. split; [reflexivity|]. split.
      * apply elem_of_seq. lia.
      * apply lookup_ge_None. lia.
    + intros i _ Hi. apply (getRid_Forall (fun r => page_number r <> 0)); [exact Hr|lia].
  - unfold findNonLeafIndex, findNonLeafIndex_reads.
    rewrite findNonLeafIndex_loop_full; try lia.
    + cbn [fst snd]. split; [reflexivity|]. split.
      * apply elem_of_seq. lia.
      * apply lookup_ge_None. lia.
    + intros i _ Hi. split.
      * apply (getPid_Forall (fun p => p <> 0)); [exact Hp|lia].
      * apply (getKey_Forall (fun k => (k < key)%Z)); [exact Hk|lia].
Qed.

End Reads.

(** Witness: with two slots per node, the root leaf after inserting 1 and 2
    is full, and the root after inserting 1, 2, 3, 4 is a full internal node
    with keys 2 and 3; the next insertions (any key, and key 5) run the two
    loops on these nodes. *)
Lemma full_node_read_past_end_witness :
  let leaf := mkLeaf (-1) [1; 2]%Z [ridOf 1; ridOf 2] 0 in
  let node := mkNonLeaf 1 [2; 3]%Z [2; 3; 5] in
  lookupPage (bufOf (builtIndex smallLayout [1; 2]%Z)) 2 = Some (LeafPage leaf)
  /\ lookupPage (bufOf (builtIndex smallLayout [1; 2; 3; 4]%Z)) 4 = Some (NonLeafPage node)
  /\ (@leafFull_next smallLayout leaf = 2
      /\ 2 ∈ @leafFull_reads smallLayout leaf
      /\ ridArray leaf !! 2 = None)
  /\ (@findNonLeafIndex smallLayout node 5 = 2
      /\ 3 ∈ @findNonLeafIndex_reads smallLayout node 5
      /\ pageNoArray node !! 3 = None).
Proof.
  intros leaf node.
  split; [vm_compute; reflexivity|]. split; [vm_compute; reflexivity|].
  apply (@full_node_read_past_end smallLayout leaf node 5%Z).
  - reflexivity.
  - repeat constructor; discriminate.
  - reflexivity.
  - reflexivity.
  - repeat constructor; discriminate.
  - repeat constructor.
Defined.

(** ** The temporary arrays of splitNonLeafNode *)

Lemma insert_last_cell {A} (l a : list A) (n : nat) (x : A) :
  length l = S n -> take n l = a -> <[n := x]> l = a ++ [x].
Proof.
  intros Hl <-.
  rewrite <- (take_drop n l) at 1.
  assert (Hlt : length (take n l) = n) by (rewrite length_take; lia).
  rewrite insert_app_r_alt by lia. rewrite Hlt, Nat.sub_diag.
  destruct (drop n l) as [|y [|z t]] eqn:Ed.
  - apply (f_equal length) in Ed. rewrite length_drop in Ed. simpl in Ed. lia.
  - reflexivity.
  - apply (f_equal length) in Ed. rewrite length_drop in Ed. simpl in Ed. lia.
Qed.

Lemma take_S_insert {A} (l a : list A) (k : nat) (x : A) :
  k < length l -> a !! k = Some x -> take k l = take k a ->
  take (S k) (<[k := x]> l) = take (S k) a.
Proof.
  intros Hk Hx Ht.
  rewrite (take_S_r (<[k := x]> l) k x) by (apply list_lookup_insert_eq; exact Hk).
  rewrite take_insert_ge by lia.
  rewrite (take_S_r a k x) by exact Hx.
  rewrite Ht. reflexivity.
Qed.

Section SplitTemp.
Context `{Layout}.

Lemma nonLeafTemp_loop_append (node : NonLeafNodeInt) (key : Z) (sonPid pid : PageId)
    (n k : nat) (tempKey : list Z) (tempPid : list PageId) :
  length (keyArray node) = INTARRAYNONLEAFSIZE ->
  length (pageNoArray node) = S INTARRAYNONLEAFSIZE ->
  Forall (fun p => p <> 0) (pageNoArray node) ->
  Forall (fun x => (x <= key)%Z) (keyArray node) ->
  k <= INTARRAYNONLEAFSIZE ->
  INTARRAYNONLEAFSIZE - k < n ->
  length tempKey = S INTARRAYNONLEAFSIZE ->
  length tempPid = S (S INTARRAYNONLEAFSIZE) ->
  take k tempKey = take k (keyArray node) ->
  take (S k) tempPid = take (S k) (pageNoArray node) ->
  nonLeafTemp_loop n node key sonPid pid k k tempKey tempPid
  = (keyArray node ++ [key], pageNoArray node ++ [pid]).
Proof.
  intros Hlk Hlp Hfull Hle. revert k tempKey tempPid.
  induction n as [|n IH]; intros k tk tp Hk Hn Htk Htp Hpk Hpp; [lia|].
  simpl.
  replace (k <=? INTARRAYNONLEAFSIZE) with true by (symmetry; apply Nat.leb_le; lia).
  simpl.
  destruct (decide (k = INTARRAYNONLEAFSIZE)) as [->|Hne].
  - rewrite Nat.eqb_refl. simpl. f_equal.
    + apply insert_last_cell; [exact Htk|].
      rewrite Hpk. apply take_ge. lia.
    + replace (INTARRAYNONLEAFSIZE + 1) with (S INTARRAYNONLEAFSIZE) by lia.
      apply insert_last_cell; [exact Htp|].
      rewrite Hpp. apply take_ge. lia.
  - assert (Hlt : k < INTARRAYNONLEAFSIZE) by lia.
    replace (k =? INTARRAYNONLEAFSIZE) with false by (symmetry; apply Nat.eqb_neq; lia).
    destruct (lookup_lt_is_Some_2 (pageNoArray node) (k + 1)) as [p Ep]; [lia|].
    destruct (lookup_lt_is_Some_2 (keyArray node) k) as [x Ex]; [lia|].
    assert (Hp : p <> 0) by (eapply (Forall_lookup_1 _ _ _ _ Hfull); eauto).
    assert (Hx : (x <= key)%Z) by (eapply (Forall_lookup_1 _ _ _ _ Hle); eauto).
    unfold getPid, getKey. rewrite Ep, Ex. simpl.
    replace (p =? 0) with false by (symmetry; apply Nat.eqb_neq; exact Hp).
    rewrite Nat.eqb_refl.
    replace (key <? x)%Z with false by (symmetry; apply Z.ltb_ge; exact Hx).
    simpl.
    apply IH; try lia.
    + rewrite length_insert. exact Htk.
    + rewrite length_insert. exact Htp.
    + apply take_S_insert; [lia|exact Ex|exact Hpk].
    + replace (k + 1) with (S k) in * by lia.
      apply take_S_insert; [lia|exact Ep|exact Hpp].
Qed.

(** C3. When the internal node is full and the new key is not below any of
    its keys, the temporary arrays are the node's keys followed by the new
    key and the node's child pointers followed by [pid], the page number of
    the node being split, whatever the new child [sonPid] is. *)
Theorem nonLeafTemp_appends_pid (node : NonLeafNodeInt) (key : Z) (sonPid pid : PageId) :
  length (keyArray node) = INTARRAYNONLEAFSIZE ->
  length (pageNoArray node) = S INTARRAYNONLEAFSIZE ->
  Forall (fun p => p <> 0) (pageNoArray node) ->
  Forall (fun x => (x <= key)%Z) (keyArray node) ->
  nonLeafTemp node key sonPid pid = (keyArray node ++ [key], pageNoArray node ++ [pid]).
Proof.
  intros Hlk Hlp Hfull Hle. unfold nonLeafTemp.
  apply nonLeafTemp_loop_append; try assumption; try lia.
  - apply length_replicate.
  - rewrite length_insert. apply length_replicate.
  - reflexivity.
  - destruct (pageNoArray node) as [|p ps] eqn:E; [discriminate|]. reflexivity.
Qed.

End SplitTemp.

(** Witness: the root of the tree built from 1, 2, 3, 4 (page 4, keys 2 and
    3, children 2, 3, 5) is full; inserting 5 splits leaf 5, and key 4 with
    the new leaf 6 is passed to [splitNonLeafNode] on page 4. *)
Lemma nonLeafTemp_appends_pid_witness :
  let node := mkNonLeaf 1 [2; 3]%Z [2; 3; 5] in
  lookupPage (bufOf (builtIndex smallLayout [1; 2; 3; 4]%Z)) 4 = Some (NonLeafPage node)
  /\ @nonLeafTemp smallLayout node 4 6 4 = ([2; 3; 4]%Z, [2; 3; 5; 4]).
Proof.
  intros node. split; [vm_compute; reflexivity|].
  apply (@nonLeafTemp_appends_pid smallLayout node 4%Z 6 4).
  - reflexivity.
  - reflexivity.
  - repeat constructor; discriminate.
  - repeat constructor; discriminate.
Defined.

(** ** splitLeafNode *)

Section SplitLeaf.
Context `{Layout}.

Lemma leafSplit_fold_keeps (tempKey : list Z) (tempRid : list RecordId)
    (len start : nat) (node newNode : LeafNodeInt) :
  INTARRAYLEAFSIZE / 2 <= start ->
  let r := foldl (leafSplit_step tempKey tempRid) (node, newNode) (seq start len) in
  leafKeyArray (fst r) = leafKeyArray node
  /\ take (INTARRAYLEAFSIZE / 2) (ridArray (fst r))
     = take (INTARRAYLEAFSIZE / 2) (ridArray node).
Proof.
  revert start node newNode.
  induction len as [|len IH]; intros start node newNode Hge; cbn [seq foldl].
  - split; reflexivity.
  - destruct (leafSplit_step tempKey tempRid (node, newNode) start) as [n1 n2] eqn:E.
    destruct (IH (S start) n1 n2 ltac:(lia)) as [Hk Hr].
    cbv zeta. rewrite Hk, Hr.
    unfold leafSplit_step in E.
    destruct (start <? INTARRAYLEAFSIZE); injection E as <- _; cbn [leafKeyArray ridArray].
    + split; [reflexivity|]. unfold clearRid. apply take_insert_ge. exact Hge.
    + split; reflexivity.
Qed.

(** The split loop never writes the first [SIZE / 2] slots of the leaf being
    split: its keys stay as they were, and so do the record ids below
    [SIZE / 2], whatever the temporary arrays hold. *)
Lemma leafSplit_keeps_left (tempKey : list Z) (tempRid : list RecordId)
    (node newNode : LeafNodeInt) :
  leafKeyArray (fst (leafSplit tempKey tempRid node newNode)) = leafKeyArray node
  /\ take (INTARRAYLEAFSIZE / 2) (ridArray (fst (leafSplit tempKey tempRid node newNode)))
     = take (INTARRAYLEAFSIZE / 2) (ridArray node).
Proof. unfold leafSplit. apply leafSplit_fold_keeps. lia. Qed.

End SplitLeaf.

(** C2. Four slots per leaf; the root leaf (page 2) holds 10, 20, 30, 40 and
    [splitLeafNode] is called for key 5, as [insertEntry] does.  The merged
    array is 5, 10, 20, 30, 40; the new leaf (page 3) receives 20, 30, 40, the
    chain is spliced and 20 is returned.  The original leaf is left with 10
    and 20, not with the merged entries 5 and 10: key 5 is in neither leaf
    and key 20 is in both. *)
Theorem splitLeafNode_left_half :
  let s := builtIndex fourLayout [10; 20; 30; 40]%Z in
  let r := @splitLeafNode fourLayout 5 (ridOf 5) 2 (bufOf s) in
  exists leaf node' newNode,
    lookupPage (bufOf s) (rootPageNum s) = Some (LeafPage leaf)
    /\ rootPageNum s = 2
    /\ occupied leaf = [(10, ridOf 10); (20, ridOf 20); (30, ridOf 30); (40, ridOf 40)]%Z
    /\ @leafTemp fourLayout leaf 5 (ridOf 5)
       = ([5; 10; 20; 30; 40]%Z, [ridOf 5; ridOf 10; ridOf 20; ridOf 30; ridOf 40])
    /\ fst r = Ret (20%Z, 3)
    /\ lookupPage (snd r) 2 = Some (LeafPage node')
    /\ occupied node' = [(10, ridOf 10); (20, ridOf 20)]%Z
    /\ rightSibPageNo node' = 3
    /\ lookupPage (snd r) 3 = Some (LeafPage newNode)
    /\ occupied newNode = [(20, ridOf 20); (30, ridOf 30); (40, ridOf 40)]%Z
    /\ rightSibPageNo newNode = rightSibPageNo leaf
    /\ pages (bufOf (snd (@insertEntry fourLayout 8 5 (ridOf 5) s))) !! 1
       = Some (LeafPage node').
Proof.
  vm_compute. eexists _, _, _.
  repeat (split; [reflexivity|]). reflexivity.
Qed.

(** * Further properties of the code *)

(** ** Rules for triples *)

Section Hoare.
Context {St : Type}.

Lemma hoare_ret {A} (P : St -> Prop) (a : A) (Q : A -> St -> Prop) E :
  (forall s, P s -> Q a s) -> hoare P (mret a) Q E.
Proof. intros HQ s o s' HP [= <- <-]. apply HQ, HP. Qed.

Lemma hoare_throw {A} (P : St -> Prop) e (Q : A -> St -> Prop) (E : Exception -> St -> Prop) :
  (forall s, P s -> E e s) -> hoare P (throw e) Q E.
Proof. intros HE s o s' HP [= <- <-]. apply HE, HP. Qed.

Lemma hoare_undefined {A} (P : St -> Prop) (Q : A -> St -> Prop) E :
  hoare P undefined Q E.
Proof. intros s o s' HP [= <- <-]. exact I. Qed.

Lemma hoare_outOfFuel {A} (P : St -> Prop) (Q : A -> St -> Prop) E :
  hoare P outOfFuel Q E.
Proof. intros s o s' HP [= <- <-]. exact I. Qed.

Lemma hoare_bind {A B} (P : St -> Prop) (m : Op St A) (f : A -> Op St B)
    (Q : A -> St -> Prop) (R : B -> St -> Prop) E :
  hoare P m Q E -> (forall a, hoare (Q a) (f a) R E) -> hoare P (m ≫= f) R E.
Proof.
  intros Hm Hf s o s' HP. unfold mbind, Op_bind.
  destruct (m s) as [[a | e | |] s1] eqn:Em; intros Hr.
  - exact (Hf a s1 o s' (Hm s _ _ HP Em) Hr).
  - injection Hr as <- <-. exact (Hm s _ _ HP Em).
  - injection Hr as <- <-. exact I.
  - injection Hr as <- <-. exact I.
Qed.

Lemma hoare_weaken {A} (P P' : St -> Prop) (m : Op St A)
    (Q Q' : A -> St -> Prop) (E E' : Exception -> St -> Prop) :
  hoare P' m Q' E' ->
  (forall s, P s -> P' s) ->
  (forall a s, Q' a s -> Q a s) ->
  (forall e s, E' e s -> E e s) ->
  hoare P m Q E.
Proof.
  intros Hm HP HQ HE s o s' Hs Hr. specialize (Hm s o s' (HP s Hs) Hr).
  destruct o; auto.
Qed.

End Hoare.

(** ** Pins of the buffer-manager operations *)

Section PinsBuf.
Implicit Type l : list PageId.

Lemma readPage_pins l pid :
  hoare (fun b => pinned b = l) (readPage pid)
        (fun _ b => pinned b = pid :: l) (fun _ b => pinned b = l).
Proof.
  intros b o b' Hb. unfold readPage.
  destruct (lookupPage b pid); intros [= <- <-]; simpl; congruence.
Qed.

Lemma removeOne_second (p q : PageId) l : removeOne p (q :: p :: l) = q :: l.
Proof.
  simpl. destruct (decide (q = p)) as [->|]; [reflexivity|].
  rewrite decide_True by reflexivity. reflexivity.
Qed.

Lemma unPinPage_pins_head l pid d E :
  hoare (fun b => pinned b = pid :: l) (unPinPage pid d) (fun _ b => pinned b = l) E.
Proof.
  intros b o b' Hb. unfold unPinPage.
  rewrite decide_True by (rewrite Hb; left).
  intros [= <- <-]. simpl. rewrite Hb. simpl. rewrite decide_True by reflexivity.
  reflexivity.
Qed.

Lemma unPinPage_pins_second l pid q d E :
  hoare (fun b => pinned b = q :: pid :: l) (unPinPage pid d)
        (fun _ b => pinned b = q :: l) E.
Proof.
  intros b o b' Hb. unfold unPinPage.
  rewrite decide_True by (rewrite Hb; right; left).
  intros [= <- <-]. simpl pinned. rewrite Hb. apply removeOne_second.
Qed.

Lemma load_pins l pid E :
  hoare (fun b => pinned b = l) (load pid) (fun _ b => pinned b = l) E.
Proof.
  intros b o b' Hb. unfold load.
  destruct (lookupPage b pid); intros [= <- <-]; [exact Hb|exact I].
Qed.

Lemma store_pins l pid p E :
  hoare (fun b => pinned b = l) (store pid p) (fun _ b => pinned b = l) E.
Proof.
  intros b o b' Hb. unfold store. destruct pid as [|i]; [intros [= <- <-]; exact I|].
  destruct (decide (i < length (pages b))); intros [= <- <-]; [exact Hb|exact I].
Qed.

Lemma allocPage_pins l E :
  hoare (fun b => pinned b = l) allocPage (fun pid b => pinned b = pid :: l) E.
Proof. intros b o b' Hb. unfold allocPage. intros [= <- <-]. simpl. congruence. Qed.

Lemma loadLeaf_pins l pid E :
  hoare (fun b => pinned b = l) (loadLeaf pid) (fun _ b => pinned b = l) E.
Proof.
  unfold loadLeaf. eapply hoare_bind; [apply load_pins|].
  intros [| | |]; first [apply hoare_undefined | apply hoare_ret; auto].
Qed.

Lemma loadNonLeaf_pins l pid E :
  hoare (fun b => pinned b = l) (loadNonLeaf pid) (fun _ b => pinned b = l) E.
Proof.
  unfold loadNonLeaf. eapply hoare_bind; [apply load_pins|].
  intros [| | |]; first [apply hoare_undefined | apply hoare_ret; auto].
Qed.

Lemma loadLevel_pins l pid E :
  hoare (fun b => pinned b = l) (loadLevel pid) (fun _ b => pinned b = l) E.
Proof.
  unfold loadLevel. eapply hoare_bind; [apply load_pins|].
  intros p. destruct (pageLevel p); first [apply hoare_undefined | apply hoare_ret; auto].
Qed.

End PinsBuf.

Section PinsInsert.
Context `{Layout}.
Implicit Type l : list PageId.

Lemma allocLeaf_pins l E :
  hoare (fun b => pinned b = l) allocLeaf (fun pid b => pinned b = pid :: l) E.
Proof.
  unfold allocLeaf. eapply hoare_bind; [apply allocPage_pins|]. intros pid.
  eapply hoare_bind; [apply store_pins|]. intros ?. apply hoare_ret. auto.
Qed.

Lemma allocNonLeaf_pins l E :
  hoare (fun b => pinned b = l) allocNonLeaf (fun pid b => pinned b = pid :: l) E.
Proof.
  unfold allocNonLeaf. eapply hoare_bind; [apply allocPage_pins|]. intros pid.
  eapply hoare_bind; [apply store_pins|]. intros ?. apply hoare_ret. auto.
Qed.

Lemma splitLeafNode_pins l key rid pid :
  hoare (fun b => pinned b = l) (splitLeafNode key rid pid)
        (fun _ b => pinned b = l) (fun _ b => pinned b = l).
Proof.
  unfold splitLeafNode.
  eapply hoare_bind; [apply readPage_pins|]. intros ?.
  eapply hoare_bind; [apply loadLeaf_pins|]. intros node.
  destruct (leafTemp node key rid) as [tempKey tempRid].
  eapply hoare_bind; [apply allocLeaf_pins|]. intros newPid.
  eapply hoare_bind; [apply loadLeaf_pins|]. intros newNode.
  destruct (leafSplit tempKey tempRid node newNode) as [node' newNode'].
  eapply hoare_bind; [apply store_pins|]. intros ?.
  eapply hoare_bind; [apply store_pins|]. intros ?.
  eapply hoare_bind; [apply unPinPage_pins_second|]. intros ?.
  eapply hoare_bind; [apply unPinPage_pins_head|]. intros ?.
  apply hoare_ret. auto.
Qed.

Lemma insertToLeaf_pins l key rid pid midKey newPid :
  hoare (fun b => pinned b = l) (insertToLeaf key rid pid midKey newPid)
        (fun _ b => pinned b = l) (fun _ b => pinned b = l).
Proof.
  unfold insertToLeaf.
  eapply hoare_bind; [apply readPage_pins|]. intros ?.
  eapply hoare_bind; [apply loadLeaf_pins|]. intros node.
  destruct (leafFull_next node =? INTARRAYLEAFSIZE).
  - eapply hoare_bind; [apply unPinPage_pins_head|]. intros ?.
    eapply hoare_bind; [apply splitLeafNode_pins|]. intros [mk np].
    apply hoare_ret. auto.
  - destruct (page_number (getRid (ridArray node) 0) =? 0).
    + eapply hoare_bind; [apply store_pins|]. intros ?.
      eapply hoare_bind; [apply unPinPage_pins_head|]. intros ?.
      apply hoare_ret. auto.
    + eapply hoare_bind; [apply store_pins|]. intros ?.
      eapply hoare_bind; [apply unPinPage_pins_head|]. intros ?.
      apply hoare_ret. auto.
Qed.

Lemma splitNonLeafNode_pins l key sonPid pid :
  hoare (fun b => pinned b = l) (splitNonLeafNode key sonPid pid)
        (fun _ b => pinned b = l) (fun _ b => pinned b = l).
Proof.
  unfold splitNonLeafNode.
  eapply hoare_bind; [apply readPage_pins|]. intros ?.
  eapply hoare_bind; [apply loadNonLeaf_pins|]. intros node.
  destruct (nonLeafTemp node key sonPid pid) as [tempKey tempPid].
  eapply hoare_bind; [apply allocNonLeaf_pins|]. intros newPid.
  eapply hoare_bind; [apply loadNonLeaf_pins|]. intros newNode.
  cbv zeta.
  destruct (nonLeafSplit _ _ _ _) as [node' newNode'].
  eapply hoare_bind; [apply store_pins|]. intros ?.
  eapply hoare_bind; [apply store_pins|]. intros ?.
  eapply hoare_bind; [apply unPinPage_pins_head|]. intros ?.
  eapply hoare_bind; [apply unPinPage_pins_head|]. intros ?.
  apply hoare_ret. auto.
Qed.

Lemma insertToNonLeafNode_pins l key sonPid pid midKey newPid :
  hoare (fun b => pinned b = l) (insertToNonLeafNode key sonPid pid midKey newPid)
        (fun _ b => pinned b = l) (fun _ b => pinned b = l).
Proof.
  unfold insertToNonLeafNode.
  eapply hoare_bind; [apply readPage_pins|]. intros ?.
  eapply hoare_bind; [apply loadNonLeaf_pins|]. intros node.
  destruct (negb _).
  - eapply hoare_bind; [apply unPinPage_pins_head|]. intros ?.
    eapply hoare_bind; [apply splitNonLeafNode_pins|]. intros [mk np].
    apply hoare_ret. auto.
  - cbv zeta.
    eapply hoare_bind; [apply store_pins|]. intros ?.
    eapply hoare_bind; [apply unPinPage_pins_head|]. intros ?.
    apply hoare_ret. auto.
Qed.

Lemma insertNode_pins fuel l key rid midKey pid newSonPageId :
  hoare (fun b => pinned b = l) (insertNode fuel key rid midKey pid newSonPageId)
        (fun _ b => pinned b = l) (fun _ b => pinned b = l).
Proof.
  revert midKey pid newSonPageId.
  induction fuel as [|fuel IH]; intros midKey pid newSonPageId; simpl.
  - apply hoare_outOfFuel.
  - eapply hoare_bind; [apply readPage_pins|]. intros ?.
    eapply hoare_bind; [apply loadLevel_pins|]. intros lvl.
    destruct (lvl =? -1)%Z.
    + eapply hoare_bind; [apply unPinPage_pins_head|]. intros ?.
      apply insertToLeaf_pins.
    + eapply hoare_bind; [apply loadNonLeaf_pins|]. intros nonLeaf.
      eapply hoare_bind; [apply unPinPage_pins_head|]. intros ?.
      eapply hoare_bind; [apply IH|]. intros [[split mk] np].
      destruct split.
      * apply insertToNonLeafNode_pins.
      * apply hoare_ret. auto.
Qed.

End PinsInsert.

(** ** Pins of the index operations *)


(** A buffer-manager triple seen from the index: the members other than
    [bufMgr] stay as they are. *)
Lemma hoare_withBuf {A} (m : Op BufMgr A) (P : BufMgr -> Prop) Q E (R : BTreeIndex -> Prop) :
  hoare P m Q E ->
  hoare (fun s => P (bufOf s) /\ R (setBufMgr None s)) (withBuf m)
        (fun a s => Q a (bufOf s) /\ R (setBufMgr None s))
        (fun e s => E e (bufOf s) /\ R (setBufMgr None s)).
Proof.
  intros Hm s o s' [HP HR]. unfold withBuf.
  destruct (bufMgr s) as [b|] eqn:Eb; [|intros [= <- <-]; exact I].
  destruct (m b) as [o1 b1] eqn:Em. intros [= <- <-].
  assert (Hb : bufOf s = b) by (unfold bufOf; rewrite Eb; reflexivity).
  rewrite Hb in HP. specialize (Hm b o1 b1 HP Em).
  destruct o1; try exact I; (split; [exact Hm|exact HR]).
Qed.

Lemma hoare_get_inv {St} (P : St -> Prop) E : hoare P get (fun _ s => P s) E.
Proof. intros s o s' HP [= <- <-]. exact HP. Qed.

Lemma hoare_ret_inv {St A} (P : St -> Prop) (a : A) E : hoare P (mret a) (fun _ s => P s) E.
Proof. intros s o s' HP [= <- <-]. exact HP. Qed.

Lemma hoare_throw_inv {St A} (P : St -> Prop) e (Q : A -> St -> Prop) :
  hoare P (throw e) Q (fun _ s => P s).
Proof. intros s o s' HP [= <- <-]. exact HP. Qed.

Lemma hoare_modify_inv {St} (f : St -> St) (P : St -> Prop) E :
  (forall s, P s -> P (f s)) -> hoare P (modify f) (fun _ s => P s) E.
Proof. intros Hf s o s' HP [= <- <-]. apply Hf, HP. Qed.

Lemma withBuf_pins {A} (m : Op BufMgr A) (l : list PageId) (k : A -> list PageId)
    (x : Exception -> list PageId) :
  hoare (fun b => pinned b = l) m (fun a b => pinned b = k a) (fun e b => pinned b = x e) ->
  hoare (fun s => pinned (bufOf s) = l) (withBuf m)
        (fun a s => pinned (bufOf s) = k a) (fun e s => pinned (bufOf s) = x e).
Proof.
  intros Hm. eapply hoare_weaken.
  - apply (hoare_withBuf m _ _ _ (fun _ => True) Hm).
  - intros s Hs. split; [exact Hs|exact I].
  - intros ? s [Hs _]. exact Hs.
  - intros e s [Hs _]. exact Hs.
Qed.

Section PinsIndex.
Context `{Layout}.
Implicit Type l : list PageId.

Lemma updateRootPageNo_pins l :
  hoare (fun s => pinned (bufOf s) = l) updateRootPageNo
        (fun _ s => pinned (bufOf s) = l) (fun _ s => pinned (bufOf s) = l).
Proof.
  unfold updateRootPageNo.
  eapply hoare_bind; [apply hoare_get_inv|]. intros s0.
  apply (withBuf_pins _ l (fun _ => l) (fun _ => l)).
  eapply hoare_bind; [apply readPage_pins|]. intros ?.
  eapply hoare_bind; [apply load_pins|]. intros p.
  destruct p; try apply hoare_undefined.
  eapply hoare_bind; [apply store_pins|]. intros ?.
  apply unPinPage_pins_head.
Qed.

Lemma growRoot_pins l newLevel midKey pid newPid :
  hoare (fun s => pinned (bufOf s) = l) (growRoot newLevel midKey pid newPid)
        (fun _ s => pinned (bufOf s) = l) (fun _ s => pinned (bufOf s) = l).
Proof.
  unfold growRoot.
  eapply hoare_bind.
  { apply (withBuf_pins _ l (fun p => p :: l) (fun _ => l)). apply allocNonLeaf_pins. }
  intros newRootPid.
  eapply hoare_bind.
  { apply (hoare_modify_inv _ (fun s => pinned (bufOf s) = newRootPid :: l)).
    intros s Hs. exact Hs. }
  intros ?.
  eapply hoare_bind.
  { apply (withBuf_pins _ (newRootPid :: l) (fun _ => l) (fun _ => l)).
    eapply hoare_bind; [apply loadNonLeaf_pins|]. intros newRoot.
    eapply hoare_bind; [apply store_pins|]. intros ?.
    apply unPinPage_pins_head. }
  intros ?. apply updateRootPageNo_pins.
Qed.

Lemma insertEntry_pins l fuel key rid :
  hoare (fun s => pinned (bufOf s) = l) (insertEntry fuel key rid)
        (fun _ s => pinned (bufOf s) = l) (fun _ s => pinned (bufOf s) = l).
Proof.
  unfold insertEntry.
  eapply hoare_bind; [apply hoare_get_inv|]. intros s0.
  eapply hoare_bind.
  { apply (withBuf_pins _ l (fun _ => rootPageNum s0 :: l) (fun _ => l)).
    apply readPage_pins. }
  intros ?.
  eapply hoare_bind.
  { apply (withBuf_pins _ _ (fun _ => rootPageNum s0 :: l) (fun _ => l)).
    apply loadLevel_pins. }
  intros lvl. destruct (lvl =? -1)%Z.
  - eapply hoare_bind.
    { apply (withBuf_pins _ _ (fun _ => l) (fun _ => l)). apply unPinPage_pins_head. }
    intros ?.
    eapply hoare_bind.
    { apply (withBuf_pins _ _ (fun _ => l) (fun _ => l)). apply insertToLeaf_pins. }
    intros [[split mk] np]. destruct split.
    + apply growRoot_pins.
    + apply hoare_ret_inv.
  - eapply hoare_bind.
    { apply (withBuf_pins _ _ (fun _ => l) (fun _ => l)). apply unPinPage_pins_head. }
    intros ?.
    eapply hoare_bind.
    { apply (withBuf_pins _ _ (fun _ => l) (fun _ => l)). apply insertNode_pins. }
    intros [[split mk] np]. destruct split.
    + apply growRoot_pins.
    + apply hoare_ret_inv.
Qed.

(** X1. [insertEntry] leaves no pin behind: when it returns or throws, the pins
    held in the buffer manager are those held before the call. *)
Theorem insertEntry_unpins_all (fuel : nat) (key : Z) (rid : RecordId)
    (s s' : BTreeIndex) (o : Outcome unit) :
  insertEntry fuel key rid s = (o, s') ->
  o <> Undefined -> o <> OutOfFuel ->
  pinned (bufOf s') = pinned (bufOf s).
Proof.
  intros Hr Hu Hf.
  pose proof (insertEntry_pins (pinned (bufOf s)) fuel key rid s o s' eq_refl Hr) as Hh.
  destruct o; [exact Hh|exact Hh|congruence|congruence].
Qed.

End PinsIndex.

(** ** Pins of the scan operations *)

Lemma hoare_get_dep {St A} (P : St -> Prop) (k : St -> Op St A) Q E :
  (forall s0, P s0 -> hoare (fun s => s = s0) (k s0) Q E) -> hoare P (get ≫= k) Q E.
Proof.
  intros Hk s o s' HP. unfold mbind, Op_bind, get. intros Hr.
  exact (Hk s HP s o s' eq_refl Hr).
Qed.

Lemma onIndex_hoare {A} (m : Op BTreeIndex A) (P : BTreeIndex -> Prop) Q E :
  hoare P m Q E ->
  hoare (fun st : RecordId * BTreeIndex => P (snd st)) (onIndex m)
        (fun a st => Q a (snd st)) (fun e st => E e (snd st)).
Proof.
  intros Hm [r s] o [r' s'] HP. unfold onIndex. simpl in *.
  destruct (m s) as [o1 s1] eqn:Em. intros [= <- <- <-]. exact (Hm s o1 s1 HP Em).
Qed.

Lemma onIndex_get_dep {A} (P : RecordId * BTreeIndex -> Prop)
    (k : BTreeIndex -> Op (RecordId * BTreeIndex) A) Q E :
  (forall st0, P st0 -> hoare (fun st => st = st0) (k (snd st0)) Q E) ->
  hoare P (onIndex get ≫= k) Q E.
Proof.
  intros Hk [r s] o st' HP. unfold mbind, Op_bind, onIndex, get. simpl. intros Hr.
  exact (Hk (r, s) HP (r, s) o st' eq_refl Hr).
Qed.

Section PinsScan.
Implicit Type l : list PageId.

(** [readPage(file, currentPageNum, currentPageData)] adds a pin on the
    current page, or throws [InvalidPageException] without pinning. *)
Lemma readCurrentPage_pins l :
  hoare (fun s => pinned (bufOf s) = l) readCurrentPage
        (fun _ s => pinned (bufOf s) = currentPageNum s :: l)
        (fun e s => e = InvalidPageException /\ pinned (bufOf s) = l).
Proof.
  intros s o s' Hs. unfold readCurrentPage, mbind, Op_bind, get, modify, withBuf, readPage.
  unfold bufOf in Hs. destruct (bufMgr s) as [b|] eqn:Eb; [|intros [= <- <-]; exact I].
  simpl in Hs. destruct (lookupPage b (currentPageNum s)).
  - intros [= <- <-]. simpl. congruence.
  - intros [= <- <-]. unfold bufOf. simpl. auto.
Qed.

Lemma currentPage_keeps (P : BTreeIndex -> Prop) E :
  (forall s b, bufMgr s = Some b -> P s -> P (setBufMgr (Some b) s)) ->
  hoare P currentPage (fun _ s => P s) E.
Proof.
  intros HP s o s' Hs. unfold currentPage, mbind, Op_bind, get, withBuf, load.
  destruct (currentPageData s) as [pid|]; [|intros [= <- <-]; exact I].
  destruct (bufMgr s) as [b|] eqn:Eb; [|intros [= <- <-]; exact I].
  destruct (lookupPage b pid); intros [= <- <-]; [|exact I].
  apply HP; assumption.
Qed.

(** Unpinning the page that holds the newest pin never throws. *)
Lemma unpin_top l c d (P : BTreeIndex -> Prop) E :
  (forall s, P s -> pinned (bufOf s) = c :: l) ->
  hoare P (withBuf (unPinPage c d))
        (fun _ s => pinned (bufOf s) = l
                    /\ exists s0, P s0 /\ setBufMgr None s = setBufMgr None s0) E.
Proof.
  intros HP s o s' Hs. pose proof (HP s Hs) as Hp.
  unfold withBuf, unPinPage. unfold bufOf in Hp.
  destruct (bufMgr s) as [b|] eqn:Eb; [|intros [= <- <-]; exact I].
  simpl in Hp. rewrite decide_True by (rewrite Hp; left).
  intros [= <- <-]. split.
  - unfold bufOf. simpl. rewrite Hp. simpl. rewrite decide_True by reflexivity. reflexivity.
  - exists s. split; [exact Hs|reflexivity].
Qed.

End PinsScan.

Lemma hoare_pre {St A} (P P' : St -> Prop) (m : Op St A) Q E :
  (forall s, P s -> P' s) -> hoare P' m Q E -> hoare P m Q E.
Proof. intros HP Hm s o s' Hs. exact (Hm s o s' (HP s Hs)). Qed.

Lemma hoare_post {St A} (P : St -> Prop) (m : Op St A) (Q Q' : A -> St -> Prop) E :
  hoare P m Q' E -> (forall a s, Q' a s -> Q a s) -> hoare P m Q E.
Proof.
  intros Hm HQ s o s' Hs Hr. specialize (Hm s o s' Hs Hr). destruct o; auto.
Qed.

Lemma hoare_exc {St A} (P : St -> Prop) (m : Op St A) Q (E E' : Exception -> St -> Prop) :
  hoare P m Q E' -> (forall e s, E' e s -> E e s) -> hoare P m Q E.
Proof.
  intros Hm HE s o s' Hs Hr. specialize (Hm s o s' Hs Hr). destruct o; auto.
Qed.

Section PinsScanOps.
Context `{Layout}.
Implicit Type l : list PageId.

Lemma recursiveScanPageId_pins fuel l :
  hoare (fun s => pinned (bufOf s) = l) (recursiveScanPageId fuel)
        (fun _ s => pinned (bufOf s) = l) (fun _ s => pinned (bufOf s) = l).
Proof.
  induction fuel as [|fuel IH]; simpl; [apply hoare_outOfFuel|].
  eapply hoare_bind.
  { eapply hoare_exc; [apply readCurrentPage_pins|]. intros e s [_ Hs]. exact Hs. }
  intros ?.
  eapply hoare_bind.
  { apply (currentPage_keeps (fun s => pinned (bufOf s) = currentPageNum s :: l)).
    intros s b Eb Hs. unfold bufOf in *. rewrite Eb in Hs. exact Hs. }
  intros p. apply hoare_get_dep. intros s0 Hs0.
  destruct (isLeaf p) as [[|]|]; [| |apply hoare_undefined].
  - eapply hoare_post; [apply (unpin_top l)|].
    + intros s ->. exact Hs0.
    + intros ? s [Hs _]. exact Hs.
  - destruct p; try apply hoare_undefined.
    eapply hoare_bind.
    { eapply hoare_post; [apply (unpin_top l)|].
      - intros s ->. exact Hs0.
      - intros ? s [Hs _]. exact Hs. }
    intros ?.
    eapply hoare_bind; [apply hoare_modify_inv; intros s Hs; exact Hs|].
    intros ?. exact IH.
Qed.

Lemma endScan_pins l :
  hoare (fun s => pinned (bufOf s) = l) endScan
        (fun _ s => pinned (bufOf s) = l) (fun _ s => pinned (bufOf s) = l).
Proof.
  unfold endScan. apply hoare_get_dep. intros s0 Hs0.
  apply (hoare_pre _ (fun s => pinned (bufOf s) = l)); [intros s ->; exact Hs0|].
  destruct (negb (scanExecuting s0)); [apply hoare_throw_inv|].
  repeat (eapply hoare_bind; [apply hoare_modify_inv; intros s Hs; exact Hs|]; intros ?).
  apply hoare_modify_inv. intros s Hs. exact Hs.
Qed.

Lemma startScan_pins fuel lo lop hi hop l :
  hoare (fun s => pinned (bufOf s) = l) (startScan fuel lo lop hi hop)
        (fun _ s => pinned (bufOf s) = currentPageNum s :: l)
        (fun _ s => pinned (bufOf s) = l).
Proof.
  unfold startScan.
  eapply hoare_bind; [apply hoare_modify_inv; intros s Hs; exact Hs|]. intros ?.
  apply hoare_get_dep. intros s0 Hs0.
  apply (hoare_pre _ (fun s => pinned (bufOf s) = l)); [intros s ->; exact Hs0|].
  destruct (_ && _); [apply hoare_throw_inv|].
  destruct (_ && _); [apply hoare_throw_inv|].
  destruct (_ <? _)%Z; [apply hoare_throw_inv|].
  eapply hoare_bind.
  { destruct (scanExecuting s0); [apply endScan_pins|apply hoare_ret_inv]. }
  intros ?.
  eapply hoare_bind; [apply hoare_modify_inv; intros s Hs; exact Hs|]. intros ?.
  eapply hoare_bind; [apply recursiveScanPageId_pins|]. intros ?.
  eapply hoare_bind.
  { eapply hoare_exc; [apply readCurrentPage_pins|]. intros e s [_ Hs]. exact Hs. }
  intros ?.
  eapply hoare_bind.
  { apply (currentPage_keeps (fun s => pinned (bufOf s) = currentPageNum s :: l)).
    intros s b Eb Hs. unfold bufOf in *. rewrite Eb in Hs. exact Hs. }
  intros p. apply hoare_get_dep. intros s1 Hs1.
  destruct p; try apply hoare_undefined.
  destruct (startScan_loop _ _ _ _ _ _ _).
  - apply (hoare_pre _ (fun s => pinned (bufOf s) = currentPageNum s :: l));
      [intros s ->; exact Hs1|].
    eapply hoare_bind; [apply hoare_modify_inv; intros s Hs; exact Hs|]. intros ?.
    apply hoare_modify_inv. intros s Hs. exact Hs.
  - destruct (rightSibPageNo n =? 0).
    + eapply hoare_bind.
      { eapply hoare_post; [apply (unpin_top l)|].
        - intros s ->. exact Hs1.
        - intros ? s [Hs _]. exact Hs. }
      intros ?. apply hoare_throw_inv.
    + eapply hoare_bind.
      { eapply hoare_post; [apply (unpin_top l)|].
        - intros s ->. exact Hs1.
        - intros ? s [Hs _]. exact Hs. }
      intros ?.
      eapply hoare_bind; [apply hoare_modify_inv; intros s Hs; exact Hs|]. intros ?.
      eapply hoare_bind.
      { eapply hoare_exc; [apply readCurrentPage_pins|]. intros e s [_ Hs]. exact Hs. }
      intros ?.
      eapply hoare_bind; [apply hoare_modify_inv; intros s Hs; exact Hs|]. intros ?.
      apply hoare_modify_inv. intros s Hs. exact Hs.
  - eapply hoare_bind.
    { eapply hoare_post; [apply (unpin_top l)|].
      - intros s ->. exact Hs1.
      - intros ? s [Hs _]. exact Hs. }
    intros ?. apply hoare_throw_inv.
Qed.

(** X2. [startScan] that returns has added exactly one pin, on the page it made
    current; [startScan] that throws has added none.  The pins held before
    the call, the one of a scan that was running included, are all still
    held. *)
Theorem startScan_pins_one_leaf (fuel : nat) (lo hi : Z) (lop hop : Operator)
    (s s' : BTreeIndex) (o : Outcome unit) :
  startScan fuel lo lop hi hop s = (o, s') ->
  match o with
  | Ret _ => pinned (bufOf s') = currentPageNum s' :: pinned (bufOf s)
  | Throw _ => pinned (bufOf s') = pinned (bufOf s)
  | Undefined | OutOfFuel => True
  end.
Proof.
  intros Hr. exact (startScan_pins fuel lo lop hi hop (pinned (bufOf s)) s o s' eq_refl Hr).
Qed.

Lemma setOutRid_keeps (P : BTreeIndex -> Prop) x E :
  hoare (fun st : RecordId * BTreeIndex => P (snd st)) (setOutRid x)
        (fun _ st => P (snd st)) E.
Proof. intros [r s] o st' HP. unfold setOutRid. intros [= <- <-]. exact HP. Qed.

Lemma onIndex_never_throws {A} (m : Op BTreeIndex A) (P : BTreeIndex -> Prop)
    (Q : A -> BTreeIndex -> Prop) E :
  hoare P m Q (fun _ _ => False) ->
  hoare (fun st : RecordId * BTreeIndex => P (snd st)) (onIndex m)
        (fun a st => Q a (snd st)) E.
Proof.
  intros Hm. eapply hoare_exc; [apply onIndex_hoare, Hm|]. intros e st [].
Qed.

Lemma scanNext_pins (r : RecordId) (s : BTreeIndex) l :
  pinned (bufOf s) = currentPageNum s :: l ->
  hoare (fun st => st = (r, s)) scanNext
        (fun _ st => pinned (bufOf (snd st)) = currentPageNum (snd st) :: l)
        (fun e st => if decide (e = ScanNotInitializedException)
                     then st = (r, s)
                     else pinned (bufOf (snd st)) = l).
Proof.
  intros Hs. set (c := currentPageNum s).
  set (P2 := fun s1 : BTreeIndex => pinned (bufOf s1) = c :: l /\ currentPageNum s1 = c).
  assert (HP2 : P2 s) by (split; [exact Hs|reflexivity]).
  assert (Hunpin : forall d A (Q : A -> RecordId * BTreeIndex -> Prop) E
                     (k : Op (RecordId * BTreeIndex) A),
             hoare (fun st => pinned (bufOf (snd st)) = l) k Q E ->
             hoare (fun st => P2 (snd st)) (onIndex (withBuf (unPinPage c d)) ≫= fun _ => k)
                   Q E).
  { intros d A Q E k Hk. eapply hoare_bind; [|intros ?; exact Hk].
    apply (onIndex_never_throws _ P2 (fun _ s1 => pinned (bufOf s1) = l)).
    eapply hoare_post; [apply (unpin_top l c d P2)|].
    - intros s1 [H1 _]. exact H1.
    - intros ? s1 [H1 _]. exact H1. }
  unfold scanNext. apply onIndex_get_dep. intros st0 ->. cbn [snd].
  destruct (negb (scanExecuting s)).
  { apply hoare_throw. intros st ->. rewrite decide_True by reflexivity. reflexivity. }
  apply (hoare_pre _ (fun st => P2 (snd st))); [intros st ->; exact HP2|].
  eapply hoare_bind.
  { apply (onIndex_never_throws _ P2 (fun _ => P2)). apply currentPage_keeps.
    intros s1 b Eb [H1 H2]. split; [|exact H2].
    unfold bufOf in *. rewrite Eb in H1. exact H1. }
  intros p. destruct p; try apply hoare_undefined.
  eapply hoare_bind; [apply (setOutRid_keeps P2)|]. intros ?.
  cbv zeta. fold c.
  destruct (_ || _).
  { apply Hunpin. apply hoare_throw. intros st Hst.
    rewrite decide_False by discriminate. exact Hst. }
  eapply hoare_bind.
  { apply (onIndex_never_throws _ P2 (fun _ => P2)).
    apply hoare_modify_inv. intros s1 Hs1. exact Hs1. }
  intros ?.
  destruct (_ || _).
  - destruct (rightSibPageNo n =? 0).
    + apply Hunpin. apply hoare_throw. intros st Hst.
      rewrite decide_False by discriminate. exact Hst.
    + apply Hunpin.
      eapply hoare_bind.
      { apply (onIndex_never_throws _ (fun s1 => pinned (bufOf s1) = l)
                 (fun _ s1 => pinned (bufOf s1) = l)).
        apply hoare_modify_inv. intros s1 Hs1. exact Hs1. }
      intros ?.
      eapply hoare_bind.
      { eapply hoare_exc.
        - apply (onIndex_hoare _ _ _ _ (readCurrentPage_pins l)).
        - intros e st [-> Hst]. rewrite decide_False by discriminate. exact Hst. }
      intros ?.
      apply (onIndex_never_throws _ (fun s1 => pinned (bufOf s1) = currentPageNum s1 :: l)
               (fun _ s1 => pinned (bufOf s1) = currentPageNum s1 :: l)).
      apply hoare_modify_inv. intros s1 Hs1. exact Hs1.
  - apply hoare_ret. intros st [H1 H2]. rewrite H2. exact H1.
Qed.

(** X3. While the scan holds its one pin on the current page, a [scanNext] that
    returns still holds exactly that pin, on the page that is current
    afterwards; a [scanNext] that throws has released it, unless it threw
    [ScanNotInitializedException], which changes nothing. *)
Theorem scanNext_pin_follows_leaf (r r' : RecordId) (s s' : BTreeIndex)
    (l : list PageId) (o : Outcome unit) :
  pinned (bufOf s) = currentPageNum s :: l ->
  scanNext (r, s) = (o, (r', s')) ->
  match o with
  | Ret _ => pinned (bufOf s') = currentPageNum s' :: l
  | Throw e =>
      if decide (e = ScanNotInitializedException)
      then (r', s') = (r, s)
      else pinned (bufOf s') = l
  | Undefined | OutOfFuel => True
  end.
Proof.
  intros Hs Hr. exact (scanNext_pins r s l Hs (r, s) o (r', s') eq_refl Hr).
Qed.

End PinsScanOps.

(** ** Arguments that startScan rejects, calls without a scan *)

Section ScanErrors.
Context `{Layout}.

(** X4. [startScan] stores its four arguments before it checks them.  With an
    operator outside the allowed ones it throws [BadOpcodesException]; with
    allowed operators and [lowVal > highVal] it throws
    [BadScanrangeException].  In both cases nothing else has happened: the
    bounds of the call are in the index, a scan that was running is still
    running, no page was read. *)
Theorem startScan_rejects (fuel : nat) (lo hi : Z) (lop hop : Operator) (s : BTreeIndex) :
  ((lop <> GT /\ lop <> GTE) \/ (hop <> LT /\ hop <> LTE) ->
   startScan fuel lo lop hi hop s
   = (Throw BadOpcodesException, setScanRange lo lop hi hop s))
  /\ ((lop = GT \/ lop = GTE) -> (hop = LT \/ hop = LTE) -> (hi < lo)%Z ->
      startScan fuel lo lop hi hop s
      = (Throw BadScanrangeException, setScanRange lo lop hi hop s)).
Proof.
  split.
  - intros Hbad. unfold startScan.
    erewrite bind_run by reflexivity. erewrite bind_run by reflexivity.
    cbn [lowOp highOp setScanRange].
    destruct lop, hop; try reflexivity; exfalso; destruct Hbad as [[? ?]|[? ?]]; congruence.
  - intros Hl Hh Hlt. unfold startScan.
    erewrite bind_run by reflexivity. erewrite bind_run by reflexivity.
    cbn [lowOp highOp lowValInt highValInt setScanRange].
    apply Z.ltb_lt in Hlt. 
    destruct Hl as [-> | ->], Hh as [-> | ->]; cbn [bool_decide andb]; 
      simpl; rewrite Hlt; reflexivity.
Qed.

(** X5. After [endScan] has ended a scan, a second [endScan] and any [scanNext]
    throw [ScanNotInitializedException] and leave the index and the caller's
    [outRid] as they are. *)
Theorem endScan_then_not_initialized (s : BTreeIndex) :
  scanExecuting s = true ->
  exists s',
    endScan s = (Ret tt, s')
    /\ endScan s' = (Throw ScanNotInitializedException, s')
    /\ forall outRid, scanNext (outRid, s') = (Throw ScanNotInitializedException, (outRid, s')).
Proof.
  intros Hs. eexists. split; [|split].
  - unfold endScan. erewrite bind_run by reflexivity. rewrite Hs. reflexivity.
  - reflexivity.
  - intros outRid. reflexivity.
Qed.

End ScanErrors.

(** ** findNonLeafIndex *)

Section FindIndex.
Context `{Layout}.

Lemma findNonLeafIndex_loop_spec (node : NonLeafNodeInt) (key : Z) (n idx : nat) :
  let r := fst (findNonLeafIndex_loop n node key idx) in
  idx <= r
  /\ (forall j, idx <= j -> j < r ->
        getPid (pageNoArray node) (j + 1) <> 0
        /\ (getKey (keyArray node) j < key)%Z
        /\ j < INTARRAYNONLEAFSIZE)
  /\ (INTARRAYNONLEAFSIZE - idx < n -> r < INTARRAYNONLEAFSIZE ->
        getPid (pageNoArray node) (r + 1) = 0
        \/ (key <= getKey (keyArray node) r)%Z).
Proof.
  revert idx. induction n as [|n IH]; intros idx; simpl.
  - split; [lia|]. split; [intros j; lia|]. lia.
  - destruct (negb (getPid (pageNoArray node) (idx + 1) =? 0)) eqn:Ep;
    [destruct (getKey (keyArray node) idx <? key)%Z eqn:Ek;
     [destruct (idx <? INTARRAYNONLEAFSIZE) eqn:Ei|]|]; simpl.
    + specialize (IH (S idx)).
      destruct (findNonLeafIndex_loop n node key (S idx)) as [r reads]. simpl in *.
      destruct IH as (Hle & Hbelow & Hstop).
      apply negb_true_iff, Nat.eqb_neq in Ep. apply Z.ltb_lt in Ek. apply Nat.ltb_lt in Ei.
      split; [lia|]. split.
      * intros j Hj Hjr. destruct (decide (j = idx)) as [->|]; [auto|]. apply Hbelow; lia.
      * intros Hn Hr. apply Hstop; lia.
    + apply Nat.ltb_ge in Ei. split; [lia|]. split; [intros j; lia|]. lia.
    + apply Z.ltb_ge in Ek. split; [lia|]. split; [intros j; lia|]. auto.
    + apply negb_false_iff, Nat.eqb_eq in Ep. split; [lia|]. split; [intros j; lia|]. auto.
Qed.

(** X6. [findNonLeafIndex] returns the least index at which the search stops: it
    is at most [INTARRAYNONLEAFSIZE], so [pageNoArray] can be read at it;
    every slot below it has a child on its right and a key below the search
    key; and if it is below [INTARRAYNONLEAFSIZE], the slot at it has no child
    on its right or a key not below the search key.  Keys equal to a
    separator go to the left of it. *)
Theorem findNonLeafIndex_least (node : NonLeafNodeInt) (key : Z) :
  let r := findNonLeafIndex node key in
  r <= INTARRAYNONLEAFSIZE
  /\ (forall j, j < r ->
        getPid (pageNoArray node) (j + 1) <> 0 /\ (getKey (keyArray node) j < key)%Z)
  /\ (r < INTARRAYNONLEAFSIZE ->
        getPid (pageNoArray node) (r + 1) = 0 \/ (key <= getKey (keyArray node) r)%Z).
Proof.
  unfold findNonLeafIndex.
  destruct (findNonLeafIndex_loop_spec node key (S INTARRAYNONLEAFSIZE) 0)
    as (_ & Hbelow & Hstop).
  cbv zeta. set (r := fst _) in *. split; [|split].
  - destruct r as [|r']; [lia|]. destruct (Hbelow r') as (_ & _ & Hlt); lia.
  - intros j Hj. destruct (Hbelow j) as (Hp & Hk & _); auto; lia.
  - intros Hr. apply Hstop; lia.
Qed.

End FindIndex.

(** ** printNode *)

Lemma lookupPage_pages (b' b : BufMgr) (pid : PageId) :
  pages b' = pages b -> lookupPage b' pid = lookupPage b pid.
Proof. intros Hp. unfold lookupPage. rewrite Hp. reflexivity. Qed.

Section PrintNode.
Context `{Layout}.

Lemma printLeaf_loop_occupied (pid : PageId) (leaf : LeafNodeInt) (n i : nat) :
  length (leafKeyArray leaf) = i + n ->
  length (ridArray leaf) = i + n ->
  printLeaf_loop n pid leaf i
  = imap (fun j e => (pid, i + j, fst e))
         (occupiedSlots (drop i (leafKeyArray leaf)) (drop i (ridArray leaf))).
Proof.
  revert i. induction n as [|n IH]; intros i Hk Hr.
  - rewrite drop_ge by lia. reflexivity.
  - destruct (lookup_lt_is_Some_2 (leafKeyArray leaf) i) as [k Ek]; [lia|].
    destruct (lookup_lt_is_Some_2 (ridArray leaf) i) as [r Er]; [lia|].
    rewrite (drop_S _ _ _ Ek), (drop_S _ _ _ Er).
    cbn [printLeaf_loop occupiedSlots]. unfold getRid, getKey. rewrite Ek, Er. simpl.
    destruct (page_number r =? 0); simpl; [reflexivity|].
    rewrite Nat.add_0_r. f_equal.
    rewrite IH by lia. apply imap_ext. intros j e _. simpl. f_equal. f_equal. lia.
Qed.

Lemma printNonLeaf_loop_children (pid : PageId) (node : NonLeafNodeInt) (n i : nat) :
  length (keyArray node) = i + n ->
  length (pageNoArray node) = S (i + n) ->
  printNonLeaf_loop n pid node i
  = imap (fun j e => (pid, i + j, fst e))
         (occupiedChildren (drop i (keyArray node)) (drop (S i) (pageNoArray node))).
Proof.
  revert i. induction n as [|n IH]; intros i Hk Hp.
  - rewrite (drop_ge (keyArray node)) by lia. reflexivity.
  - destruct (lookup_lt_is_Some_2 (keyArray node) i) as [k Ek]; [lia|].
    destruct (lookup_lt_is_Some_2 (pageNoArray node) (S i)) as [p Ep]; [lia|].
    rewrite (drop_S _ _ _ Ek), (drop_S _ _ _ Ep).
    cbn [printNonLeaf_loop occupiedChildren]. unfold getPid, getKey.
    replace (i + 1) with (S i) by lia. rewrite Ek, Ep. simpl.
    destruct (p =? 0); simpl; [reflexivity|].
    rewrite Nat.add_0_r. f_equal.
    rewrite IH by lia. apply imap_ext. intros j e _. simpl. f_equal. f_equal. lia.
Qed.

(** X7. [printNode] on a leaf prints one line per entry of the leaf, in slot
    order, with the slot index and the key; on an internal node one line per
    separator that has a child on its right.  It returns with the buffer
    manager as it was: the page is unpinned clean. *)
Theorem printNode_prints_entries (pid : PageId) (out : list (PageId * nat * Z))
    (s : BTreeIndex) (b : BufMgr) (p : Page) :
  bufMgr s = Some b ->
  lookupPage b pid = Some p ->
  match p with
  | LeafPage leaf =>
      leafLevel leaf = (-1)%Z ->
      length (leafKeyArray leaf) = INTARRAYLEAFSIZE ->
      length (ridArray leaf) = INTARRAYLEAFSIZE ->
      printNode pid (out, s)
      = (Ret tt, (out ++ imap (fun j e => (pid, j, fst e)) (occupied leaf),
                  setBufMgr (Some (mkBuf (pages b) (pinned b) (dirty b))) s))
  | NonLeafPage node =>
      level node <> (-1)%Z ->
      length (keyArray node) = INTARRAYNONLEAFSIZE ->
      length (pageNoArray node) = S INTARRAYNONLEAFSIZE ->
      printNode pid (out, s)
      = (Ret tt, (out ++ imap (fun j e => (pid, j, fst e)) (children node),
                  setBufMgr (Some (mkBuf (pages b) (pinned b) (dirty b))) s))
  | _ => True
  end.
Proof.
  intros Hb Hp. destruct p as [| |leaf|node]; try exact I.
  - intros Hl Hk Hr. unfold printNode.
    erewrite bind_run; cycle 1.
    { unfold onIndexOut, withBuf, readPage. cbn [snd fst]. rewrite Hb, Hp. reflexivity. }
    erewrite bind_run; cycle 1.
    { unfold onIndexOut, withBuf, load. cbn [snd fst bufMgr setBufMgr].
      rewrite (lookupPage_pages _ b) by reflexivity. rewrite Hp. reflexivity. }
    unfold isLeaf. cbn [pageLevel]. rewrite Hl. cbn [Z.eqb Pos.eqb].
    erewrite bind_run by reflexivity.
    unfold onIndexOut, withBuf, unPinPage. cbn [snd fst bufMgr setBufMgr pinned pages dirty].
    rewrite decide_True by left. cbn [removeOne]. rewrite decide_True by reflexivity.
    rewrite (printLeaf_loop_occupied pid leaf INTARRAYLEAFSIZE 0) by (simpl; assumption).
    reflexivity.
  - intros Hl Hk Hr. unfold printNode.
    erewrite bind_run; cycle 1.
    { unfold onIndexOut, withBuf, readPage. cbn [snd fst]. rewrite Hb, Hp. reflexivity. }
    erewrite bind_run; cycle 1.
    { unfold onIndexOut, withBuf, load. cbn [snd fst bufMgr setBufMgr].
      rewrite (lookupPage_pages _ b) by reflexivity. rewrite Hp. reflexivity. }
    unfold isLeaf. cbn [pageLevel].
    replace (level node =? -1)%Z with false by (symmetry; apply Z.eqb_neq; exact Hl).
    erewrite bind_run by reflexivity.
    unfold onIndexOut, withBuf, unPinPage. cbn [snd fst bufMgr setBufMgr pinned pages dirty].
    rewrite decide_True by left. cbn [removeOne]. rewrite decide_True by reflexivity.
    rewrite (printNonLeaf_loop_children pid node INTARRAYNONLEAFSIZE 0) by (simpl; assumption).
    unfold children. destruct (pageNoArray node) as [|p0 ps]; [discriminate|]. reflexivity.
Qed.

End PrintNode.

(** ** Building a new index *)

Section Build.
Context `{Layout}.
Variable flushFile : Op BufMgr unit.

(** The run of the constructor's create branch up to the bulk load. *)
Lemma constructor_create_run (disk : gmap string (list Page)) (relName : string)
    (offset : Z) (ty : Datatype) (fileScan : list (RecordId * Z)) (fuel : nat) :
  disk !! indexName relName offset = None ->
  constructor flushFile disk relName offset ty fileScan fuel
  = (indexName relName offset,
     bulkLoad flushFile fuel fileScan
       (mkIndex (Some (indexName relName offset))
          (Some (mkBuf [MetaPage (mkMeta (copyRelationName relName) offset ty 2);
                        LeafPage (mkLeaf (-1) (replicate INTARRAYLEAFSIZE 0%Z)
                                         (replicate INTARRAYLEAFSIZE zeroRid) 0)]
                       [] [2; 1]))
          1 2 false 0 0 None 0 0 LT LT)).
Proof.
  intros E. unfold constructor, constructorBody. f_equal.
  erewrite bind_run by reflexivity.
  unfold tryCatch.
  replace ((openBlobFile disk (indexName relName offset) ≫= _) _)
    with (Throw FileNotFoundException : Outcome unit,
          setScanExecuting false rawIndex).
  2:{ unfold mbind, Op_bind, openBlobFile. rewrite E. reflexivity. }
  rewrite decide_True by reflexivity.
  erewrite bind_run by reflexivity.
  erewrite bind_run by reflexivity.
  erewrite bind_run by reflexivity.
  erewrite bind_run by reflexivity.
  erewrite bind_run by reflexivity.
  erewrite bind_run by reflexivity.
  erewrite bind_run by reflexivity.
  erewrite bind_run by reflexivity.
  reflexivity.
Qed.


End Build.

(** ** What insertEntry leaves alone *)

Lemma withBuf_scanMembers {A} (m : Op BufMgr A) : preserves scanMembers (withBuf m).
Proof.
  intros s o s'. unfold withBuf. destruct (bufMgr s) as [b|].
  - destruct (m b) as [o1 b1]. intros [= <- <-]. reflexivity.
  - intros [= <- <-]. reflexivity.
Qed.

Section InsertFrame.
Context `{Layout}.

Lemma insertEntry_scanMembers fuel key rid : preserves scanMembers (insertEntry fuel key rid).
Proof.
  unfold insertEntry, growRoot, updateRootPageNo.
  repeat first
    [ apply preserves_bind; [ | intros ? ]
    | apply preserves_ret
    | apply preserves_get
    | apply preserves_modify; intros ?; reflexivity
    | apply withBuf_scanMembers
    | match goal with
      | |- preserves _ (match ?x with _ => _ end) => destruct x
      end ].
Qed.

(** X9. [insertEntry] never touches the scan: the scan flag, the position, the
    current page, the bounds and operators, the file handle and the header
    page number are after the call what they were before, however it ends. *)
Theorem insertEntry_keeps_scan_state (fuel : nat) (key : Z) (rid : RecordId)
    (s : BTreeIndex) :
  scanMembers (snd (insertEntry fuel key rid s)) = scanMembers s.
Proof.
  destruct (insertEntry fuel key rid s) as [o s'] eqn:E.
  exact (insertEntry_scanMembers fuel key rid s o s' E).
Qed.

End InsertFrame.

(** ** Lists: shifting entries and the occupied prefix *)

Lemma occupiedSlots_by ks rs :
  occupiedSlots ks rs = occupiedBy (fun r => page_number r =? 0) ks rs.
Proof.
  revert rs. induction ks as [|k ks IH]; intros [|r rs]; simpl; try reflexivity.
  rewrite IH. reflexivity.
Qed.

Lemma occupiedChildren_by ks ps :
  occupiedChildren ks ps = occupiedBy (fun p => p =? 0) ks ps.
Proof.
  revert ps. induction ks as [|k ks IH]; intros [|p ps]; simpl; try reflexivity.
  rewrite IH. reflexivity.
Qed.

Section Occupied.
Context {V : Type} (isEmpty : V -> bool).

(** Cutting the arrays at or after the end of the occupied prefix does not
    change the prefix. *)
Lemma occupiedBy_take ks vs m :
  length (occupiedBy isEmpty ks vs) <= m ->
  occupiedBy isEmpty (take m ks) (take m vs) = occupiedBy isEmpty ks vs.
Proof.
  revert vs m. induction ks as [|k ks IH]; intros [|x vs] m; simpl.
  - rewrite !take_nil. reflexivity.
  - rewrite take_nil. reflexivity.
  - rewrite take_nil. destruct (take m (k :: ks)); reflexivity.
  - destruct (isEmpty x) eqn:Ex.
    + intros _. destruct m; simpl; [reflexivity|]. rewrite Ex. reflexivity.
    + simpl. intros Hm. destruct m as [|m]; [lia|]. simpl. rewrite Ex.
      rewrite IH by lia. reflexivity.
Qed.

(** The arrays after the shift and the write at slot [i], read as entries:
    if the slots below [i] are occupied by keys not above [key], and slot [i]
    is empty or holds a larger key, the result is the sorted placement. *)
Lemma placed_occupied (key : Z) (v : V) (ks : list Z) (vs : list V) (i q : nat) :
  isEmpty v = false ->
  (forall j, j < i -> exists k x,
      ks !! j = Some k /\ vs !! j = Some x /\ isEmpty x = false /\ (k <= key)%Z) ->
  (exists k x, ks !! i = Some k /\ vs !! i = Some x
               /\ (isEmpty x = true \/ (key < k)%Z)) ->
  length (occupiedBy isEmpty ks vs) <= i + q ->
  occupiedBy isEmpty (take i ks ++ key :: take q (drop i ks))
                     (take i vs ++ v :: take q (drop i vs))
  = placeEntry key v (occupiedBy isEmpty ks vs).
Proof.
  intros Hv. revert ks vs. induction i as [|i IH]; intros ks vs Hbelow Hstop Hlen.
  - destruct Hstop as (k & x & Ek & Ex & Hstop).
    destruct ks as [|k' ks]; [discriminate|]. destruct vs as [|x' vs]; [discriminate|].
    injection Ek as ->. injection Ex as ->.
    rewrite !take_0, !drop_0. cbn [app occupiedBy]. rewrite Hv.
    rewrite occupiedBy_take by exact Hlen. simpl.
    destruct (isEmpty x) eqn:Ee; [reflexivity|].
    destruct Hstop as [?|Hk]; [discriminate|].
    apply Z.ltb_lt in Hk. simpl. rewrite Hk. reflexivity.
  - destruct (Hbelow 0) as (k & x & Ek & Ex & Hne & Hk); [lia|].
    destruct ks as [|k' ks]; [discriminate|]. destruct vs as [|x' vs]; [discriminate|].
    injection Ek as ->. injection Ex as ->.
    cbn [take drop app occupiedBy]. rewrite Hne. simpl in Hlen. rewrite Hne in Hlen.
    simpl in Hlen. rewrite IH.
    + simpl. replace (key <? k)%Z with false by (symmetry; apply Z.ltb_ge; exact Hk).
      reflexivity.
    + intros j Hj. destruct (Hbelow (S j)) as (k2 & x2 & ? & ? & ? & ?); [lia|].
      exists k2, x2. auto.
    + destruct Hstop as (k2 & x2 & ? & ? & ?). exists k2, x2. auto.
    + lia.
Qed.

End Occupied.

(** Placement keeps every entry and keeps the keys in order. *)
Lemma placeEntry_perm {V} (key : Z) (v : V) (l : list (Z * V)) :
  placeEntry key v l ≡ₚ (key, v) :: l.
Proof.
  induction l as [|[k x] l IH]; simpl; [reflexivity|].
  destruct (key <? k)%Z; [reflexivity|].
  rewrite IH. apply Permutation_swap.
Qed.

Lemma placeEntry_sorted {V} (key : Z) (v : V) (l : list (Z * V)) :
  StronglySorted Z.le (map fst l) -> StronglySorted Z.le (map fst (placeEntry key v l)).
Proof.
  induction l as [|[k x] l IH]; simpl; intros Hs.
  - repeat constructor.
  - inversion Hs as [|? ? Hs' Hall]; subst.
    destruct (key <? k)%Z eqn:E.
    + apply Z.ltb_lt in E. simpl. constructor; [exact Hs|].
      constructor; [lia|]. eapply Forall_impl; [exact Hall|]. simpl. intros; lia.
    + apply Z.ltb_ge in E. simpl. constructor; [apply IH, Hs'|].
      rewrite (placeEntry_perm key v l). simpl. constructor; [exact E|exact Hall].
Qed.

(** The shifting loop [while (j > i) { a[j] = a[j-1]; j--; }] started at
    [j = i + n] keeps cells [0..i], copies cells [i..i+n-1] one place up and
    keeps the cells after [i + n]. *)
Ltac moveBackward_closed get :=
  let n := fresh "n" in let IH := fresh "IH" in let a := fresh "a" in
  let H := fresh "H" in let x := fresh "x" in let Ex := fresh "Ex" in
  let y := fresh "y" in let Ey := fresh "Ey" in
  intros n; induction n as [|n IH]; intros i a H;
  [ simpl; rewrite Nat.add_0_r; apply eq_sym, take_drop
  | cbn -[take drop];
    destruct (lookup_lt_is_Some_2 a (i + n)) as [x Ex]; [lia|];
    destruct (lookup_lt_is_Some_2 a (i + S n)) as [y Ey]; [lia|];
    rewrite IH by (rewrite length_insert; lia);
    replace (i + S n - 1) with (i + n) by lia;
    unfold get; rewrite Ex; cbn [default];
    rewrite take_insert_ge by lia;
    rewrite (drop_insert_ge _ i) by lia;
    rewrite take_insert_ge by lia;
    rewrite (drop_insert_ge _ (S (i + n))) by lia;
    replace (i + S n - S (i + n)) with 0 by lia;
    rewrite (drop_S a y (S (i + n))) by (rewrite <- Ey; f_equal; lia);
    rewrite (take_S_r (drop i a) n x) by (rewrite lookup_drop; exact Ex);
    cbn [insert list_insert]; rewrite <- !app_assoc;
    replace (S (i + S n)) with (S (S (i + n))) by lia; reflexivity ].

Lemma moveBackwardKeys_closed : forall n i (a : list Z),
  i + n < length a ->
  moveBackwardKeys n i a = take (S i) a ++ take n (drop i a) ++ drop (S (i + n)) a.
Proof. moveBackward_closed getKey. Qed.

Lemma moveBackwardRids_closed : forall n i (a : list RecordId),
  i + n < length a ->
  moveBackwardRids n i a = take (S i) a ++ take n (drop i a) ++ drop (S (i + n)) a.
Proof. moveBackward_closed getRid. Qed.

Lemma moveBackwardPids_closed : forall n i (a : list PageId),
  i + n < length a ->
  moveBackwardPids n i a = take (S i) a ++ take n (drop i a) ++ drop (S (i + n)) a.
Proof. moveBackward_closed getPid. Qed.

(** Shift from [i] to the end of the array, then write [x] at [i]. *)
Lemma shifted_insert {A} (x : A) (a : list A) (i : nat) :
  i < length a ->
  <[i := x]> (take (S i) a ++ take (length a - 1 - i) (drop i a)
              ++ drop (S (i + (length a - 1 - i))) a)
  = take i a ++ x :: take (length a - 1 - i) (drop i a).
Proof.
  intros Hi. destruct (lookup_lt_is_Some_2 a i Hi) as [y Ey].
  rewrite (drop_ge a (S _)) by lia. rewrite app_nil_r.
  rewrite (take_S_r a i y Ey). rewrite <- app_assoc.
  rewrite insert_app_r_alt by (rewrite length_take; lia).
  rewrite length_take. replace (i - i `min` length a) with 0 by lia.
  reflexivity.
Qed.

Section OccupiedMore.
Context {V : Type} (isEmpty : V -> bool).

Lemma occupiedBy_stop ks vs :
  length ks = length vs ->
  length (occupiedBy isEmpty ks vs) < length vs ->
  exists k x, ks !! length (occupiedBy isEmpty ks vs) = Some k
              /\ vs !! length (occupiedBy isEmpty ks vs) = Some x /\ isEmpty x = true.
Proof.
  revert vs. induction ks as [|k ks IH]; intros [|x vs]; simpl; try lia.
  destruct (isEmpty x) eqn:Ex; simpl; [exists k, x; auto|].
  intros Hl Hn. apply IH; lia.
Qed.

(** An array that is full of occupied slots is read back whole. *)
Lemma occupiedBy_full ks vs :
  length ks = length vs ->
  Forall (fun x => isEmpty x = false) vs ->
  occupiedBy isEmpty ks vs = zip ks vs.
Proof.
  revert vs. induction ks as [|k ks IH]; intros [|x vs]; simpl; try reflexivity.
  intros Hl Hf. inversion Hf as [|? ? Hx Hf']; subst. rewrite Hx.
  rewrite IH by (auto; lia). reflexivity.
Qed.

(** Slots after the shifted region were slots after the old occupied
    prefix. *)
Lemma shifted_rest (P : V -> Prop) (v : V) (vs : list V) (i q n : nat) :
  i <= n ->
  Forall P (drop n vs) ->
  Forall P (drop (S n) (take i vs ++ v :: take q (drop i vs))).
Proof.
  intros Hi Hf.
  destruct (decide (i <= length vs)) as [Hl|Hl].
  - rewrite drop_app_ge by (rewrite length_take; lia).
    rewrite length_take. replace (S n - i `min` length vs) with (S (n - i)) by lia.
    cbn [drop]. rewrite Forall_lookup. intros j x Ej.
    rewrite lookup_drop in Ej. apply lookup_take_Some in Ej as [Ej _].
    rewrite lookup_drop in Ej.
    rewrite Forall_lookup in Hf. apply (Hf (j + (n - i) + i - n)).
    rewrite lookup_drop. rewrite <- Ej. f_equal. lia.
  - rewrite (drop_ge vs i) by lia. rewrite take_nil.
    rewrite drop_ge; [constructor|].
    rewrite length_app, length_take. simpl. lia.
Qed.

End OccupiedMore.

(** ** insertToLeaf on a leaf with a free slot *)

Section LeafInsert.
Context `{Layout}.

Lemma leafFull_loop_le n node next e :
  next <= e -> e < next + n ->
  page_number (getRid (ridArray node) e) = 0 ->
  fst (leafFull_loop n node next) <= e.
Proof.
  revert next. induction n as [|n IH]; intros next Hle Hlt He; [lia|].
  simpl.
  destruct (negb (page_number (getRid (ridArray node) next) =? 0)
            && (next <? INTARRAYLEAFSIZE)) eqn:Ec.
  - destruct (leafFull_loop n node (S next)) as [r reads] eqn:El. simpl.
    assert (next <> e).
    { intros ->. rewrite He in Ec. discriminate. }
    specialize (IH (S next)). rewrite El in IH. apply IH; [lia|lia|exact He].
  - simpl. exact Hle.
Qed.

(** The placing loop stops at the first slot that is empty or holds a larger
    key, and leaves the arrays shifted from there with the entry written. *)
Lemma leafPlace_loop_shape n key rid node i0 e :
  length (leafKeyArray node) = INTARRAYLEAFSIZE ->
  length (ridArray node) = INTARRAYLEAFSIZE ->
  i0 + n = INTARRAYLEAFSIZE ->
  i0 <= e -> e < INTARRAYLEAFSIZE ->
  page_number (getRid (ridArray node) e) = 0 ->
  exists i, i0 <= i /\ i <= e
    /\ (forall j, i0 <= j -> j < i ->
          page_number (getRid (ridArray node) j) <> 0
          /\ (getKey (leafKeyArray node) j <= key)%Z)
    /\ (page_number (getRid (ridArray node) i) = 0
        \/ (key < getKey (leafKeyArray node) i)%Z)
    /\ leafPlace_loop n key rid node i0 =
         mkLeaf (leafLevel node)
           (take i (leafKeyArray node)
              ++ key :: take (INTARRAYLEAFSIZE - 1 - i) (drop i (leafKeyArray node)))
           (take i (ridArray node)
              ++ rid :: take (INTARRAYLEAFSIZE - 1 - i) (drop i (ridArray node)))
           (rightSibPageNo node).
Proof.
  intros Hk Hr. revert i0. induction n as [|n IH]; intros i0 Hn Hle Hlt He; [lia|].
  simpl.
  destruct ((page_number (getRid (ridArray node) i0) =? 0)
            || (key <? getKey (leafKeyArray node) i0)%Z) eqn:Ec.
  - exists i0. split; [lia|]. split; [exact Hle|]. split; [intros; lia|]. split.
    + apply orb_true_iff in Ec as [Ec|Ec]; [left|right].
      * apply Nat.eqb_eq. exact Ec.
      * apply Z.ltb_lt. exact Ec.
    + rewrite moveBackwardKeys_closed by lia. rewrite moveBackwardRids_closed by lia.
      f_equal.
      * rewrite <- Hk at 1 2. rewrite shifted_insert by lia. rewrite Hk. reflexivity.
      * rewrite <- Hr at 1 2. rewrite shifted_insert by lia. rewrite Hr. reflexivity.
  - apply orb_false_iff in Ec as [Ec1 Ec2].
    apply Nat.eqb_neq in Ec1. apply Z.ltb_ge in Ec2.
    assert (i0 <> e) by (intros ->; contradiction).
    destruct (IH (S i0)) as (i & H1 & H2 & H3 & H4 & H5); [lia|lia|lia|exact He|].
    exists i. split; [lia|]. split; [exact H2|]. split; [|split; [exact H4|exact H5]].
    intros j Hj1 Hj2. destruct (decide (j = i0)) as [->|Hne]; [auto|].
    apply H3; lia.
Qed.

End LeafInsert.

Section LeafInsertRun.
Context `{Layout}.

(** The run of the two branches of [insertToLeaf] that do not split. *)
Lemma insertToLeaf_stores key rid pid midKey newPid b node :
  lookupPage b pid = Some (LeafPage node) ->
  leafFull_next node <> INTARRAYLEAFSIZE ->
  insertToLeaf key rid pid midKey newPid b =
    (Ret (false, midKey, newPid),
     mkBuf (<[pid - 1 :=
              LeafPage (if page_number (getRid (ridArray node) 0) =? 0
                        then mkLeaf (leafLevel node) (<[0 := key]> (leafKeyArray node))
                                    (<[0 := rid]> (ridArray node)) (rightSibPageNo node)
                        else leafPlace_loop INTARRAYLEAFSIZE key rid node 0)]> (pages b))
           (pinned b) (pid :: dirty b)).
Proof.
  intros Ep Hn. destruct pid as [|p]; [discriminate|].
  pose proof Ep as Ep'. simpl in Ep'. pose proof (lookup_lt_Some _ _ _ Ep') as Hlt.
  unfold insertToLeaf.
  rewrite (bind_run _ _ _ _ _ (returns_readPage _ _ _ Ep)).
  assert (El : returns (loadLeaf (S p))
                 (mkBuf (pages b) (S p :: pinned b) (dirty b)) node
                 (mkBuf (pages b) (S p :: pinned b) (dirty b))).
  { unfold loadLeaf. eapply returns_bind; [eapply returns_load; exact Ep|apply returns_ret]. }
  rewrite (bind_run _ _ _ _ _ El). cbv beta zeta.
  apply Nat.eqb_neq in Hn. rewrite Hn.
  replace (S p - 1) with p by lia.
  destruct (page_number (getRid (ridArray node) 0) =? 0).
  - erewrite bind_run by (apply returns_store; exact Hlt).
    erewrite bind_run by (apply returns_unPinPage; simpl; left).
    simpl. rewrite decide_True by reflexivity. reflexivity.
  - erewrite bind_run by (apply returns_store; exact Hlt).
    erewrite bind_run by (apply returns_unPinPage; simpl; left).
    simpl. rewrite decide_True by reflexivity. reflexivity.
Qed.

(** The index right after the occupied prefix of a leaf holds an empty
    slot. *)
Lemma occupied_stop node :
  length (leafKeyArray node) = length (ridArray node) ->
  length (occupied node) < length (ridArray node) ->
  page_number (getRid (ridArray node) (length (occupied node))) = 0.
Proof.
  intros Hl Hn. unfold occupied in *. rewrite occupiedSlots_by in *.
  destruct (occupiedBy_stop _ _ _ Hl Hn) as (k & x & _ & Ex & Hx).
  unfold getRid. rewrite Ex. simpl. apply Nat.eqb_eq. exact Hx.
Qed.

End LeafInsertRun.

Section LeafInsertSpec.
Context `{Layout}.

(** What the non-splitting branches write, read as entries. *)
Lemma leaf_placed key rid node :
  length (leafKeyArray node) = INTARRAYLEAFSIZE ->
  length (ridArray node) = INTARRAYLEAFSIZE ->
  length (occupied node) < INTARRAYLEAFSIZE ->
  Forall (fun r => page_number r = 0) (drop (length (occupied node)) (ridArray node)) ->
  page_number rid <> 0 ->
  let node' :=
    if page_number (getRid (ridArray node) 0) =? 0
    then mkLeaf (leafLevel node) (<[0 := key]> (leafKeyArray node))
                (<[0 := rid]> (ridArray node)) (rightSibPageNo node)
    else leafPlace_loop INTARRAYLEAFSIZE key rid node 0 in
  occupied node' = placeEntry key rid (occupied node)
  /\ length (leafKeyArray node') = INTARRAYLEAFSIZE
  /\ length (ridArray node') = INTARRAYLEAFSIZE
  /\ Forall (fun r => page_number r = 0) (drop (length (occupied node')) (ridArray node'))
  /\ leafLevel node' = leafLevel node
  /\ rightSibPageNo node' = rightSibPageNo node.
Proof.
  intros Hk Hr Hn Hc Hrid.
  assert (Erid : (page_number rid =? 0) = false) by (apply Nat.eqb_neq; exact Hrid).
  pose proof (occupied_stop node ltac:(lia) ltac:(lia)) as Hstop.
  destruct (page_number (getRid (ridArray node) 0) =? 0) eqn:E0.
  - (* the first slot is empty: the leaf is empty *)
    apply Nat.eqb_eq in E0.
    destruct (leafKeyArray node) as [|k ks] eqn:Eks; [simpl in Hk; lia|].
    destruct (ridArray node) as [|r rs] eqn:Ers; [simpl in Hr; lia|].
    unfold getRid in E0. simpl in E0.
    assert (Eo : occupied node = []).
    { unfold occupied. rewrite Eks, Ers. simpl.
      replace (page_number r =? 0) with true by (symmetry; apply Nat.eqb_eq; exact E0).
      reflexivity. }
    rewrite Eo in *. simpl in Hc. intros node'. subst node'.
    unfold occupied. cbn [leafKeyArray ridArray leafLevel rightSibPageNo insert list_insert].
    inversion Hc as [|? ? _ Hc']; subst.
    assert (Et : occupiedSlots ks rs = []).
    { destruct ks as [|k2 ks]; [reflexivity|]. destruct rs as [|r2 rs]; [reflexivity|].
      inversion Hc' as [|? ? Hr2 _]; subst. simpl. rewrite Hr2. reflexivity. }
    cbn [occupiedSlots]. rewrite Erid, Et. simpl.
    repeat split; auto.
  - (* the placing loop *)
    apply Nat.eqb_neq in E0.
    destruct (leafPlace_loop_shape INTARRAYLEAFSIZE key rid node 0 (length (occupied node)))
      as (i & _ & Hi & Hbelow & Hat & Eloop); try lia; try exact Hstop.
    intros node'. subst node'. rewrite Eloop.
    cbn [leafKeyArray ridArray leafLevel rightSibPageNo].
    assert (Eocc : occupied
              (mkLeaf (leafLevel node)
                 (take i (leafKeyArray node)
                    ++ key :: take (INTARRAYLEAFSIZE - 1 - i) (drop i (leafKeyArray node)))
                 (take i (ridArray node)
                    ++ rid :: take (INTARRAYLEAFSIZE - 1 - i) (drop i (ridArray node)))
                 (rightSibPageNo node))
            = placeEntry key rid (occupied node)).
    { unfold occupied. cbn [leafKeyArray ridArray]. rewrite !occupiedSlots_by.
      apply placed_occupied.
      - exact Erid.
      - intros j Hj. destruct (Hbelow j) as [Hp Hle]; [lia|lia|].
        destruct (lookup_lt_is_Some_2 (leafKeyArray node) j) as [k Ek]; [lia|].
        destruct (lookup_lt_is_Some_2 (ridArray node) j) as [x Ex]; [lia|].
        unfold getRid in Hp. unfold getKey in Hle. rewrite Ex in Hp. rewrite Ek in Hle.
        exists k, x. repeat split; auto. apply Nat.eqb_neq. exact Hp.
      - destruct (lookup_lt_is_Some_2 (leafKeyArray node) i) as [k Ek]; [lia|].
        destruct (lookup_lt_is_Some_2 (ridArray node) i) as [x Ex]; [lia|].
        unfold getRid, getKey in Hat. rewrite Ex, Ek in Hat.
        exists k, x. repeat split; auto.
        destruct Hat as [Hat|Hat]; [left; apply Nat.eqb_eq; exact Hat|right; exact Hat].
      - rewrite <- occupiedSlots_by. fold (occupied node). lia. }
    rewrite Eocc. split; [reflexivity|].
    split; [rewrite length_app, length_take; simpl; rewrite length_take, length_drop; lia|].
    split; [rewrite length_app, length_take; simpl; rewrite length_take, length_drop; lia|].
    split; [|auto].
    rewrite (Permutation_length (placeEntry_perm key rid (occupied node))). simpl.
    apply shifted_rest; [exact Hi|exact Hc].
Qed.

(** X10. Inserting into a leaf that has a free slot puts the entry in front of
    the first entry with a larger key, shifts the later entries by one slot,
    writes nothing else and does not split.  The leaf is assumed well formed:
    arrays of the layout's size and no occupied slot after an empty one;
    the result is well formed again, and if the keys of the leaf were in
    ascending order they still are. *)
Theorem insertToLeaf_places_entry key rid pid midKey newPid b node :
  lookupPage b pid = Some (LeafPage node) ->
  length (leafKeyArray node) = INTARRAYLEAFSIZE ->
  length (ridArray node) = INTARRAYLEAFSIZE ->
  length (occupied node) < INTARRAYLEAFSIZE ->
  Forall (fun r => page_number r = 0) (drop (length (occupied node)) (ridArray node)) ->
  page_number rid <> 0 ->
  exists node',
    insertToLeaf key rid pid midKey newPid b =
      (Ret (false, midKey, newPid),
       mkBuf (<[pid - 1 := LeafPage node']> (pages b)) (pinned b) (pid :: dirty b))
    /\ occupied node' = placeEntry key rid (occupied node)
    /\ length (leafKeyArray node') = INTARRAYLEAFSIZE
    /\ length (ridArray node') = INTARRAYLEAFSIZE
    /\ Forall (fun r => page_number r = 0) (drop (length (occupied node')) (ridArray node'))
    /\ leafLevel node' = leafLevel node
    /\ rightSibPageNo node' = rightSibPageNo node
    /\ (StronglySorted Z.le (map fst (occupied node)) ->
        StronglySorted Z.le (map fst (occupied node'))).
Proof.
  intros Ep Hk Hr Hn Hc Hrid.
  destruct (leaf_placed key rid node Hk Hr Hn Hc Hrid) as (E1 & E2 & E3 & E4 & E5 & E6).
  eexists. split.
  - apply insertToLeaf_stores; [exact Ep|].
    pose proof (occupied_stop node ltac:(lia) ltac:(lia)) as Hstop.
    pose proof (leafFull_loop_le (S INTARRAYLEAFSIZE) node 0 (length (occupied node))
                  ltac:(lia) ltac:(lia) Hstop) as Hle.
    unfold leafFull_next. lia.
  - repeat (split; [assumption|]).
    intros Hs. rewrite E1. apply placeEntry_sorted, Hs.
Qed.

End LeafInsertSpec.

(** ** insertToNonLeafNode on a node with a free slot *)

Lemma occupiedBy_le_empty {V} (isEmpty : V -> bool) ks vs e x :
  vs !! e = Some x -> isEmpty x = true -> length (occupiedBy isEmpty ks vs) <= e.
Proof.
  revert vs e. induction ks as [|k ks IH]; intros [|y vs] e; simpl; try lia.
  destruct (isEmpty y) eqn:Ey; simpl; [lia|].
  destruct e as [|e]; simpl.
  - intros [= ->] Hx. congruence.
  - intros Ex Hx. specialize (IH vs e Ex Hx). lia.
Qed.

Section NonLeafInsert.
Context `{Layout}.

Lemma nonLeafPlace_loop_shape n node key i0 e :
  i0 <= e -> e < i0 + n -> e < INTARRAYNONLEAFSIZE ->
  getPid (pageNoArray node) (e + 1) = 0 ->
  i0 <= nonLeafPlace_loop n node key i0
  /\ nonLeafPlace_loop n node key i0 <= e
  /\ (forall j, i0 <= j -> j < nonLeafPlace_loop n node key i0 ->
        getPid (pageNoArray node) (j + 1) <> 0 /\ (getKey (keyArray node) j <= key)%Z)
  /\ (getPid (pageNoArray node) (nonLeafPlace_loop n node key i0 + 1) = 0
      \/ (key < getKey (keyArray node) (nonLeafPlace_loop n node key i0))%Z).
Proof.
  revert i0. induction n as [|n IH]; intros i0 Hle Hlt HM He; [lia|].
  simpl.
  destruct ((i0 <? INTARRAYNONLEAFSIZE)
            && negb (getPid (pageNoArray node) (i0 + 1) =? 0)
            && (getKey (keyArray node) i0 <=? key)%Z) eqn:Ec.
  - apply andb_true_iff in Ec as [Ec Ec3]. apply andb_true_iff in Ec as [Ec1 Ec2].
    apply negb_true_iff, Nat.eqb_neq in Ec2. apply Z.leb_le in Ec3.
    assert (i0 <> e) by (intros ->; contradiction).
    destruct (IH (S i0)) as (H1 & H2 & H3 & H4); [lia|lia|lia|exact He|].
    split; [lia|]. split; [exact H2|]. split; [|exact H4].
    intros j Hj1 Hj2. destruct (decide (j = i0)) as [->|Hne]; [auto|].
    apply H3; lia.
  - split; [lia|]. split; [exact Hle|]. split; [intros; lia|].
    apply andb_false_iff in Ec as [Ec|Ec]; [apply andb_false_iff in Ec as [Ec|Ec]|].
    + apply Nat.ltb_ge in Ec. lia.
    + left. apply negb_false_iff, Nat.eqb_eq in Ec. exact Ec.
    + right. apply Z.leb_gt in Ec. exact Ec.
Qed.

(** The run and the result of the branch of [insertToNonLeafNode] that does
    not split. *)
Lemma insertToNonLeafNode_run key sonPid pid midKey newPid b node :
  lookupPage b pid = Some (NonLeafPage node) ->
  0 < INTARRAYNONLEAFSIZE ->
  length (keyArray node) = INTARRAYNONLEAFSIZE ->
  length (pageNoArray node) = S INTARRAYNONLEAFSIZE ->
  getPid (pageNoArray node) INTARRAYNONLEAFSIZE = 0 ->
  sonPid <> 0 ->
  exists node',
    insertToNonLeafNode key sonPid pid midKey newPid b =
      (Ret (false, midKey, newPid),
       mkBuf (<[pid - 1 := NonLeafPage node']> (pages b)) (pinned b) (pid :: dirty b))
    /\ children node' = placeEntry key sonPid (children node)
    /\ getPid (pageNoArray node') 0 = getPid (pageNoArray node) 0
    /\ level node' = level node
    /\ length (keyArray node') = INTARRAYNONLEAFSIZE
    /\ length (pageNoArray node') = S INTARRAYNONLEAFSIZE.
Proof.
  intros Ep HM Hk Hp Hfree Hson.
  destruct pid as [|p]; [discriminate|].
  pose proof Ep as Ep'. simpl in Ep'. pose proof (lookup_lt_Some _ _ _ Ep') as Hlt.
  destruct (nonLeafPlace_loop_shape (S INTARRAYNONLEAFSIZE) node key 0
              (INTARRAYNONLEAFSIZE - 1)) as (_ & Hi & Hbelow & Hat); try lia.
  { replace (INTARRAYNONLEAFSIZE - 1 + 1) with INTARRAYNONLEAFSIZE by lia. exact Hfree. }
  set (i := nonLeafPlace_loop (S INTARRAYNONLEAFSIZE) node key 0) in *.
  destruct (pageNoArray node) as [|p0 ps] eqn:Eps; [simpl in Hp; lia|].
  simpl in Hp.
  exists (mkNonLeaf (level node)
            (take i (keyArray node)
               ++ key :: take (INTARRAYNONLEAFSIZE - 1 - i) (drop i (keyArray node)))
            (p0 :: take i ps ++ sonPid :: take (INTARRAYNONLEAFSIZE - 1 - i) (drop i ps))).
  split; [|split; [|split; [|split; [|split]]]].
  - unfold insertToNonLeafNode.
    rewrite (bind_run _ _ _ _ _ (returns_readPage _ _ _ Ep)).
    assert (El : returns (loadNonLeaf (S p))
                   (mkBuf (pages b) (S p :: pinned b) (dirty b)) node
                   (mkBuf (pages b) (S p :: pinned b) (dirty b))).
    { unfold loadNonLeaf.
      eapply returns_bind; [eapply returns_load; exact Ep|apply returns_ret]. }
    rewrite (bind_run _ _ _ _ _ El). cbv beta zeta.
    rewrite Eps. rewrite Hfree. cbn [Nat.eqb negb].
    fold i.
    rewrite moveBackwardKeys_closed by lia.
    rewrite moveBackwardPids_closed by (simpl; lia).
    replace (INTARRAYNONLEAFSIZE - 1 - i) with (length (keyArray node) - 1 - i) at 1 2 by lia.
    rewrite shifted_insert by lia.
    replace (INTARRAYNONLEAFSIZE - 1 - i) with (length (p0 :: ps) - 1 - (i + 1))
      at 1 2 by (simpl; lia).
    rewrite shifted_insert by (simpl; lia).
    replace (length (p0 :: ps) - 1 - (i + 1)) with (INTARRAYNONLEAFSIZE - 1 - i)
      by (simpl; lia).
    rewrite Hk. replace (i + 1) with (S i) by lia. cbn [take drop app].
    erewrite bind_run by (apply returns_store; exact Hlt).
    erewrite bind_run by (apply returns_unPinPage; simpl; left).
    simpl. rewrite decide_True by reflexivity.
    replace (p - 0) with p by lia. reflexivity.
  - unfold children. cbn [keyArray pageNoArray tail]. rewrite Eps. cbn [tail].
    rewrite !occupiedChildren_by. apply placed_occupied.
    + apply Nat.eqb_neq. exact Hson.
    + intros j Hj. destruct (Hbelow j) as [Hne Hle]; [lia|lia|].
      destruct (lookup_lt_is_Some_2 (keyArray node) j) as [k Ek]; [lia|].
      destruct (lookup_lt_is_Some_2 ps j) as [x Ex]; [lia|].
      unfold getPid in Hne. unfold getKey in Hle.
      replace (j + 1) with (S j) in Hne by lia. simpl in Hne.
      rewrite Ex in Hne. rewrite Ek in Hle.
      exists k, x. repeat split; auto. apply Nat.eqb_neq. exact Hne.
    + destruct (lookup_lt_is_Some_2 (keyArray node) i) as [k Ek]; [lia|].
      destruct (lookup_lt_is_Some_2 ps i) as [x Ex]; [lia|].
      unfold getPid, getKey in Hat. replace (i + 1) with (S i) in Hat by lia.
      simpl in Hat. rewrite Ex, Ek in Hat.
      exists k, x. repeat split; auto.
      destruct Hat as [Hat|Hat]; [left; apply Nat.eqb_eq; exact Hat|right; exact Hat].
    + destruct (lookup_lt_is_Some_2 ps (INTARRAYNONLEAFSIZE - 1)) as [x Ex]; [lia|].
      pose proof (occupiedBy_le_empty (fun p => p =? 0) (keyArray node) ps
                    (INTARRAYNONLEAFSIZE - 1) x Ex) as Hle.
      unfold getPid in Hfree.
      replace INTARRAYNONLEAFSIZE with (S (INTARRAYNONLEAFSIZE - 1)) in Hfree at 1 by lia.
      simpl in Hfree. rewrite Ex in Hfree. simpl in Hfree.
      specialize (Hle ltac:(apply Nat.eqb_eq; exact Hfree)). lia.
  - reflexivity.
  - reflexivity.
  - cbn [keyArray]. rewrite length_app, length_take. simpl.
    rewrite length_take, length_drop. lia.
  - cbn [pageNoArray]. simpl. rewrite length_app, length_take. simpl.
    rewrite length_take, length_drop. lia.
Qed.

(** X11. Inserting a (key, child) pair into an internal node whose last child
    slot is free puts the pair in front of the first pair with a larger key,
    shifts the later pairs by one slot, leaves the leftmost child and the
    level alone, and does not split. *)
Theorem insertToNonLeafNode_places_child key sonPid pid midKey newPid b node :
  lookupPage b pid = Some (NonLeafPage node) ->
  0 < INTARRAYNONLEAFSIZE ->
  length (keyArray node) = INTARRAYNONLEAFSIZE ->
  length (pageNoArray node) = S INTARRAYNONLEAFSIZE ->
  getPid (pageNoArray node) INTARRAYNONLEAFSIZE = 0 ->
  sonPid <> 0 ->
  exists node',
    insertToNonLeafNode key sonPid pid midKey newPid b =
      (Ret (false, midKey, newPid),
       mkBuf (<[pid - 1 := NonLeafPage node']> (pages b)) (pinned b) (pid :: dirty b))
    /\ children node' = placeEntry key sonPid (children node)
    /\ getPid (pageNoArray node') 0 = getPid (pageNoArray node) 0
    /\ level node' = level node
    /\ length (keyArray node') = INTARRAYNONLEAFSIZE
    /\ length (pageNoArray node') = S INTARRAYNONLEAFSIZE.
Proof. exact (insertToNonLeafNode_run key sonPid pid midKey newPid b node). Qed.

End NonLeafInsert.

(** ** splitLeafNode *)

Lemma mergeEntry_place {V} (key : Z) (v : V) (ks : list Z) (vs : list V) :
  length ks = length vs ->
  zip (fst (mergeEntry key v ks vs)) (snd (mergeEntry key v ks vs))
  = placeEntry key v (zip ks vs)
  /\ length (fst (mergeEntry key v ks vs)) = S (length ks)
  /\ length (snd (mergeEntry key v ks vs)) = S (length ks).
Proof.
  revert vs. induction ks as [|k ks IH]; intros [|x vs] Hl; simpl in *; try lia; auto.
  destruct (key <? k)%Z; simpl; [auto with lia|].
  destruct (IH vs ltac:(lia)) as (E1 & E2 & E3).
  destruct (mergeEntry key v ks vs) as [a b]. simpl in *.
  rewrite E1. auto with lia.
Qed.

Lemma mergeEntry_Forall {V} (P : V -> Prop) (key : Z) (v : V) (ks : list Z) (vs : list V) :
  P v -> Forall P vs -> Forall P (snd (mergeEntry key v ks vs)).
Proof.
  intros Hv. revert vs. induction ks as [|k ks IH]; intros [|x vs] Hf; simpl;
    try (repeat constructor; exact Hv).
  inversion Hf; subst.
  destruct (key <? k)%Z; simpl; [constructor; auto|].
  specialize (IH vs ltac:(assumption)).
  destruct (mergeEntry key v ks vs) as [a b]. simpl in *. constructor; auto.
Qed.

Lemma insert_last {A} (x : A) (l : list A) (n : nat) :
  length l = S n -> <[n := x]> l = take n l ++ [x].
Proof.
  intros Hl. rewrite <- (take_drop n l) at 1.
  rewrite insert_app_r_alt by (rewrite length_take; lia).
  rewrite length_take. replace (n - n `min` length l) with 0 by lia.
  assert (Hd : length (drop n l) = 1) by (rewrite length_drop; lia).
  destruct (drop n l) as [|y [|? ?]]; simpl in Hd; try lia. reflexivity.
Qed.

Lemma take_S_written {A} (x : A) (l : list A) (n : nat) :
  n < length l -> take (S n) (<[n := x]> l) = take n l ++ [x].
Proof.
  intros Hn. rewrite (take_S_r _ n x) by (apply list_lookup_insert_eq; exact Hn).
  rewrite take_insert_ge by lia. reflexivity.
Qed.

Section LeafTemp.
Context `{Layout}.
Variables (node : LeafNodeInt) (key : Z) (rid : RecordId).
Hypothesis Hk : length (leafKeyArray node) = INTARRAYLEAFSIZE.
Hypothesis Hr : length (ridArray node) = INTARRAYLEAFSIZE.
Hypothesis Hfull : Forall (fun r => page_number r <> 0) (ridArray node).

Lemma full_slot j :
  j < INTARRAYLEAFSIZE ->
  exists k r, leafKeyArray node !! j = Some k /\ ridArray node !! j = Some r
              /\ (page_number r =? 0) = false.
Proof using Type*.
  intros Hj.
  destruct (lookup_lt_is_Some_2 (leafKeyArray node) j) as [k Ek]; [lia|].
  destruct (lookup_lt_is_Some_2 (ridArray node) j) as [r Er]; [lia|].
  exists k, r. repeat split; auto. apply Nat.eqb_neq.
  rewrite Forall_lookup in Hfull. exact (Hfull j r Er).
Qed.

(** After the new entry has been written the loop copies the rest of the
    leaf one place to the right. *)
Lemma leafTemp_loop_copy n j tk tr :
  j <= INTARRAYLEAFSIZE -> INTARRAYLEAFSIZE - j < n ->
  length tk = S INTARRAYLEAFSIZE -> length tr = S INTARRAYLEAFSIZE ->
  leafTemp_loop n node key rid (S j) j tk tr
  = (take (S j) tk ++ drop j (leafKeyArray node), take (S j) tr ++ drop j (ridArray node)).
Proof using Type*.
  revert j tk tr. induction n as [|n IH]; intros j tk tr Hj Hn Htk Htr; [lia|].
  cbn [leafTemp_loop].
  destruct (decide (j = INTARRAYLEAFSIZE)) as [->|Hne].
  - replace (S INTARRAYLEAFSIZE <=? INTARRAYLEAFSIZE) with false
      by (symmetry; apply Nat.leb_gt; lia).
    cbn [negb]. rewrite !take_ge, !drop_ge, !app_nil_r by lia. reflexivity.
  - replace (S j <=? INTARRAYLEAFSIZE) with true by (symmetry; apply Nat.leb_le; lia).
    cbn [negb].
    destruct (full_slot j) as (k & r & Ek & Er & Hp); [lia|].
    replace (j =? INTARRAYLEAFSIZE) with false by (symmetry; apply Nat.eqb_neq; lia).
    unfold getKey, getRid. rewrite ?Ek, ?Er. cbn [default from_option id]. rewrite Hp. cbn [orb].
    replace (j =? S j) with false by (symmetry; apply Nat.eqb_neq; lia).
    cbn [andb]. rewrite IH by (rewrite ?length_insert; lia).
    repeat (rewrite take_S_written by lia).
    rewrite (drop_S _ _ _ Ek), (drop_S _ _ _ Er).
    rewrite <- !app_assoc. reflexivity.
Qed.

(** Before that, it copies the leaf in place until the first larger key. *)
Lemma leafTemp_loop_merge n j tk tr :
  j <= INTARRAYLEAFSIZE -> INTARRAYLEAFSIZE - j < n ->
  length tk = S INTARRAYLEAFSIZE -> length tr = S INTARRAYLEAFSIZE ->
  leafTemp_loop n node key rid j j tk tr
  = (take j tk ++ fst (mergeEntry key rid (drop j (leafKeyArray node))
                                          (drop j (ridArray node))),
     take j tr ++ snd (mergeEntry key rid (drop j (leafKeyArray node))
                                          (drop j (ridArray node)))).
Proof using Type*.
  revert j tk tr. induction n as [|n IH]; intros j tk tr Hj Hn Htk Htr; [lia|].
  cbn [leafTemp_loop].
  replace (j <=? INTARRAYLEAFSIZE) with true by (symmetry; apply Nat.leb_le; lia).
  cbn [negb].
  destruct (decide (j = INTARRAYLEAFSIZE)) as [->|Hne].
  - rewrite Nat.eqb_refl. cbn [orb].
    rewrite !drop_ge by lia. cbn [mergeEntry fst snd].
    repeat (rewrite insert_last by assumption). reflexivity.
  - destruct (full_slot j) as (k & r & Ek & Er & Hp); [lia|].
    replace (j =? INTARRAYLEAFSIZE) with false by (symmetry; apply Nat.eqb_neq; lia).
    unfold getKey, getRid. rewrite ?Ek, ?Er. cbn [default from_option id]. rewrite Hp. cbn [orb].
    rewrite Nat.eqb_refl. cbn [andb].
    rewrite (drop_S _ _ _ Ek), (drop_S _ _ _ Er). cbn [mergeEntry].
    destruct (key <? k)%Z.
    + rewrite leafTemp_loop_copy by (rewrite ?length_insert; lia).
      cbn [fst snd].
      repeat (rewrite take_S_written by (rewrite ?length_insert; lia)).
      rewrite <- !app_assoc. reflexivity.
    + rewrite IH by (rewrite ?length_insert; lia).
      repeat (rewrite take_S_written by lia).
      destruct (mergeEntry key rid (drop (S j) (leafKeyArray node))
                  (drop (S j) (ridArray node))) as [a c].
      cbn [fst snd]. rewrite <- !app_assoc. reflexivity.
Qed.

(** On a full leaf the temporary arrays hold the sorted merge of the leaf's
    entries and the new entry. *)
Lemma leafTemp_merge :
  leafTemp node key rid = mergeEntry key rid (leafKeyArray node) (ridArray node).
Proof using Type*.
  unfold leafTemp.
  rewrite leafTemp_loop_merge by (rewrite ?length_replicate; lia).
  rewrite !take_0, !drop_0. cbn [app].
  destruct (mergeEntry key rid (leafKeyArray node) (ridArray node)). reflexivity.
Qed.

End LeafTemp.

Lemma splice_step {A} (K T : list A) (x : A) (m start len : nat) :
  T !! start = Some x -> m + S len <= length K ->
  take (S m) (<[m := x]> K) ++ take len (drop (S start) T)
    ++ drop (S m + len) (<[m := x]> K)
  = take m K ++ take (S len) (drop start T) ++ drop (m + S len) K.
Proof.
  intros Ex Hm. rewrite take_S_written by lia. rewrite drop_insert_lt by lia.
  rewrite (drop_S _ _ _ Ex). cbn [take]. rewrite <- app_assoc.
  replace (S m + len) with (m + S len) by lia. reflexivity.
Qed.

Lemma clear_step (rs : list RecordId) (start : nat) :
  start < length rs ->
  take (S start) (clearRid rs start) ++ map clearedRid (drop (S start) (clearRid rs start))
  = take start rs ++ map clearedRid (drop start rs).
Proof.
  intros Hs. unfold clearRid.
  destruct (lookup_lt_is_Some_2 rs start Hs) as [r Er].
  unfold getRid. rewrite Er. cbn [default from_option id].
  rewrite take_S_written by lia. rewrite drop_insert_lt by lia.
  rewrite (drop_S _ _ _ Er). cbn [map]. rewrite <- app_assoc. reflexivity.
Qed.

Section LeafSplitRun.
Context `{Layout}.

(** The loop that hands out the upper half: the original leaf has the page
    numbers of its slots from [start] on cleared, the new leaf receives the
    temporary arrays from [start] on. *)
Lemma leafSplit_fold tk tr len : forall start node newNode,
  start + len = S INTARRAYLEAFSIZE ->
  INTARRAYLEAFSIZE / 2 <= start ->
  length (ridArray node) = INTARRAYLEAFSIZE ->
  length tk = S INTARRAYLEAFSIZE -> length tr = S INTARRAYLEAFSIZE ->
  start - INTARRAYLEAFSIZE / 2 + len <= length (leafKeyArray newNode) ->
  start - INTARRAYLEAFSIZE / 2 + len <= length (ridArray newNode) ->
  foldl (leafSplit_step tk tr) (node, newNode) (seq start len)
  = (mkLeaf (leafLevel node) (leafKeyArray node)
       (take start (ridArray node) ++ map clearedRid (drop start (ridArray node)))
       (rightSibPageNo node),
     mkLeaf (leafLevel newNode)
       (take (start - INTARRAYLEAFSIZE / 2) (leafKeyArray newNode)
          ++ take len (drop start tk)
          ++ drop (start - INTARRAYLEAFSIZE / 2 + len) (leafKeyArray newNode))
       (take (start - INTARRAYLEAFSIZE / 2) (ridArray newNode)
          ++ take len (drop start tr)
          ++ drop (start - INTARRAYLEAFSIZE / 2 + len) (ridArray newNode))
       (rightSibPageNo newNode)).
Proof.
  induction len as [|len IH]; intros start node newNode Hs Hh Hr Htk Htr HK HR.
  - cbn [seq foldl]. rewrite !Nat.add_0_r.
    rewrite (take_ge (ridArray node)), (drop_ge (ridArray node)) by lia.
    rewrite !take_0. cbn [map app]. rewrite app_nil_r.
    rewrite !take_drop. destruct node, newNode. reflexivity.
  - cbn [seq foldl]. unfold leafSplit_step at 2.
    destruct (lookup_lt_is_Some_2 tk start) as [x Ex]; [lia|].
    destruct (lookup_lt_is_Some_2 tr start) as [y Ey]; [lia|].
    unfold getKey, getRid. rewrite Ex, Ey. cbn [default from_option id].
    destruct (start <? INTARRAYLEAFSIZE) eqn:El.
    + apply Nat.ltb_lt in El.
      rewrite IH; cbn [leafLevel leafKeyArray ridArray rightSibPageNo];
        unfold clearRid; rewrite ?length_insert; try lia.
      fold (clearRid (ridArray node) start).
      rewrite clear_step by lia.
      replace (S start - INTARRAYLEAFSIZE / 2) with (S (start - INTARRAYLEAFSIZE / 2))
        by lia.
      rewrite (splice_step _ tk) by (auto; lia).
      rewrite (splice_step _ tr) by (auto; lia).
      reflexivity.
    + apply Nat.ltb_ge in El.
      rewrite IH; cbn [leafLevel leafKeyArray ridArray rightSibPageNo];
        rewrite ?length_insert; try lia.
      rewrite !(take_ge (ridArray node)), !(drop_ge (ridArray node)) by lia.
      replace (S start - INTARRAYLEAFSIZE / 2) with (S (start - INTARRAYLEAFSIZE / 2))
        by lia.
      rewrite (splice_step _ tk) by (auto; lia).
      rewrite (splice_step _ tr) by (auto; lia).
      reflexivity.
Qed.

End LeafSplitRun.

Lemma occupiedBy_app_full {V} (isEmpty : V -> bool) (a c : list Z) (b d : list V) :
  length a = length b ->
  Forall (fun x => isEmpty x = false) b ->
  occupiedBy isEmpty (a ++ c) (b ++ d) = zip a b ++ occupiedBy isEmpty c d.
Proof.
  revert b. induction a as [|k a IH]; intros [|x b] Hl Hf; simpl in *; try lia.
  - reflexivity.
  - inversion Hf as [|? ? Hx Hf']; subst. rewrite Hx. rewrite IH by (auto; lia).
    reflexivity.
Qed.

Lemma occupiedSlots_cleared (ks : list Z) (rs : list RecordId) :
  occupiedSlots ks (map clearedRid rs) = [].
Proof. destruct ks, rs; reflexivity. Qed.

Lemma occupiedSlots_zeros n m : occupiedSlots (replicate n 0%Z) (replicate m zeroRid) = [].
Proof. destruct n, m; reflexivity. Qed.

Lemma nonzero_rids (rs : list RecordId) :
  Forall (fun r => page_number r <> 0) rs ->
  Forall (fun r => (page_number r =? 0) = false) rs.
Proof. intros Hf. eapply Forall_impl; [exact Hf|]. intros r Hr. apply Nat.eqb_neq. exact Hr. Qed.

Section LeafSplitSpec.
Context `{Layout}.

Lemma returns_allocLeaf b :
  returns allocLeaf b (S (length (pages b)))
    (mkBuf (pages b ++ [LeafPage (mkLeaf (-1) (replicate INTARRAYLEAFSIZE 0%Z)
                                         (replicate INTARRAYLEAFSIZE zeroRid) 0)])
           (S (length (pages b)) :: pinned b) (dirty b)).
Proof.
  unfold returns, allocLeaf, allocPage, store, mbind, Op_bind. simpl.
  rewrite decide_True by (rewrite length_app; simpl; lia).
  simpl. f_equal. f_equal.
  rewrite insert_app_r_alt by lia. rewrite Nat.sub_diag. reflexivity.
Qed.

(** The run of [splitLeafNode] on a full leaf, with the arrays it writes. *)
Lemma splitLeafNode_run key rid pid b node :
  lookupPage b pid = Some (LeafPage node) ->
  2 <= INTARRAYLEAFSIZE ->
  length (leafKeyArray node) = INTARRAYLEAFSIZE ->
  length (ridArray node) = INTARRAYLEAFSIZE ->
  Forall (fun r => page_number r <> 0) (ridArray node) ->
  let h := INTARRAYLEAFSIZE / 2 in
  let tk := fst (mergeEntry key rid (leafKeyArray node) (ridArray node)) in
  let tr := snd (mergeEntry key rid (leafKeyArray node) (ridArray node)) in
  splitLeafNode key rid pid b =
    (Ret (getKey tk h, S (length (pages b))),
     mkBuf (<[pid - 1 :=
              LeafPage (mkLeaf (leafLevel node) (leafKeyArray node)
                          (take h (ridArray node) ++ map clearedRid (drop h (ridArray node)))
                          (S (length (pages b))))]> (pages b)
            ++ [LeafPage (mkLeaf (-1)
                            (drop h tk ++ replicate (h - 1) 0%Z)
                            (drop h tr ++ replicate (h - 1) zeroRid)
                            (rightSibPageNo node))])
           (pinned b) (S (length (pages b)) :: pid :: dirty b)).
Proof.
  intros Ep HL Hk Hr Hfull h tk tr.
  destruct pid as [|p]; [discriminate|].
  pose proof Ep as Ep'. simpl in Ep'. pose proof (lookup_lt_Some _ _ _ Ep') as Hlt.
  destruct (mergeEntry_place key rid (leafKeyArray node) (ridArray node) ltac:(lia))
    as (_ & Htk & Htr).
  fold tk in Htk. fold tr in Htr.
  assert (Hh : 1 <= h /\ h <= INTARRAYLEAFSIZE).
  { subst h. split.
    - apply Nat.div_le_lower_bound; lia.
    - apply Nat.Div0.div_le_upper_bound; lia. }
  unfold splitLeafNode.
  rewrite (bind_run _ _ _ _ _ (returns_readPage _ _ _ Ep)).
  assert (El : returns (loadLeaf (S p))
                 (mkBuf (pages b) (S p :: pinned b) (dirty b)) node
                 (mkBuf (pages b) (S p :: pinned b) (dirty b))).
  { unfold loadLeaf. eapply returns_bind; [eapply returns_load; exact Ep|apply returns_ret]. }
  rewrite (bind_run _ _ _ _ _ El).
  rewrite (leafTemp_merge node key rid Hk Hr Hfull).
  rewrite (surjective_pairing (mergeEntry key rid (leafKeyArray node) (ridArray node))).
  fold tk tr. cbv beta iota zeta.
  rewrite (bind_run _ _ _ _ _ (returns_allocLeaf _)). cbn [pages pinned dirty].
  erewrite bind_run; cycle 1.
  { unfold loadLeaf.
    eapply returns_bind;
      [eapply returns_load; simpl; apply list_lookup_middle; reflexivity|apply returns_ret]. }
  unfold leafSplit.
  rewrite leafSplit_fold; cbn [leafLevel leafKeyArray ridArray rightSibPageNo];
    rewrite ?length_replicate; fold h; try lia.
  rewrite Nat.sub_diag. rewrite !take_0. cbn [app]. rewrite !Nat.add_0_l.
  rewrite (take_ge (drop h tk)) by (rewrite length_drop; lia).
  rewrite (take_ge (drop h tr)) by (rewrite length_drop; lia).
  rewrite !drop_replicate.
  replace (INTARRAYLEAFSIZE - (S INTARRAYLEAFSIZE - h)) with (h - 1) by lia.
  erewrite bind_run by (apply returns_store; simpl; rewrite length_app; simpl; lia).
  erewrite bind_run
    by (apply returns_store; simpl; rewrite length_insert, length_app; simpl; lia).
  erewrite bind_run by (apply returns_unPinPage; simpl; right; left).
  cbn [pages pinned dirty removeOne].
  rewrite decide_False by lia. rewrite decide_True by reflexivity.
  erewrite bind_run by (apply returns_unPinPage; simpl; left).
  cbn [pages pinned dirty removeOne]. rewrite decide_True by reflexivity.
  unfold mret, Op_ret. f_equal. f_equal.
  replace (S p - 1) with p by lia.
  rewrite insert_app_l by lia.
  rewrite insert_app_r_alt by (rewrite length_insert; lia).
  rewrite length_insert, Nat.sub_diag. reflexivity.
Qed.

End LeafSplitSpec.

Section LeafSplitEntries.
Context `{Layout}.

(** The result of [splitLeafNode] on a full leaf, read as entries. *)
Lemma splitLeafNode_entries key rid pid b node :
  lookupPage b pid = Some (LeafPage node) ->
  2 <= INTARRAYLEAFSIZE ->
  length (leafKeyArray node) = INTARRAYLEAFSIZE ->
  length (ridArray node) = INTARRAYLEAFSIZE ->
  Forall (fun r => page_number r <> 0) (ridArray node) ->
  page_number rid <> 0 ->
  exists node' newNode mid,
    splitLeafNode key rid pid b =
      (Ret (mid, S (length (pages b))),
       mkBuf (<[pid - 1 := LeafPage node']> (pages b) ++ [LeafPage newNode])
             (pinned b) (S (length (pages b)) :: pid :: dirty b))
    /\ occupied node' = take (INTARRAYLEAFSIZE / 2) (occupied node)
    /\ occupied newNode
       = drop (INTARRAYLEAFSIZE / 2) (placeEntry key rid (occupied node))
    /\ fst <$> head (occupied newNode) = Some mid
    /\ leafKeyArray node' = leafKeyArray node
    /\ rightSibPageNo node' = S (length (pages b))
    /\ rightSibPageNo newNode = rightSibPageNo node
    /\ leafLevel node' = leafLevel node
    /\ leafLevel newNode = (-1)%Z.
Proof.
  intros Ep HL Hk Hr Hfull Hrid.
  pose proof (splitLeafNode_run key rid pid b node Ep HL Hk Hr Hfull) as Hrun.
  cbv zeta in Hrun.
  destruct (mergeEntry_place key rid (leafKeyArray node) (ridArray node) ltac:(lia))
    as (Ezip & Htk & Htr).
  pose proof (mergeEntry_Forall (fun r => page_number r <> 0) key rid
                (leafKeyArray node) (ridArray node) Hrid Hfull) as Hftr.
  set (tk := fst (mergeEntry key rid (leafKeyArray node) (ridArray node))) in *.
  set (tr := snd (mergeEntry key rid (leafKeyArray node) (ridArray node))) in *.
  set (h := INTARRAYLEAFSIZE / 2) in *.
  assert (Hh : 1 <= h /\ h <= INTARRAYLEAFSIZE).
  { subst h. split.
    - apply Nat.div_le_lower_bound; lia.
    - apply Nat.Div0.div_le_upper_bound; lia. }
  assert (Eocc : occupied node = zip (leafKeyArray node) (ridArray node)).
  { unfold occupied. rewrite occupiedSlots_by.
    apply occupiedBy_full; [lia|apply nonzero_rids, Hfull]. }
  assert (Enew : occupiedSlots (drop h tk ++ replicate (h - 1) 0%Z)
                               (drop h tr ++ replicate (h - 1) zeroRid)
                 = drop h (zip tk tr)).
  { rewrite occupiedSlots_by.
    rewrite occupiedBy_app_full
      by (rewrite ?length_drop; try lia; apply nonzero_rids, Forall_drop, Hftr).
    rewrite <- occupiedSlots_by, occupiedSlots_zeros, app_nil_r.
    symmetry. apply zip_with_drop. }
  eexists _, _, _. split; [exact Hrun|].
  split; [|split; [|split; [|repeat split]]].
  - unfold occupied at 1. cbn [leafKeyArray ridArray].
    rewrite <- (take_drop h (leafKeyArray node)) at 1.
    rewrite occupiedSlots_by.
    rewrite occupiedBy_app_full
      by (rewrite ?length_take; try lia; apply nonzero_rids, Forall_take, Hfull).
    rewrite <- occupiedSlots_by, occupiedSlots_cleared, app_nil_r.
    rewrite Eocc. symmetry. apply zip_with_take.
  - unfold occupied at 1. cbn [leafKeyArray ridArray].
    rewrite Enew, Ezip, Eocc. reflexivity.
  - unfold occupied at 1. cbn [leafKeyArray ridArray]. rewrite Enew.
    rewrite head_lookup, lookup_drop, Nat.add_0_r.
    destruct (lookup_lt_is_Some_2 tk h) as [x Ex]; [lia|].
    destruct (lookup_lt_is_Some_2 tr h) as [y Ey]; [lia|].
    assert (Ez : zip tk tr !! h = Some (x, y))
      by (apply lookup_zip_with_Some; exists x, y; auto).
    rewrite Ez. unfold getKey. rewrite Ex. reflexivity.
Qed.

(** X12. Splitting a full leaf.  The new leaf, appended to the file, receives
    the sorted merge of the old entries and the new one from position
    [SIZE / 2] on; the key handed up is the first key of the new leaf; the
    new leaf takes over the old right sibling and the old leaf points to the
    new one.  The old leaf keeps its own first [SIZE / 2] entries and its
    key array as they were: the lower half of the merge is not written
    back.  Both pages are unpinned dirty and no pin is left. *)
Theorem splitLeafNode_halves key rid pid b node :
  lookupPage b pid = Some (LeafPage node) ->
  2 <= INTARRAYLEAFSIZE ->
  length (leafKeyArray node) = INTARRAYLEAFSIZE ->
  length (ridArray node) = INTARRAYLEAFSIZE ->
  Forall (fun r => page_number r <> 0) (ridArray node) ->
  page_number rid <> 0 ->
  exists node' newNode mid,
    splitLeafNode key rid pid b =
      (Ret (mid, S (length (pages b))),
       mkBuf (<[pid - 1 := LeafPage node']> (pages b) ++ [LeafPage newNode])
             (pinned b) (S (length (pages b)) :: pid :: dirty b))
    /\ occupied node' = take (INTARRAYLEAFSIZE / 2) (occupied node)
    /\ occupied newNode
       = drop (INTARRAYLEAFSIZE / 2) (placeEntry key rid (occupied node))
    /\ fst <$> head (occupied newNode) = Some mid
    /\ leafKeyArray node' = leafKeyArray node
    /\ rightSibPageNo node' = S (length (pages b))
    /\ rightSibPageNo newNode = rightSibPageNo node
    /\ leafLevel node' = leafLevel node
    /\ leafLevel newNode = (-1)%Z.
Proof. exact (splitLeafNode_entries key rid pid b node). Qed.

End LeafSplitEntries.

(** ** The public operations on a small tree, and what a scan hands out *)

Section RootLeaf.
Context `{Layout}.

(** X13. [insertEntry] on an index whose root is a leaf with a free slot
    returns after placing the entry in the root, in key order; the root page
    is marked dirty, no pin is left, no page is added and the members of the
    index keep their values. *)
Theorem insertEntry_root_leaf fuel key rid s b node :
  bufMgr s = Some b ->
  lookupPage b (rootPageNum s) = Some (LeafPage node) ->
  leafLevel node = (-1)%Z ->
  length (leafKeyArray node) = INTARRAYLEAFSIZE ->
  length (ridArray node) = INTARRAYLEAFSIZE ->
  length (occupied node) < INTARRAYLEAFSIZE ->
  Forall (fun r => page_number r = 0) (drop (length (occupied node)) (ridArray node)) ->
  page_number rid <> 0 ->
  exists node',
    insertEntry fuel key rid s =
      (Ret tt,
       setBufMgr (Some (mkBuf (<[rootPageNum s - 1 := LeafPage node']> (pages b)) (pinned b)
                              (rootPageNum s :: rootPageNum s :: dirty b))) s)
    /\ occupied node' = placeEntry key rid (occupied node)
    /\ length (leafKeyArray node') = INTARRAYLEAFSIZE
    /\ length (ridArray node') = INTARRAYLEAFSIZE
    /\ Forall (fun r => page_number r = 0) (drop (length (occupied node')) (ridArray node'))
    /\ leafLevel node' = (-1)%Z
    /\ rightSibPageNo node' = rightSibPageNo node.
Proof.
  intros Eb Ep Hlvl Hk Hr Hn Hc Hrid.
  destruct (leaf_placed key rid node Hk Hr Hn Hc Hrid) as (E1 & E2 & E3 & E4 & E5 & E6).
  eexists. split; [|split; [exact E1|split; [exact E2|split; [exact E3|split; [exact E4|]]]]].
  - unfold insertEntry.
    erewrite bind_run by apply returns_get.
    erewrite bind_run
      by (eapply returns_withBuf; [exact Eb|eapply returns_readPage; exact Ep]).
    erewrite bind_run
      by (eapply returns_withBuf;
          [reflexivity|eapply returns_loadLevel; [exact Ep|reflexivity]]).
    replace (leafLevel node =? -1)%Z with true by (rewrite Hlvl; reflexivity).
    erewrite bind_run
      by (eapply returns_withBuf; [reflexivity|apply returns_unPinPage; simpl; left]).
    cbn [pages pinned dirty removeOne]. rewrite decide_True by reflexivity.
    assert (Hnf : leafFull_next node <> INTARRAYLEAFSIZE).
    { pose proof (occupied_stop node ltac:(lia) ltac:(lia)) as Hstop.
      pose proof (leafFull_loop_le (S INTARRAYLEAFSIZE) node 0 (length (occupied node))
                    ltac:(lia) ltac:(lia) Hstop) as Hle.
      unfold leafFull_next. lia. }
    erewrite bind_run
      by (eapply returns_withBuf;
          [reflexivity
          |exact (insertToLeaf_stores key rid (rootPageNum s) 0%Z 0
                    (mkBuf (pages b) (pinned b) (rootPageNum s :: dirty b)) node Ep Hnf)]).
    cbv beta iota. destruct s; reflexivity.
  - split; [rewrite E5; exact Hlvl|exact E6].
Qed.

End RootLeaf.

Section ScanValues.
Context `{Layout}.

(** X14. Where a scan starts inside a leaf.  When the loop of [startScan]
    stops at slot [i], that slot is occupied and its key satisfies the lower
    bound, and every slot before it (from the slot the loop started at) is
    occupied by a key that fails the lower bound and has not reached the
    upper bound.  The key at [i] itself is not compared with the upper
    bound. *)
Theorem startScan_loop_first n leaf lo lop hi hop i0 i :
  lop = GT \/ lop = GTE ->
  startScan_loop n leaf lo lop hi hop i0 = Found i ->
  i0 <= i /\ i < i0 + n
  /\ page_number (getRid (ridArray leaf) i) <> 0
  /\ (if bool_decide (lop = GT) then (lo <? getKey (leafKeyArray leaf) i)%Z
      else (lo <=? getKey (leafKeyArray leaf) i)%Z) = true
  /\ forall j, i0 <= j -> j < i ->
       page_number (getRid (ridArray leaf) j) <> 0
       /\ (if bool_decide (lop = GT) then (lo <? getKey (leafKeyArray leaf) j)%Z
           else (lo <=? getKey (leafKeyArray leaf) j)%Z) = false
       /\ (bool_decide (hop = LT) && (hi <? getKey (leafKeyArray leaf) j)%Z
           || bool_decide (hop = LTE) && (hi <=? getKey (leafKeyArray leaf) j)%Z) = false.
Proof.
  intros Hop. revert i0. induction n as [|n IH]; intros i0 E; [discriminate|].
  simpl in E.
  destruct (page_number (getRid (ridArray leaf) i0) =? 0) eqn:Ep; [discriminate|].
  apply Nat.eqb_neq in Ep.
  destruct (bool_decide (lop = GT) && (lo <? getKey (leafKeyArray leaf) i0)%Z) eqn:E1.
  { injection E as <-. apply andb_true_iff in E1 as [E1 E1'].
    rewrite E1. repeat split; auto; try (intros; lia). }
  destruct (bool_decide (lop = GTE) && (lo <=? getKey (leafKeyArray leaf) i0)%Z) eqn:E2.
  { injection E as <-. apply andb_true_iff in E2 as [E2 E2'].
    apply bool_decide_eq_true in E2. subst lop.
    rewrite bool_decide_eq_false_2 by discriminate.
    repeat split; auto; try (intros; lia). }
  destruct (bool_decide (hop = LT) && (hi <? getKey (leafKeyArray leaf) i0)%Z) eqn:E3;
    [discriminate|].
  destruct (bool_decide (hop = LTE) && (hi <=? getKey (leafKeyArray leaf) i0)%Z) eqn:E4;
    [discriminate|].
  destruct (IH (S i0) E) as (H1 & H2 & H3 & H4 & H5).
  split; [lia|]. split; [lia|]. split; [exact H3|]. split; [exact H4|].
  intros j Hj1 Hj2. destruct (decide (j = i0)) as [->|Hne]; [|apply H5; lia].
  split; [exact Ep|]. split; [|rewrite E3, E4; reflexivity].
  destruct Hop as [-> | ->].
  - rewrite bool_decide_eq_true_2 in * by reflexivity. exact E1.
  - rewrite (bool_decide_eq_false_2 (GTE = GT)) by discriminate.
    rewrite bool_decide_eq_true_2 in E2 by reflexivity. exact E2.
Qed.

End ScanValues.

Section ScanHandsOut.
Context `{Layout}.

(** An operation of the index object leaves the caller's [outRid] alone. *)
Lemma onIndex_keeps_outRid {A} (m : Op BTreeIndex A) : preserves fst (onIndex m).
Proof.
  intros [r s] o [r' s']. unfold onIndex. simpl.
  destruct (m s) as [o1 s1]. intros [= _ <- _]. reflexivity.
Qed.

(** X15. What a [scanNext] that returns has handed out.  A scan is running,
    the current page is a leaf, [outRid] is the record id in the slot
    [nextEntry] of that leaf and the key in that slot is within the upper
    bound of the scan ([<] for [LT], [<=] otherwise). *)
Theorem scanNext_hands_out (r r' : RecordId) (s s' : BTreeIndex) (u : unit) :
  scanNext (r, s) = (Ret u, (r', s')) ->
  exists pid b leaf,
    scanExecuting s = true
    /\ currentPageData s = Some pid
    /\ bufMgr s = Some b
    /\ lookupPage b pid = Some (LeafPage leaf)
    /\ r' = getRidZ (ridArray leaf) (nextEntry s)
    /\ (if bool_decide (highOp s = LT)
        then (getKeyZ (leafKeyArray leaf) (nextEntry s) <? highValInt s)%Z
        else (getKeyZ (leafKeyArray leaf) (nextEntry s) <=? highValInt s)%Z) = true.
Proof.
  intros E. unfold scanNext in E.
  rewrite (bind_run (onIndex get) _ (r, s) s (r, s) eq_refl) in E.
  destruct (scanExecuting s) eqn:Ex; [|discriminate].
  cbn [negb] in E.
  destruct (currentPageData s) as [pid|] eqn:Ed; cycle 1.
  { unfold currentPage, onIndex, get, mbind, Op_bind in E. simpl in E.
    rewrite Ed in E. discriminate. }
  destruct (bufMgr s) as [b|] eqn:Eb; cycle 1.
  { unfold currentPage, withBuf, onIndex, get, mbind, Op_bind in E. simpl in E.
    rewrite Ed in E. simpl in E. rewrite Eb in E. discriminate. }
  destruct (lookupPage b pid) as [p|] eqn:Ep; cycle 1.
  { unfold currentPage, withBuf, load, onIndex, get, mbind, Op_bind in E. simpl in E.
    rewrite Ed in E. simpl in E. rewrite Eb in E. rewrite Ep in E. discriminate. }
  assert (Ecur : onIndex currentPage (r, s) = (Ret p, (r, setBufMgr (Some b) s))).
  { unfold onIndex. cbn [fst snd].
    rewrite (returns_currentPage s b pid p Ed Eb Ep). reflexivity. }
  rewrite (bind_run _ _ _ _ _ Ecur) in E.
  destruct p as [| |leaf|]; try discriminate.
  exists pid, b, leaf.
  rewrite (bind_run (setOutRid (getRidZ (ridArray leaf) (nextEntry s))) _
             (r, setBufMgr (Some b) s) tt
             (getRidZ (ridArray leaf) (nextEntry s), setBufMgr (Some b) s) eq_refl) in E.
  assert (Hkeep : r' = getRidZ (ridArray leaf) (nextEntry s)).
  { revert E.
    match goal with
    | |- ?k ?st = _ -> _ =>
        assert (Hk : preserves fst k);
        [|intros E; exact (Hk _ _ _ E)]
    end.
    destruct (_ || _).
    - apply preserves_bind; [apply onIndex_keeps_outRid|].
      intros ?. apply preserves_throw.
    - apply preserves_bind; [apply onIndex_keeps_outRid|]. intros ?.
      destruct (_ || _); [|apply preserves_ret].
      destruct (rightSibPageNo leaf =? 0).
      + apply preserves_bind; [apply onIndex_keeps_outRid|].
        intros ?. apply preserves_throw.
      + repeat (apply preserves_bind; [apply onIndex_keeps_outRid|]; intros ?).
        apply onIndex_keeps_outRid. }
  destruct ((highValInt s <? getKeyZ (leafKeyArray leaf) (nextEntry s))%Z
            || (getKeyZ (leafKeyArray leaf) (nextEntry s) =? highValInt s)%Z
               && bool_decide (highOp s = LT)) eqn:Ehi.
  { unfold withBuf, unPinPage, throw, onIndex, mbind, Op_bind in E. simpl in E.
    destruct (decide _) in E; discriminate. }
  apply orb_false_iff in Ehi as [Eh1 Eh2]. apply Z.ltb_ge in Eh1.
  repeat split; auto.
  destruct (bool_decide (highOp s = LT)).
  - rewrite andb_true_r in Eh2. apply Z.eqb_neq in Eh2. apply Z.ltb_lt. lia.
  - apply Z.leb_le. exact Eh1.
Qed.

End ScanHandsOut.

Section Descent.
Context `{Layout}.

(** X16. The descent of a scan ends on a leaf.  When [recursiveScanPageId]
    returns, the page that is current is in the file and its level field is
    -1, [currentPageData] refers to that page, and the file has the pages it
    had. *)
Theorem recursiveScanPageId_reaches_leaf fuel : forall s s' (u : unit),
  recursiveScanPageId fuel s = (Ret u, s') ->
  exists b p,
    bufMgr s' = Some b
    /\ lookupPage b (currentPageNum s') = Some p
    /\ pageLevel p = Some (-1)%Z
    /\ currentPageData s' = Some (currentPageNum s')
    /\ pages b = pages (bufOf s).
Proof.
  induction fuel as [|fuel IH]; intros s s' u E; [discriminate|].
  cbn [recursiveScanPageId] in E.
  destruct (bufMgr s) as [b|] eqn:Eb; cycle 1.
  { unfold readCurrentPage, withBuf, get, mbind, Op_bind in E. simpl in E.
    rewrite Eb in E. discriminate. }
  destruct (lookupPage b (currentPageNum s)) as [p|] eqn:Ep; cycle 1.
  { unfold readCurrentPage, withBuf, readPage, get, mbind, Op_bind in E. simpl in E.
    rewrite Eb in E. rewrite Ep in E. discriminate. }
  rewrite (bind_run _ _ _ _ _ (returns_readCurrentPage s b p Eb Ep)) in E.
  erewrite bind_run in E
    by (eapply returns_currentPage; [reflexivity|reflexivity|exact Ep]).
  erewrite bind_run in E by apply returns_get.
  unfold isLeaf in E.
  destruct (pageLevel p) as [l|] eqn:El; [|discriminate].
  destruct (l =? -1)%Z eqn:Elv.
  - apply Z.eqb_eq in Elv. subst l.
    unfold withBuf, unPinPage in E. simpl in E.
    rewrite decide_True in E by left. rewrite decide_True in E by reflexivity.
    injection E as _ <-. exists (mkBuf (pages b) (pinned b) (dirty b)), p.
    simpl. unfold bufOf. rewrite Eb. auto.
  - destruct p as [| | |internal]; try discriminate.
    erewrite bind_run in E
      by (eapply returns_withBuf; [reflexivity|apply returns_unPinPage; simpl; left]).
    erewrite bind_run in E by apply returns_modify.
    destruct (IH _ _ _ E) as (b' & p' & H1 & H2 & H3 & H4 & H5).
    exists b', p'. repeat split; auto.
    rewrite H5. unfold bufOf. rewrite Eb. reflexivity.
Qed.

End Descent.

(** ** The header page during insertion *)

Section HeaderBuf.
Variables (h : PageId) (meta : IndexMetaInfo).










End HeaderBuf.

Section HeaderInsert.
Context `{Layout}.
Variables (h : PageId) (meta : IndexMetaInfo).









End HeaderInsert.

Section HeaderIndex.
Context `{Layout}.
Variables (h : PageId) (meta : IndexMetaInfo).






End HeaderIndex.

Section HeaderTheorem.
Context `{Layout}.


End HeaderTheorem.

(** ** insertNode: one level of descent *)

Section Descend.
Context `{Layout}.

(** X18. [insertNode] on an internal node routes the entry to the child that
    [findNonLeafIndex] selects.  When that child is a leaf with a free slot
    the entry is placed there in key order, nothing is handed up, the
    internal node keeps its content (it is unpinned dirty all the same) and
    no pin is left. *)
Theorem insertNode_into_child fuel key rid midKey pid newSon b internal leaf :
  lookupPage b pid = Some (NonLeafPage internal) ->
  level internal <> (-1)%Z ->
  lookupPage b (getPid (pageNoArray internal) (findNonLeafIndex internal key))
    = Some (LeafPage leaf) ->
  leafLevel leaf = (-1)%Z ->
  length (leafKeyArray leaf) = INTARRAYLEAFSIZE ->
  length (ridArray leaf) = INTARRAYLEAFSIZE ->
  length (occupied leaf) < INTARRAYLEAFSIZE ->
  Forall (fun r => page_number r = 0) (drop (length (occupied leaf)) (ridArray leaf)) ->
  page_number rid <> 0 ->
  exists leaf',
    insertNode (S (S fuel)) key rid midKey pid newSon b =
      (Ret (false, midKey, newSon),
       mkBuf (<[getPid (pageNoArray internal) (findNonLeafIndex internal key) - 1
                := LeafPage leaf']> (pages b))
             (pinned b)
             (getPid (pageNoArray internal) (findNonLeafIndex internal key)
                :: pid :: dirty b))
    /\ occupied leaf' = placeEntry key rid (occupied leaf)
    /\ leafLevel leaf' = (-1)%Z
    /\ rightSibPageNo leaf' = rightSibPageNo leaf.
Proof.
  intros Ep Hlv Ec Hll Hk Hr Hn Hc Hrid.
  set (child := getPid (pageNoArray internal) (findNonLeafIndex internal key)) in *.
  destruct (leaf_placed key rid leaf Hk Hr Hn Hc Hrid) as (E1 & _ & _ & _ & E5 & E6).
  assert (Hnf : leafFull_next leaf <> INTARRAYLEAFSIZE).
  { pose proof (occupied_stop leaf ltac:(lia) ltac:(lia)) as Hstop.
    pose proof (leafFull_loop_le (S INTARRAYLEAFSIZE) leaf 0 (length (occupied leaf))
                  ltac:(lia) ltac:(lia) Hstop) as Hle.
    unfold leafFull_next. lia. }
  eexists. split; [|split; [exact E1|split; [rewrite E5; exact Hll|exact E6]]].
  cbn [insertNode].
  rewrite (bind_run _ _ _ _ _ (returns_readPage _ _ _ Ep)).
  erewrite bind_run by (eapply returns_loadLevel; [exact Ep|reflexivity]).
  replace (level internal =? -1)%Z with false by (symmetry; apply Z.eqb_neq; exact Hlv).
  erewrite bind_run
    by (unfold loadNonLeaf;
        eapply returns_bind; [eapply returns_load; exact Ep|apply returns_ret]).
  fold child.
  erewrite bind_run by (apply returns_unPinPage; simpl; left).
  cbn [pages pinned dirty removeOne]. rewrite decide_True by reflexivity.
  erewrite bind_run; cycle 1.
  { eapply returns_bind; [eapply returns_readPage; exact Ec|].
    eapply returns_bind; [eapply returns_loadLevel; [exact Ec|reflexivity]|].
    replace (leafLevel leaf =? -1)%Z with true by (rewrite Hll; reflexivity).
    eapply returns_bind; [apply returns_unPinPage; simpl; left|].
    cbn [pages pinned dirty removeOne]. rewrite decide_True by reflexivity.
    exact (insertToLeaf_stores key rid child midKey newSon
             (mkBuf (pages b) (pinned b) (pid :: dirty b)) leaf Ec Hnf). }
  reflexivity.
Qed.

End Descend.

(** ** splitNonLeafNode *)

Section NonLeafTemp.
Context `{Layout}.
Variables (node : NonLeafNodeInt) (key : Z) (sonPid pid : PageId).
Hypothesis Hk : length (keyArray node) = INTARRAYNONLEAFSIZE.
Hypothesis Hp : length (pageNoArray node) = S INTARRAYNONLEAFSIZE.
Hypothesis Hfull : Forall (fun p => p <> 0) (tail (pageNoArray node)).





End NonLeafTemp.


Section NonLeafSplitRun.
Context `{Layout}.


End NonLeafSplitRun.



Section NonLeafSplitEntries.
Context `{Layout}.


End NonLeafSplitEntries.

(** ** insertNode: a split handed up one level *)

Section SplitUp.
Context `{Layout}.

(** [insertToLeaf] on a full leaf is [splitLeafNode] after the leaf has been
    unpinned dirty. *)
Lemma insertToLeaf_full key rid pid midKey newPid b node mid np b2 :
  lookupPage b pid = Some (LeafPage node) ->
  length (ridArray node) = INTARRAYLEAFSIZE ->
  Forall (fun r => page_number r <> 0) (ridArray node) ->
  splitLeafNode key rid pid (mkBuf (pages b) (pinned b) (pid :: dirty b))
    = (Ret (mid, np), b2) ->
  insertToLeaf key rid pid midKey newPid b = (Ret (true, mid, np), b2).
Proof.
  intros Ep Hr Hfull Hsplit. unfold insertToLeaf.
  rewrite (bind_run _ _ _ _ _ (returns_readPage _ _ _ Ep)).
  erewrite bind_run
    by (unfold loadLeaf;
        eapply returns_bind; [eapply returns_load; exact Ep|apply returns_ret]).
  cbv zeta.
  assert (Hnext : leafFull_next node = INTARRAYLEAFSIZE).
  { unfold leafFull_next. rewrite leafFull_loop_full; [reflexivity| |lia|lia].
    intros i _ Hi.
    destruct (lookup_lt_is_Some_2 (ridArray node) i) as [r Er]; [lia|].
    unfold getRid. rewrite Er. simpl.
    rewrite Forall_lookup in Hfull. exact (Hfull i r Er). }
  rewrite Hnext, Nat.eqb_refl.
  erewrite bind_run by (apply returns_unPinPage; simpl; left).
  cbn [pages pinned dirty removeOne]. rewrite decide_True by reflexivity.
  rewrite (bind_run _ _ _ _ _ Hsplit). reflexivity.
Qed.

(** X20. A leaf split handed up one level.  [insertNode] on an internal node
    with a free child slot, when the child selected by [findNonLeafIndex] is
    a full leaf: the leaf is split as [splitLeafNode] does, and the first
    key of the new leaf, with the page number of the new leaf, is placed
    among the (key, child) pairs of the internal node in key order.
    Nothing is handed further up; no pin is left. *)
Theorem insertNode_child_split fuel key rid midKey pid newSon b internal leaf :
  lookupPage b pid = Some (NonLeafPage internal) ->
  level internal <> (-1)%Z ->
  0 < INTARRAYNONLEAFSIZE ->
  length (keyArray internal) = INTARRAYNONLEAFSIZE ->
  length (pageNoArray internal) = S INTARRAYNONLEAFSIZE ->
  getPid (pageNoArray internal) INTARRAYNONLEAFSIZE = 0 ->
  lookupPage b (getPid (pageNoArray internal) (findNonLeafIndex internal key))
    = Some (LeafPage leaf) ->
  leafLevel leaf = (-1)%Z ->
  2 <= INTARRAYLEAFSIZE ->
  length (leafKeyArray leaf) = INTARRAYLEAFSIZE ->
  length (ridArray leaf) = INTARRAYLEAFSIZE ->
  Forall (fun r => page_number r <> 0) (ridArray leaf) ->
  page_number rid <> 0 ->
  let child := getPid (pageNoArray internal) (findNonLeafIndex internal key) in
  let newPid := S (length (pages b)) in
  exists leaf' newLeaf internal' mid,
    insertNode (S (S fuel)) key rid midKey pid newSon b =
      (Ret (false, mid, newPid),
       mkBuf (<[pid - 1 := NonLeafPage internal']>
                (<[child - 1 := LeafPage leaf']> (pages b) ++ [LeafPage newLeaf]))
             (pinned b)
             (pid :: newPid :: child :: child :: pid :: dirty b))
    /\ occupied leaf' = take (INTARRAYLEAFSIZE / 2) (occupied leaf)
    /\ occupied newLeaf
       = drop (INTARRAYLEAFSIZE / 2) (placeEntry key rid (occupied leaf))
    /\ fst <$> head (occupied newLeaf) = Some mid
    /\ rightSibPageNo leaf' = newPid
    /\ rightSibPageNo newLeaf = rightSibPageNo leaf
    /\ children internal' = placeEntry mid newPid (children internal)
    /\ getPid (pageNoArray internal') 0 = getPid (pageNoArray internal) 0
    /\ level internal' = level internal.
Proof.
  intros Ep Hlv HM Hk Hp Hfree Ec Hll HL Hlk Hlr Hfull Hrid child newPid.
  fold child in Ec.
  destruct (splitLeafNode_entries key rid child
              (mkBuf (pages b) (pinned b) (child :: pid :: dirty b)) leaf
              Ec HL Hlk Hlr Hfull Hrid)
    as (leaf' & newLeaf & mid & Hsplit & S1 & S2 & S3 & _ & S5 & S6 & _ & _).
  cbn [pages pinned dirty] in Hsplit, S5. fold newPid in Hsplit, S5.
  assert (Hne : child <> pid).
  { intros Heq. rewrite Heq in Ec. congruence. }
  assert (Ep2 : lookupPage
                  (mkBuf (<[child - 1 := LeafPage leaf']> (pages b) ++ [LeafPage newLeaf])
                         (pinned b) (newPid :: child :: child :: pid :: dirty b)) pid
                = Some (NonLeafPage internal)).
  { destruct pid as [|p]; [discriminate|]. simpl in Ep |- *.
    pose proof (lookup_lt_Some _ _ _ Ep) as Hlt.
    rewrite lookup_app_l by (rewrite length_insert; exact Hlt).
    destruct child as [|c]; [discriminate|].
    rewrite list_lookup_insert_ne by (simpl; lia). exact Ep. }
  destruct (insertToNonLeafNode_run mid newPid pid mid newPid _ internal
              Ep2 HM Hk Hp Hfree ltac:(discriminate))
    as (internal' & Hins & I1 & I2 & I3 & _ & _).
  cbn [pages pinned dirty] in Hins.
  exists leaf', newLeaf, internal', mid.
  split; [|repeat split; assumption].
  cbn [insertNode].
  rewrite (bind_run _ _ _ _ _ (returns_readPage _ _ _ Ep)).
  erewrite bind_run by (eapply returns_loadLevel; [exact Ep|reflexivity]).
  replace (level internal =? -1)%Z with false by (symmetry; apply Z.eqb_neq; exact Hlv).
  erewrite bind_run
    by (unfold loadNonLeaf;
        eapply returns_bind; [eapply returns_load; exact Ep|apply returns_ret]).
  fold child.
  erewrite bind_run by (apply returns_unPinPage; simpl; left).
  cbn [pages pinned dirty removeOne]. rewrite decide_True by reflexivity.
  erewrite bind_run; cycle 1.
  { eapply returns_bind; [eapply returns_readPage; exact Ec|].
    eapply returns_bind; [eapply returns_loadLevel; [exact Ec|reflexivity]|].
    replace (leafLevel leaf =? -1)%Z with true by (rewrite Hll; reflexivity).
    eapply returns_bind; [apply returns_unPinPage; simpl; left|].
    cbn [pages pinned dirty removeOne]. rewrite decide_True by reflexivity.
    exact (insertToLeaf_full key rid child midKey newSon
             (mkBuf (pages b) (pinned b) (pid :: dirty b)) leaf mid newPid _
             Ec Hlr Hfull Hsplit). }
  cbv beta iota. exact Hins.
Qed.

End SplitUp.

(** ** A new index is handed over clean *)

Section BuildClean.
Context `{Layout}.

(** The bulk load with a buffer manager that refuses to flush pinned pages:
    started without pins, it ends without pins, and when it returns the file
    has been written back. *)
Lemma bulkLoad_clean fuel (fileScan : list (RecordId * Z)) :
  hoare (fun s => pinned (bufOf s) = [])
        (bulkLoad flushFilePinned fuel fileScan)
        (fun _ s => pinned (bufOf s) = [] /\ dirty (bufOf s) = [])
        (fun _ s => pinned (bufOf s) = []).
Proof.
  induction fileScan as [|[outRid key] rest IH]; cbn [bulkLoad].
  - intros s o s' Hs. unfold withBuf, bufOf in *.
    destruct (bufMgr s) as [b|]; [|intros [= <- <-]; exact I].
    simpl in Hs. unfold flushFilePinned. rewrite Hs.
    intros [= <- <-]. simpl. auto.
  - eapply hoare_bind; [apply insertEntry_pins|]. intros ?. exact IH.
Qed.

(** X21. A new index is handed over clean.  When the constructor creates the
    index file and the buffer manager refuses to flush a file with pinned
    pages, the bulk load never leaves a pin: if the constructor returns, no
    page of the file is pinned and none is dirty any more (the flush went
    through); if it ends with an exception, no page is pinned either. *)
Theorem constructor_new_file_clean (disk : gmap string (list Page)) (relName : string)
    (offset : Z) (ty : Datatype) (fileScan : list (RecordId * Z)) (fuel : nat)
    (o : Outcome unit) (s : BTreeIndex) :
  disk !! indexName relName offset = None ->
  snd (constructor flushFilePinned disk relName offset ty fileScan fuel) = (o, s) ->
  match o with
  | Ret _ => pinned (bufOf s) = [] /\ dirty (bufOf s) = []
  | Throw _ => pinned (bufOf s) = []
  | Undefined | OutOfFuel => True
  end.
Proof.
  intros E Hrun.
  rewrite (constructor_create_run flushFilePinned disk relName offset ty fileScan fuel E)
    in Hrun.
  cbn [snd] in Hrun.
  refine (bulkLoad_clean fuel fileScan _ o s _ Hrun). reflexivity.
Qed.

End BuildClean.

(** ** Instances

    Each theorem above that has a precondition, applied to an index built by
    the constructor. *)

(** The root leaf of the four-key layout is full; inserting 25 splits it and
    grows a root. *)
Lemma insertEntry_unpins_all_witness :
  let s := builtIndex fourLayout [10; 20; 30; 40]%Z in
  let r := @insertEntry fourLayout 8 25%Z (ridOf 25) s in
  fst r = Ret tt /\ pinned (bufOf (snd r)) = pinned (bufOf s).
Proof.
  intros s r. split; [vm_compute; reflexivity|].
  apply (@insertEntry_unpins_all fourLayout 8 25%Z (ridOf 25) s (snd r) (Ret tt)).
  - vm_compute. reflexivity.
  - discriminate.
  - discriminate.
Defined.

Lemma startScan_pins_one_leaf_witness :
  let s := builtIndex realLayout [1; 10]%Z in
  let r := @startScan realLayout 8 3 GTE 7 LTE s in
  fst r = Ret tt /\ pinned (bufOf (snd r)) = currentPageNum (snd r) :: pinned (bufOf s).
Proof.
  intros s r. split; [vm_compute; reflexivity|].
  apply (@startScan_pins_one_leaf realLayout 8 3%Z 7%Z GTE LTE s (snd r) (Ret tt)).
  vm_compute. reflexivity.
Defined.

Lemma scanNext_pin_follows_leaf_witness :
  let s := snd (@startScan realLayout 8 1 GTE 10 LTE (builtIndex realLayout [1; 10]%Z)) in
  let r := @scanNext realLayout (zeroRid, s) in
  pinned (bufOf s) = [currentPageNum s]
  /\ fst r = Ret tt
  /\ pinned (bufOf (snd (snd r))) = [currentPageNum (snd (snd r))].
Proof.
  intros s r. split; [vm_compute; reflexivity|]. split; [vm_compute; reflexivity|].
  apply (@scanNext_pin_follows_leaf realLayout zeroRid (fst (snd r)) s (snd (snd r)) []
           (Ret tt)).
  - vm_compute. reflexivity.
  - vm_compute. reflexivity.
Defined.

Lemma startScan_rejects_witness :
  let s := builtIndex realLayout [1; 10]%Z in
  @startScan realLayout 8 3 LT 7 LTE s
  = (Throw BadOpcodesException, setScanRange 3 LT 7 LTE s)
  /\ @startScan realLayout 8 7 GTE 3 LTE s
     = (Throw BadScanrangeException, setScanRange 7 GTE 3 LTE s).
Proof.
  intros s. split.
  - apply (proj1 (@startScan_rejects realLayout 8 3%Z 7%Z LT LTE s)).
    left. split; discriminate.
  - apply (proj2 (@startScan_rejects realLayout 8 7%Z 3%Z GTE LTE s)).
    + right. reflexivity.
    + right. reflexivity.
    + lia.
Defined.

Lemma endScan_then_not_initialized_witness :
  let s := snd (@startScan realLayout 8 3 GTE 7 LTE (builtIndex realLayout [1; 10]%Z)) in
  exists s',
    endScan s = (Ret tt, s')
    /\ endScan s' = (Throw ScanNotInitializedException, s')
    /\ forall outRid,
         @scanNext realLayout (outRid, s')
         = (Throw ScanNotInitializedException, (outRid, s')).
Proof.
  intros s. apply (@endScan_then_not_initialized realLayout s). vm_compute. reflexivity.
Defined.

Lemma printNode_prints_entries_witness :
  let s := builtIndex fourLayout [10; 20; 30; 40; 50; 60]%Z in
  @printNode fourLayout 2 ([], s) = (Ret tt, ([(2, 0, 10%Z); (2, 1, 20%Z)], s))
  /\ @printNode fourLayout 4 ([], s) = (Ret tt, ([(4, 0, 30%Z)], s)).
Proof.
  intros s. split.
  - apply (@printNode_prints_entries fourLayout 2 [] s (bufOf s)
             (LeafPage (mkLeaf (-1) [10; 20; 30; 40]%Z
                          [ridOf 10; ridOf 20; mkRid 0 30; mkRid 0 40] 3)));
      vm_compute; reflexivity.
  - apply (@printNode_prints_entries fourLayout 4 [] s (bufOf s)
             (NonLeafPage (mkNonLeaf 1 [30; 0; 0; 0]%Z [2; 3; 0; 0; 0])));
      solve [vm_compute; reflexivity | discriminate].
Defined.


Lemma findNonLeafIndex_least_witness :
  let node := mkNonLeaf 1 [30; 50; 0; 0]%Z [2; 3; 5; 0; 0] in
  @findNonLeafIndex fourLayout node 40 = 1
  /\ (forall j, j < 1 ->
        getPid (pageNoArray node) (j + 1) <> 0 /\ (getKey (keyArray node) j < 40)%Z)
  /\ (1 < 4 -> getPid (pageNoArray node) (1 + 1) = 0 \/ (40 <= getKey (keyArray node) 1)%Z).
Proof.
  intros node. split; [vm_compute; reflexivity|].
  exact (proj2 (@findNonLeafIndex_least fourLayout node 40%Z)).
Defined.

(** The root leaf built from 10 and 30 has two free slots. *)
Lemma insertToLeaf_places_entry_witness :
  let b := bufOf (builtIndex fourLayout [10; 30]%Z) in
  let node := mkLeaf (-1) [10; 30; 0; 0]%Z [ridOf 10; ridOf 30; zeroRid; zeroRid] 0 in
  lookupPage b 2 = Some (LeafPage node)
  /\ exists node',
       @insertToLeaf fourLayout 20 (ridOf 20) 2 0 0 b =
         (Ret (false, 0%Z, 0),
          mkBuf (<[2 - 1 := LeafPage node']> (pages b)) (pinned b) (2 :: dirty b))
       /\ occupied node' = placeEntry 20 (ridOf 20) (occupied node)
       /\ length (leafKeyArray node') = 4
       /\ length (ridArray node') = 4
       /\ Forall (fun r => page_number r = 0)
                 (drop (length (occupied node')) (ridArray node'))
       /\ leafLevel node' = leafLevel node
       /\ rightSibPageNo node' = rightSibPageNo node
       /\ (StronglySorted Z.le (map fst (occupied node)) ->
           StronglySorted Z.le (map fst (occupied node'))).
Proof.
  intros b node. split; [vm_compute; reflexivity|].
  apply (@insertToLeaf_places_entry fourLayout 20%Z (ridOf 20) 2 0%Z 0 b node).
  - vm_compute. reflexivity.
  - reflexivity.
  - reflexivity.
  - vm_compute. lia.
  - vm_compute. repeat constructor.
  - vm_compute. discriminate.
Defined.

(** The root built from 10, ..., 60 has one key and two children. *)
Lemma insertToNonLeafNode_places_child_witness :
  let b := bufOf (builtIndex fourLayout [10; 20; 30; 40; 50; 60]%Z) in
  let node := mkNonLeaf 1 [30; 0; 0; 0]%Z [2; 3; 0; 0; 0] in
  lookupPage b 4 = Some (NonLeafPage node)
  /\ exists node',
       @insertToNonLeafNode fourLayout 50 7 4 0 0 b =
         (Ret (false, 0%Z, 0),
          mkBuf (<[4 - 1 := NonLeafPage node']> (pages b)) (pinned b) (4 :: dirty b))
       /\ children node' = placeEntry 50 7 (children node)
       /\ getPid (pageNoArray node') 0 = getPid (pageNoArray node) 0
       /\ level node' = level node
       /\ length (keyArray node') = 4
       /\ length (pageNoArray node') = 5.
Proof.
  intros b node. split; [vm_compute; reflexivity|].
  apply (@insertToNonLeafNode_places_child fourLayout 50%Z 7 4 0%Z 0 b node).
  - vm_compute. reflexivity.
  - vm_compute. lia.
  - reflexivity.
  - reflexivity.
  - reflexivity.
  - discriminate.
Defined.

(** The root leaf built from 10, 20, 30, 40 is full. *)
Lemma splitLeafNode_halves_witness :
  let b := bufOf (builtIndex fourLayout [10; 20; 30; 40]%Z) in
  let node := mkLeaf (-1) [10; 20; 30; 40]%Z [ridOf 10; ridOf 20; ridOf 30; ridOf 40] 0 in
  lookupPage b 2 = Some (LeafPage node)
  /\ exists node' newNode mid,
       @splitLeafNode fourLayout 25 (ridOf 25) 2 b =
         (Ret (mid, S (length (pages b))),
          mkBuf (<[2 - 1 := LeafPage node']> (pages b) ++ [LeafPage newNode])
                (pinned b) (S (length (pages b)) :: 2 :: dirty b))
       /\ occupied node' = take (4 / 2) (occupied node)
       /\ occupied newNode = drop (4 / 2) (placeEntry 25 (ridOf 25) (occupied node))
       /\ fst <$> head (occupied newNode) = Some mid
       /\ leafKeyArray node' = leafKeyArray node
       /\ rightSibPageNo node' = S (length (pages b))
       /\ rightSibPageNo newNode = rightSibPageNo node
       /\ leafLevel node' = leafLevel node
       /\ leafLevel newNode = (-1)%Z.
Proof.
  intros b node. split; [vm_compute; reflexivity|].
  apply (@splitLeafNode_halves fourLayout 25%Z (ridOf 25) 2 b node).
  - vm_compute. reflexivity.
  - vm_compute. lia.
  - reflexivity.
  - reflexivity.
  - repeat constructor; discriminate.
  - vm_compute. discriminate.
Defined.

Lemma insertEntry_root_leaf_witness :
  let s := builtIndex fourLayout [10; 30]%Z in
  let b := bufOf s in
  let node := mkLeaf (-1) [10; 30; 0; 0]%Z [ridOf 10; ridOf 30; zeroRid; zeroRid] 0 in
  lookupPage b (rootPageNum s) = Some (LeafPage node)
  /\ exists node',
       @insertEntry fourLayout 8 20 (ridOf 20) s =
         (Ret tt,
          setBufMgr (Some (mkBuf (<[rootPageNum s - 1 := LeafPage node']> (pages b))
                                 (pinned b) (rootPageNum s :: rootPageNum s :: dirty b))) s)
       /\ occupied node' = placeEntry 20 (ridOf 20) (occupied node)
       /\ length (leafKeyArray node') = 4
       /\ length (ridArray node') = 4
       /\ Forall (fun r => page_number r = 0)
                 (drop (length (occupied node')) (ridArray node'))
       /\ leafLevel node' = (-1)%Z
       /\ rightSibPageNo node' = rightSibPageNo node.
Proof.
  intros s b node. split; [vm_compute; reflexivity|].
  apply (@insertEntry_root_leaf fourLayout 8 20%Z (ridOf 20) s b node).
  - vm_compute. reflexivity.
  - vm_compute. reflexivity.
  - reflexivity.
  - reflexivity.
  - reflexivity.
  - vm_compute. lia.
  - vm_compute. repeat constructor.
  - vm_compute. discriminate.
Defined.

Lemma startScan_loop_first_witness :
  let leaf := mkLeaf (-1) [10; 30; 0; 0]%Z [ridOf 10; ridOf 30; zeroRid; zeroRid] 0 in
  startScan_loop 4 leaf 15 GTE 40 LTE 0 = Found 1
  /\ page_number (getRid (ridArray leaf) 1) <> 0
  /\ (15 <=? getKey (leafKeyArray leaf) 1)%Z = true.
Proof.
  intros leaf. split; [reflexivity|].
  destruct (@startScan_loop_first 4 leaf 15%Z GTE 40%Z LTE 0 1) as (_ & _ & H3 & H4 & _).
  - right. reflexivity.
  - reflexivity.
  - split; [exact H3|exact H4].
Defined.

Lemma scanNext_hands_out_witness :
  let s := snd (@startScan realLayout 8 1 GTE 10 LTE (builtIndex realLayout [1; 10]%Z)) in
  let r := @scanNext realLayout (zeroRid, s) in
  fst r = Ret tt
  /\ exists pid b leaf,
       scanExecuting s = true
       /\ currentPageData s = Some pid
       /\ bufMgr s = Some b
       /\ lookupPage b pid = Some (LeafPage leaf)
       /\ fst (snd r) = getRidZ (ridArray leaf) (nextEntry s)
       /\ (if bool_decide (highOp s = LT)
           then (getKeyZ (leafKeyArray leaf) (nextEntry s) <? highValInt s)%Z
           else (getKeyZ (leafKeyArray leaf) (nextEntry s) <=? highValInt s)%Z) = true.
Proof.
  intros s r. split; [vm_compute; reflexivity|].
  apply (@scanNext_hands_out realLayout zeroRid (fst (snd r)) s (snd (snd r)) tt).
  vm_compute. reflexivity.
Defined.

(** The descent from the internal root (page 4) for the lower bound 35 ends
    on the second leaf. *)
Lemma recursiveScanPageId_reaches_leaf_witness :
  let s := setCurrentPageNum 4
             (setScanRange 35 GTE 60 LTE
                (builtIndex fourLayout [10; 20; 30; 40; 50; 60]%Z)) in
  let r := @recursiveScanPageId fourLayout 8 s in
  fst r = Ret tt
  /\ currentPageNum (snd r) = 3
  /\ exists b p,
       bufMgr (snd r) = Some b
       /\ lookupPage b (currentPageNum (snd r)) = Some p
       /\ pageLevel p = Some (-1)%Z
       /\ currentPageData (snd r) = Some (currentPageNum (snd r))
       /\ pages b = pages (bufOf s).
Proof.
  intros s r. split; [vm_compute; reflexivity|]. split; [vm_compute; reflexivity|].
  apply (@recursiveScanPageId_reaches_leaf fourLayout 8 s (snd r) tt).
  vm_compute. reflexivity.
Defined.


(** Key 15 is routed by the root (page 4) to the first leaf (page 2), which
    has two free slots after the split that made it. *)
Lemma insertNode_into_child_witness :
  let b := bufOf (builtIndex fourLayout [10; 20; 30; 40; 50; 60]%Z) in
  let internal := mkNonLeaf 1 [30; 0; 0; 0]%Z [2; 3; 0; 0; 0] in
  let leaf := mkLeaf (-1) [10; 20; 30; 40]%Z [ridOf 10; ridOf 20; mkRid 0 30; mkRid 0 40] 3 in
  lookupPage b 4 = Some (NonLeafPage internal)
  /\ getPid (pageNoArray internal) (@findNonLeafIndex fourLayout internal 15) = 2
  /\ lookupPage b 2 = Some (LeafPage leaf)
  /\ exists leaf',
       @insertNode fourLayout 2 15 (ridOf 15) 0 4 0 b =
         (Ret (false, 0%Z, 0),
          mkBuf (<[getPid (pageNoArray internal) (@findNonLeafIndex fourLayout internal 15) - 1
                   := LeafPage leaf']> (pages b))
                (pinned b)
                (getPid (pageNoArray internal) (@findNonLeafIndex fourLayout internal 15)
                   :: 4 :: dirty b))
       /\ occupied leaf' = placeEntry 15 (ridOf 15) (occupied leaf)
       /\ leafLevel leaf' = (-1)%Z
       /\ rightSibPageNo leaf' = rightSibPageNo leaf.
Proof.
  intros b internal leaf.
  split; [vm_compute; reflexivity|]. split; [vm_compute; reflexivity|].
  split; [vm_compute; reflexivity|].
  apply (@insertNode_into_child fourLayout 0 15%Z (ridOf 15) 0%Z 4 0 b internal leaf).
  - vm_compute. reflexivity.
  - discriminate.
  - vm_compute. reflexivity.
  - reflexivity.
  - reflexivity.
  - reflexivity.
  - vm_compute. lia.
  - vm_compute. repeat constructor.
  - vm_compute. discriminate.
Defined.


(** Key 45 is routed by the root (page 4) to the second leaf (page 3), which
    is full. *)
Lemma insertNode_child_split_witness :
  let b := bufOf (builtIndex fourLayout [10; 20; 30; 40; 50; 60]%Z) in
  let internal := mkNonLeaf 1 [30; 0; 0; 0]%Z [2; 3; 0; 0; 0] in
  let leaf := mkLeaf (-1) [30; 40; 50; 60]%Z [ridOf 30; ridOf 40; ridOf 50; ridOf 60] 0 in
  lookupPage b 4 = Some (NonLeafPage internal)
  /\ getPid (pageNoArray internal) (@findNonLeafIndex fourLayout internal 45) = 3
  /\ lookupPage b 3 = Some (LeafPage leaf)
  /\ exists leaf' newLeaf internal' mid,
       @insertNode fourLayout 2 45 (ridOf 45) 0 4 0 b =
         (Ret (false, mid, 5),
          mkBuf (<[4 - 1 := NonLeafPage internal']>
                   (<[3 - 1 := LeafPage leaf']> (pages b) ++ [LeafPage newLeaf]))
                (pinned b) (4 :: 5 :: 3 :: 3 :: 4 :: dirty b))
       /\ occupied leaf' = take (4 / 2) (occupied leaf)
       /\ occupied newLeaf = drop (4 / 2) (placeEntry 45 (ridOf 45) (occupied leaf))
       /\ fst <$> head (occupied newLeaf) = Some mid
       /\ rightSibPageNo leaf' = 5
       /\ rightSibPageNo newLeaf = rightSibPageNo leaf
       /\ children internal' = placeEntry mid 5 (children internal)
       /\ getPid (pageNoArray internal') 0 = getPid (pageNoArray internal) 0
       /\ level internal' = level internal.
Proof.
  intros b internal leaf.
  split; [vm_compute; reflexivity|]. split; [vm_compute; reflexivity|].
  split; [vm_compute; reflexivity|].
  apply (@insertNode_child_split fourLayout 0 45%Z (ridOf 45) 0%Z 4 0 b internal leaf).
  - vm_compute. reflexivity.
  - discriminate.
  - vm_compute. lia.
  - reflexivity.
  - reflexivity.
  - reflexivity.
  - vm_compute. reflexivity.
  - reflexivity.
  - vm_compute. lia.
  - reflexivity.
  - reflexivity.
  - repeat constructor; discriminate.
  - vm_compute. discriminate.
Defined.

Lemma constructor_new_file_clean_witness :
  let r := snd (@constructor fourLayout flushFilePinned ∅ "rel" 0%Z INTEGER
                  (map (fun k => (ridOf k, k)) [10; 20; 30; 40; 50; 60]%Z) 8) in
  fst r = Ret tt
  /\ length (pages (bufOf (snd r))) = 4
  /\ pinned (bufOf (snd r)) = []
  /\ dirty (bufOf (snd r)) = [].
Proof.
  intros r. split; [vm_compute; reflexivity|]. split; [vm_compute; reflexivity|].
  apply (@constructor_new_file_clean fourLayout ∅ "rel" 0%Z INTEGER
           (map (fun k => (ridOf k, k)) [10; 20; 30; 40; 50; 60]%Z) 8 (Ret tt) (snd r)).
  - vm_compute. reflexivity.
  - vm_compute. reflexivity.
Defined.
